(** * AsmKernelProjection: the FP8 GEMM tile model and the attention cycle model

    A shallow embedding of [src/gemm.py], [src/pa.py] and [src/400/pa.py].

    The three files are straight-line Python over [int] and [float].  The
    embedding keeps both number types: a Python [int] is a [Z], a Python
    [float] is an IEEE-754 binary64 value ([spec_float] at precision 53 and
    maximal exponent 1024, the Standard Library's executable specification of
    the format), and every operator follows CPython's dispatch: [int] with
    [int] stays exact, a mixed operation converts the [int] operand first
    (raising [OverflowError] when it does not fit), [/] on two [int]s is the
    correctly rounded quotient, and division by zero raises. *)

From Stdlib Require Import ZArith List String Ascii Bool Lia.
From Stdlib Require Import DecimalString DecimalZ DecimalPos.
From Stdlib Require Import Floats.SpecFloat.
Import ListNotations.

Local Open Scope string_scope.
Local Open Scope Z_scope.

(** ** Python values, exceptions and arithmetic *)

Module Py.

(** The exceptions the three files can raise.  [ValueError] is the one the
    source raises itself (with its message); [KeyError] comes from
    subscripting a dict, the other two from the arithmetic operators. *)
Inductive exn : Type :=
| ValueError (msg : string)
| KeyError (key : string)
| ZeroDivisionError
| OverflowError.

Inductive result (A : Type) : Type :=
| OK (a : A)
| Err (e : exn).
Arguments OK {A} a.
Arguments Err {A} e.

Definition bind {A B : Type} (c : result A) (k : A -> result B) : result B :=
  match c with
  | OK a => k a
  | Err e => Err e
  end.

Notation "x <- c ;; k" := (bind c (fun x => k))
  (at level 61, c at next level, right associativity).
Notation "c ;; k" := (bind c (fun _ => k))
  (at level 61, right associativity).

(** *** binary64 *)

Definition float : Type := spec_float.

Definition fadd : float -> float -> float := SFadd 53 1024.
Definition fsub : float -> float -> float := SFsub 53 1024.
Definition fmul : float -> float -> float := SFmul 53 1024.
Definition fdiv : float -> float -> float := SFdiv 53 1024.
Definition fltb : float -> float -> bool := SFltb.

Definition fzero : float := S754_zero false.
Definition fone : float := S754_finite false 4503599627370496 (-52).
Definition fhalf : float := S754_finite false 4503599627370496 (-53).

Definition is_zero (x : float) : bool :=
  match x with
  | S754_zero _ => true
  | _ => false
  end.

Definition signbit (x : float) : bool :=
  match x with
  | S754_zero s | S754_infinity s | S754_finite s _ _ => s
  | S754_nan => false
  end.

(** C's [floor]: the result is an integer that fits the format, so the
    final rounding is exact. *)
Definition ffloor (x : float) : float :=
  match x with
  | S754_finite s m e =>
      if 0 <=? e then x
      else match (if s then Zneg m else Zpos m) / 2 ^ (- e) with
           | Z0 => S754_zero s
           | z => binary_normalize 53 1024 z 0 false
           end
  | _ => x
  end.

(** C's [fmod]: the remainder of the truncated quotient, with the sign of
    the dividend; always exact. *)
Definition ffmod (x y : float) : float :=
  match x, y with
  | S754_nan, _ | _, S754_nan => S754_nan
  | S754_infinity _, _ => S754_nan
  | _, S754_zero _ => S754_nan
  | _, S754_infinity _ => x
  | S754_zero _, _ => x
  | S754_finite sx mx ex, S754_finite _ my ey =>
      let e0 := Z.min ex ey in
      match (Zpos mx * 2 ^ (ex - e0)) mod (Zpos my * 2 ^ (ey - e0)) with
      | Z0 => S754_zero sx
      | r => binary_normalize 53 1024 (if sx then - r else r) e0 false
      end
  end.

(** *** Numbers *)

Inductive pynum : Type :=
| PyInt (z : Z)
| PyFloat (f : float).

(** [PyLong_AsDouble]: round to nearest, ties to even; an [int] beyond the
    largest finite double raises. *)
Definition float_of_int (z : Z) : result float :=
  match binary_normalize 53 1024 z 0 false with
  | S754_infinity _ => Err OverflowError
  | f => OK f
  end.

Definition as_float (x : pynum) : result float :=
  match x with
  | PyInt z => float_of_int z
  | PyFloat f => OK f
  end.

(** [int / int]: the exact quotient, rounded once.  The quotient of the
    magnitudes is computed with enough bits for the rounding to see the
    remainder; the sign is that of the exact quotient (so [0 / -1] is
    [-0.0]). *)
Definition int_truediv (a b : Z) : result float :=
  if b =? 0 then Err ZeroDivisionError
  else if a =? 0 then OK (S754_zero (b <? 0))
  else
    let '(q, e, l) := SFdiv_core_binary 53 1024 (Z.abs a) 0 (Z.abs b) 0 in
    match binary_round_aux 53 1024 (xorb (a <? 0) (b <? 0)) q e l with
    | S754_infinity _ => Err OverflowError
    | f => OK f
    end.

(** [float.__truediv__] *)
Definition float_truediv (a b : float) : result float :=
  if is_zero b then Err ZeroDivisionError else OK (fdiv a b).

(** [float.__floordiv__], following CPython's [_float_div_mod]. *)
Definition float_floordiv (vx wx : float) : result float :=
  if is_zero wx then Err ZeroDivisionError
  else
    let rem := ffmod vx wx in
    let div := fdiv (fsub vx rem) wx in
    let div :=
      if negb (is_zero rem) && xorb (fltb wx fzero) (fltb rem fzero)
      then fsub div fone else div in
    if negb (is_zero div) then
      let floordiv := ffloor div in
      OK (if fltb fhalf (fsub div floordiv) then fadd floordiv fone
          else floordiv)
    else OK (S754_zero (signbit (fdiv vx wx))).

(** The binary operators on two numbers. *)
Definition arith (iop : Z -> Z -> Z) (fop : float -> float -> float)
    (x y : pynum) : result pynum :=
  match x, y with
  | PyInt a, PyInt b => OK (PyInt (iop a b))
  | _, _ =>
      a <- as_float x ;;
      b <- as_float y ;;
      OK (PyFloat (fop a b))
  end.

Definition add : pynum -> pynum -> result pynum := arith Z.add fadd.
Definition sub : pynum -> pynum -> result pynum := arith Z.sub fsub.
Definition mul : pynum -> pynum -> result pynum := arith Z.mul fmul.

Definition truediv (x y : pynum) : result pynum :=
  match x, y with
  | PyInt a, PyInt b => f <- int_truediv a b ;; OK (PyFloat f)
  | _, _ =>
      a <- as_float x ;;
      b <- as_float y ;;
      f <- float_truediv a b ;;
      OK (PyFloat f)
  end.

Definition floordiv (x y : pynum) : result pynum :=
  match x, y with
  | PyInt a, PyInt b =>
      if b =? 0 then Err ZeroDivisionError else OK (PyInt (a / b))
  | _, _ =>
      a <- as_float x ;;
      b <- as_float y ;;
      f <- float_floordiv a b ;;
      OK (PyFloat f)
  end.

(** [int % int] (the only use of [%] in the source). *)
Definition int_mod (a b : Z) : result Z :=
  if b =? 0 then Err ZeroDivisionError else OK (a mod b).

(** Comparison never converts: an [int] and a [float] are compared by
    value. *)
Definition Zcompare_float (z : Z) (f : float) : option comparison :=
  match f with
  | S754_nan => None
  | S754_infinity s => Some (if s then Gt else Lt)
  | S754_zero _ => Some (z ?= 0)
  | S754_finite s m e =>
      let v := if s then Zneg m else Zpos m in
      Some (if 0 <=? e then z ?= v * 2 ^ e else z * 2 ^ (- e) ?= v)
  end.

Definition compare (x y : pynum) : option comparison :=
  match x, y with
  | PyInt a, PyInt b => Some (a ?= b)
  | PyInt a, PyFloat g => Zcompare_float a g
  | PyFloat f, PyInt b => option_map CompOpp (Zcompare_float b f)
  | PyFloat f, PyFloat g => SFcompare f g
  end.

Definition ltb (x y : pynum) : bool :=
  match compare x y with Some Lt => true | _ => false end.
Definition leb (x y : pynum) : bool :=
  match compare x y with Some (Lt | Eq) => true | _ => false end.
Definition gtb (x y : pynum) : bool := ltb y x.

(** [max(a, b)] keeps [a] unless [b > a]. *)
Definition max2 (a b : pynum) : pynum := if gtb b a then b else a.

(** [sum(xs)]: the items are added to the start value [0] from left to
    right.  (CPython 3.12 and later add a run of floats with a compensated
    summation; nothing below depends on how the items are added, and on
    values that add without rounding the two agree.) *)
Definition sum (xs : list pynum) : result pynum :=
  fold_left (fun acc x => a <- acc ;; add a x) xs (OK (PyInt 0)).

(** [str(z)], for an [int] that CPython converts: since 3.11 an [int] of
    more than 4300 decimal digits raises [ValueError] instead (the default
    of [sys.set_int_max_str_digits]).  Statements about the text that
    [str] produces are made within that limit ([str_digits_ok] below). *)
Definition str (z : Z) : string := NilZero.string_of_int (Z.to_int z).

(** *** dict: keys in insertion order *)

Definition dict (V : Type) : Type := list (string * V).

Fixpoint get {V : Type} (d : dict V) (k : string) : option V :=
  match d with
  | [] => None
  | (k', v) :: d' => if String.eqb k' k then Some v else get d' k
  end.

(** [d[k] = v]: an existing key keeps its place. *)
Fixpoint set {V : Type} (d : dict V) (k : string) (v : V) : dict V :=
  match d with
  | [] => [(k, v)]
  | (k', v') :: d' =>
      if String.eqb k' k then (k', v) :: d' else (k', v') :: set d' k v
  end.

(** [d[k]] *)
Definition subscript {V : Type} (d : dict V) (k : string) : result V :=
  match get d k with
  | Some v => OK v
  | None => Err (KeyError k)
  end.

(** [{key(x): value(x) for x in xs}], started from [acc]. *)
Fixpoint comprehension {A V : Type} (item : A -> result (string * V))
    (xs : list A) (acc : dict V) : result (dict V) :=
  match xs with
  | [] => OK acc
  | x :: xs' =>
      kv <- item x ;;
      comprehension item xs' (set acc (fst kv) (snd kv))
  end.

Definition keys {V : Type} (d : dict V) : list string := map fst d.
Definition values {V : Type} (d : dict V) : list V := map snd d.

(** *** Expressions

    A Python expression is a computation that yields a number or raises;
    operands are evaluated left to right. *)

Abbreviation expr := (result pynum).

Definition pure (x : pynum) : expr := OK x.

Definition lift2 (op : pynum -> pynum -> result pynum) (x y : expr) : expr :=
  a <- x ;; b <- y ;; op a b.

Definition eadd : expr -> expr -> expr := lift2 add.
Definition esub : expr -> expr -> expr := lift2 sub.
Definition emul : expr -> expr -> expr := lift2 mul.
Definition etruediv : expr -> expr -> expr := lift2 truediv.
Definition efloordiv : expr -> expr -> expr := lift2 floordiv.
Definition emax (x y : expr) : expr := a <- x ;; b <- y ;; OK (max2 a b).

End Py.

Import Py.

Coercion Py.PyInt : Z >-> Py.pynum.
Coercion Py.pure : Py.pynum >-> Py.result.

Declare Scope py_scope.
Delimit Scope py_scope with py.
Bind Scope py_scope with Py.result.
Infix "+" := Py.eadd : py_scope.
Infix "-" := Py.esub : py_scope.
Infix "*" := Py.emul : py_scope.
Infix "/" := Py.etruediv : py_scope.
Infix "//" := Py.efloordiv (at level 40, left associativity) : py_scope.

(** ** src/gemm.py *)

Module Gemm.
Local Open Scope py_scope.

Definition BLOCK_SIZE : Z := 32.
Definition A_LDS_PAD : Z := 16.
Definition LDS_CAP_BYTES : expr := 320 * 1024.
Definition LDS_BYTES_PER_CYCLE : Z := 128.
Definition F8_MFMA_THROUGHPUT : expr := 16 * 16 * 128 / 8.

Record TileConfig : Type := { m : Z; n : Z; k : Z }.

Definition name (cfg : TileConfig) : string :=
  (str (m cfg) ++ "x" ++ str (n cfg) ++ "x" ++ str (k cfg))%string.

Definition _require_divisible (x d : Z) (what : string) : result unit :=
  r <- int_mod x d ;;
  if negb (r =? 0)
  then Err (ValueError
              (what ++ " must be divisible by " ++ str d ++ ", got " ++ str x)%string)
  else OK tt.

Definition fp8fp8_tile_metrics (tile_m tile_n tile_k : Z)
  : result (dict pynum) :=
  _require_divisible tile_k 32 "tile_k" ;;
  _require_divisible tile_n 16 "tile_n" ;;
  (* LDS usage (bytes) *)
  a_lds <- tile_m * (tile_k + A_LDS_PAD) ;;
  b_lds <- tile_k * tile_n ;;
  (* Scale LDS (bytes) *)
  a_scale <- (tile_m * tile_k) // BLOCK_SIZE ;;
  b_scale <- (tile_n * tile_k) // BLOCK_SIZE ;;
  scale <- a_scale + b_scale ;;
  total_lds <- a_lds + b_lds + scale ;;
  compute_cycles <- tile_m * tile_n * tile_k / 4 / F8_MFMA_THROUGHPUT ;;
  (* TDM model *)
  let tdm_a : pynum := tile_m in
  tdm_b <- tile_n * tile_k // 256 ;;
  tdm_issue_time <- tdm_a + tdm_b ;;
  (* Wave-level LDS + time (bytes/cycle) *)
  lds_a_inst <- (tile_m * tile_k) // 512 ;;
  lds_b_inst <- (tile_n / 4 * tile_k) // 512 ;;
  lds_scale_inst <- (tile_m * tile_k / 32 + tile_n * tile_k / 4 / 32) // 128 ;;
  lds_1x4 <- a_lds + b_lds // 4 ;;
  lds_1x4_time <- lds_1x4 / LDS_BYTES_PER_CYCLE ;;
  (* Register model rows *)
  acc_reg <- tile_m * tile_n / 4 / 16 / 16 * 8 ;;
  a_regs <- tile_m * tile_k / 16 / 128 * 16 ;;
  b_regs <- tile_n / 4 * tile_k / 16 / 128 * 16 ;;
  reg_per_msb <- acc_reg / 4 + emax a_regs b_regs / 2 ;;
  max_lds_stage <- LDS_CAP_BYTES / total_lds ;;
  OK [ ("tilem", PyInt tile_m);
       ("tilen", PyInt tile_n);
       ("tilek", PyInt tile_k);
       ("compute cycles", compute_cycles);
       ("A lds", a_lds);
       ("B lds", b_lds);
       ("scale", scale);
       ("Total lds", total_lds);
       ("lds a inst", lds_a_inst);
       ("lds b inst", lds_b_inst);
       ("lds scale inst", lds_scale_inst);
       ("max lds stage", max_lds_stage);
       ("wave lds latency time", lds_1x4_time);
       ("TDM A", tdm_a);
       ("TDM B", tdm_b);
       ("TDM issue time", tdm_issue_time);
       ("acc reg", acc_reg);
       ("a regs", a_regs);
       ("b regs", b_regs);
       ("reg per msb", reg_per_msb) ].

Definition row_order : list string :=
  [ "tilem"; "tilen"; "tilek";
    "compute cycles";
    "A lds"; "B lds"; "scale"; "Total lds";
    "lds a inst"; "lds b inst"; "lds scale inst";
    "max lds stage"; "wave lds latency time";
    "TDM A"; "TDM B"; "TDM issue time";
    "acc reg"; "a regs"; "b regs"; "reg per msb" ].

(** The rows-by-configs table, as the nested dict the function builds.
    (When pandas can be imported the same dict is handed to
    [pd.DataFrame(table).T] and the frame is returned; any exception there
    falls back to the dict itself.  The dict is what is modelled.)  A cell
    is [cols[cfg.name].get(row)], so it is [None] for a row the metrics
    lack. *)
Definition fp8fp8_table (configs : list TileConfig)
  : result (dict (dict (option pynum))) :=
  cols <- comprehension
            (fun cfg =>
               mt <- fp8fp8_tile_metrics (m cfg) (n cfg) (k cfg) ;;
               OK (name cfg, mt))
            configs [] ;;
  comprehension
    (fun row =>
       cells <- comprehension
                  (fun cfg =>
                     mt <- subscript cols (name cfg) ;;
                     OK (name cfg, get mt row))
                  configs [] ;;
       OK (row, cells))
    row_order [].

End Gemm.

(** ** The attention cycle model

    What [print_performance_table] computes before it prints: the effective
    [is_packed] (shown in the table's header), the softmax breakdown, the
    GEMM cycles and the three totals.  The printing itself is formatting
    only and is not modelled. *)

Record perf_table : Type := {
  is_packed_shown : bool;
  softmax_metrics : dict pynum;
  gemm_cycles : pynum;
  softmax_total : pynum;
  tot_cycles : pynum;
  tot_cycles_coexe : pynum
}.

(** *** src/pa.py (fixed issue cycles) *)

Module Pa.
Local Open Scope py_scope.

Definition MMA_THROUGHPUT : expr := 16 * 16 * 32 * 2 / 16.
Definition HEAD_SIZE : Z := 128.
Definition WARP_SIZE : Z := 64.
Definition ISSUE_CYCLES : Z := 4.
Definition EXP_ISSUE_CYCLES : expr := ISSUE_CYCLES * 4.

Definition gemm (qtile kv_tile : pynum) : expr :=
  ops <- qtile * kv_tile * HEAD_SIZE * 2 * 2 ;;
  cycles <- ops / MMA_THROUGHPUT ;;
  OK cycles.

Definition softmax (qtile kv_tile : pynum) (is_packed : bool)
  : result (dict pynum) :=
  s_elems <- (qtile * kv_tile) / WARP_SIZE ;;
  (* intra_max: max3 *)
  intra_max <- (s_elems / 2) * ISSUE_CYCLES ;;
  (* inter_max: ds_permute + ds_write + ds_read + max3 *)
  inter_max <- 250 + 84 + 112 + (qtile / 16) * 4 / 2 ;;
  (* s = exp((s - max) * scale), fma + exp *)
  fma <- (if is_packed then s_elems / 2 else s_elems) ;;
  let exp := s_elems in
  softmax_fma_exp <- fma * ISSUE_CYCLES + exp * EXP_ISSUE_CYCLES ;;
  (* get sum *)
  softmax_sum <- (if is_packed then s_elems / 2 else s_elems) * ISSUE_CYCLES ;;
  (* quant s *)
  quant_scale <- (if is_packed then s_elems / 2 else s_elems) ;;
  cvt <- (if is_packed then s_elems / 2 else s_elems) ;;
  s_quant <- quant_scale * ISSUE_CYCLES + cvt * ISSUE_CYCLES * 2 ;;
  (* reshape s: ds_write_b32 + ds_read_b128 *)
  reshape_s <- s_elems / 4 * 8 + 100 + s_elems / 4 * 32 ;;
  (* recompute_output *)
  out_elems <- (qtile * HEAD_SIZE / 4) / WARP_SIZE ;;
  recompute_output <-
    (if is_packed then out_elems / 2 else out_elems) * ISSUE_CYCLES ;;
  OK [ ("intra_max", intra_max);
       ("inter_max", inter_max);
       ("softmax_fma_exp", softmax_fma_exp);
       ("softmax_sum", softmax_sum);
       ("s_quant", s_quant);
       ("reshape_s", reshape_s);
       ("recompute_output", recompute_output) ].

Definition print_performance_table (qtile kv_tile : pynum)
    (co_exe is_packed : bool) : result perf_table :=
  let is_packed := if co_exe then false else is_packed in
  softmax_metrics <- softmax qtile kv_tile is_packed ;;
  gemm_cycles <- gemm qtile kv_tile ;;
  softmax_total <- sum (values softmax_metrics) ;;
  (* compute total cycles *)
  tot_cycles <- gemm_cycles + softmax_total ;;
  (* compute total cycles for coexecution *)
  tot_cycles_coexe <-
    gemm_cycles + (softmax_total - gemm_cycles * 3 / 4) / 2 ;;
  OK {| is_packed_shown := is_packed;
        softmax_metrics := softmax_metrics;
        gemm_cycles := gemm_cycles;
        softmax_total := softmax_total;
        tot_cycles := tot_cycles;
        tot_cycles_coexe := tot_cycles_coexe |}.

End Pa.

(** *** src/400/pa.py (issue rates) *)

Module Pa400.
Local Open Scope py_scope.

Definition MMA_THROUGHPUT : expr := 16 * 16 * 128 * 2 / 8.
Definition HEAD_SIZE : Z := 128.
Definition WARP_SIZE : Z := 32.
Definition VOP_RATE : Z := 1.
Definition DEP_VOP_RATE : Z := 5.
Definition TRANS_RATE : Z := 2.
Definition DEP_TRANS_RATE : Z := 8.

Definition gemm (qtile kv_tile : pynum) : expr :=
  ops <- qtile * kv_tile * HEAD_SIZE * 2 * 2 ;;
  cycles <- ops / MMA_THROUGHPUT ;;
  OK cycles.

Definition softmax (qtile kv_tile : pynum) (is_packed : bool)
  : result (dict pynum) :=
  s_elems <- (qtile * kv_tile) / WARP_SIZE ;;
  (* dequant *)
  dequant <- (if is_packed then s_elems / 2 else s_elems) * VOP_RATE ;;
  (* intra_max: max3 *)
  intra_max <- (s_elems / 2) * VOP_RATE ;;
  (* inter_max: permlane *)
  inter_max <- (4 * qtile / 16) * VOP_RATE ;;
  (* s = exp((s - max) * scale), fma + exp *)
  fma <- (if is_packed then s_elems / 2 else s_elems) ;;
  let exp := s_elems in
  softmax_fma_exp <- fma * VOP_RATE + exp * TRANS_RATE ;;
  (* get sum *)
  softmax_sum <- (if is_packed then s_elems / 2 else s_elems) * VOP_RATE ;;
  (* quant s *)
  quant_scale <- (if is_packed then s_elems / 2 else s_elems) ;;
  cvt <- (if is_packed then s_elems / 2 else s_elems) ;;
  s_quant <- quant_scale * VOP_RATE + cvt * VOP_RATE ;;
  (* recompute_output *)
  out_elems <- (qtile * HEAD_SIZE) / WARP_SIZE ;;
  out_elems <- (qtile * HEAD_SIZE) / WARP_SIZE ;;
  recompute_output <-
    (if is_packed then out_elems / 2 else out_elems) * 2 * VOP_RATE ;;
  OK [ ("dequant", dequant);
       ("intra_max", intra_max);
       ("inter_max", inter_max);
       ("softmax_fma_exp", softmax_fma_exp);
       ("softmax_sum", softmax_sum);
       ("s_quant", s_quant);
       ("recompute_output", recompute_output) ].

Definition print_performance_table (qtile kv_tile : pynum)
    (co_exe is_packed : bool) : result perf_table :=
  let is_packed := if co_exe then false else is_packed in
  softmax_metrics <- softmax qtile kv_tile is_packed ;;
  gemm_cycles <- gemm qtile kv_tile ;;
  softmax_total <- sum (values softmax_metrics) ;;
  (* compute total cycles *)
  tot_cycles <- gemm_cycles + softmax_total ;;
  (* compute total cycles for coexecution *)
  tot_cycles_coexe <-
    gemm_cycles + (softmax_total - gemm_cycles * 3 / 4) / 2 ;;
  OK {| is_packed_shown := is_packed;
        softmax_metrics := softmax_metrics;
        gemm_cycles := gemm_cycles;
        softmax_total := softmax_total;
        tot_cycles := tot_cycles;
        tot_cycles_coexe := tot_cycles_coexe |}.

End Pa400.

Import Gemm.

(** ** Rounding, stated on integers

    The binary64 operations above are the Standard Library's; the
    definitions below describe what they compute in terms of integer
    division, so that their results can be compared. *)

(** The state of the right shift of [M] after [j] steps: the shifted
    mantissa, the last bit shifted out, and whether any bit before it was
    set. *)
Definition shr_state (M j : Z) : shr_record :=
  {| shr_m := M / 2 ^ j;
     shr_r := (0 <? j) && Z.odd (M / 2 ^ (j - 1));
     shr_s := negb (M mod 2 ^ Z.max 0 (j - 1) =? 0) |}.

(** [M / 2 ^ n], rounded to nearest, ties to even. *)
Definition rne (M n : Z) : Z :=
  round_nearest_even (shr_m (shr_state M n)) (loc_of_shr_record (shr_state M n)).

(** Mantissa and exponent of [M * 2 ^ E] rounded to 53 bits, for [M] of
    53 bits or more. *)
Definition norm_round (M E : Z) : Z * Z :=
  let n := Zdigits2 M - 53 in
  let R := rne M n in
  if R <? 2 ^ 53 then (R, E + n) else (2 ^ 52, E + n + 1).

Definition pack (s : bool) (me : Z * Z) : spec_float :=
  if snd me <=? 971 then S754_finite s (Z.to_pos (fst me)) (snd me)
  else S754_infinity s.

(** Mantissa and exponent of the double nearest to the positive integer
    [z]. *)
Definition int_round (z : Z) : Z * Z :=
  let d := Zdigits2 z in
  if d <? 53 then (z * 2 ^ (53 - d), d - 53) else norm_round z 0.

(** The order of positive normal doubles: by exponent, then mantissa. *)
Definition lex_le (x y : Z * Z) : Prop :=
  snd x < snd y \/ (snd x = snd y /\ fst x <= fst y).

(** A zero or a finite number of sign [s]. *)
Definition finite_signed (s : bool) (x : float) : Prop :=
  x = S754_zero s \/ exists m e, x = S754_finite s m e.

(** [3.0], [4.0] and [0.75] *)
Definition f3 : float := S754_finite false 6755399441055744 (-51).
Definition f4 : float := S754_finite false 4503599627370496 (-50).
Definition f075 : float := S754_finite false 6755399441055744 (-53).

(** ** Predicates on expressions and results *)

Definition is_float (c : expr) : Prop := exists f, c = OK (PyFloat f).
Definition small_int (c : expr) : Prop :=
  exists z, c = OK (PyInt z) /\ Z.abs z < 2 ^ 1023.
Definition nonzero_int (c : expr) : Prop :=
  exists z, c = OK (PyInt z) /\ z <> 0 /\ Z.abs z < 2 ^ 1023.

Definition all_floats (bd : dict pynum) : Prop :=
  Forall (fun kv => exists f, snd kv = PyFloat f) bd.

(** A computation that raises nothing but the arithmetic exceptions. *)
Definition arith_only {A : Type} (c : result A) : Prop :=
  match c with
  | Err (ValueError _) | Err (KeyError _) => False
  | _ => True
  end.

(** What [print_performance_table] computes, in terms of the two model
    functions: the breakdown and the GEMM cycles are theirs, the softmax
    total is the sum of the breakdown's values, the total adds the two, and
    the co-execution total is the formula of the source, which agrees with
    the same formula written with the literal [0.75]. *)
Definition totals_spec (gemm_c : expr) (softmax_c : result (dict pynum))
    (r : perf_table) : Prop :=
  softmax_c = OK (softmax_metrics r) /\
  gemm_c = OK (gemm_cycles r) /\
  sum (values (softmax_metrics r)) = OK (softmax_total r) /\
  (gemm_cycles r + softmax_total r)%py = OK (tot_cycles r) /\
  (gemm_cycles r + (softmax_total r - gemm_cycles r * 3 / 4) / 2)%py
    = OK (tot_cycles_coexe r) /\
  (gemm_cycles r + (softmax_total r - PyFloat f075 * gemm_cycles r) / 2)%py
    = OK (tot_cycles_coexe r).

(** ** Signs of floats, and the digits of an [int] *)

(** A double that is zero or negative. *)
Definition nonpos (x : float) : Prop :=
  match x with
  | S754_zero _ | S754_finite true _ _ | S754_infinity true => True
  | _ => False
  end.

(** An expression that evaluates to a float that is zero or negative. *)
Definition nonpos_expr (c : expr) : Prop :=
  exists f, c = OK (PyFloat f) /\ nonpos f.

(** The entries of [bd] under the keys [ks] are zero or negative, as
    Python compares them with [0]. *)
Definition entries_nonpos (bd : dict pynum) (ks : list string) : Prop :=
  forall key, In key ks ->
    exists v, get bd key = Some v /\ leb v (PyInt 0) = true.

(** CPython 3.11 converts an [int] to [str] (also inside an f-string) only
    when it has at most 4300 decimal digits, the default of
    [sys.set_int_max_str_digits]; a longer one raises [ValueError].  [str]
    above is the conversion within that limit, and a statement about the
    text of a message or of a name is made for integers within it. *)
Definition str_digits_ok (z : Z) : Prop := Z.abs z < 10 ^ 4300.

Definition config_digits_ok (cfg : TileConfig) : Prop :=
  str_digits_ok (m cfg) /\ str_digits_ok (n cfg) /\ str_digits_ok (k cfg).

(** ** Definitions for the further properties

    Closed forms that the lemmas after the claims relate to the code: what
    a comprehension builds, the table as a function of the configurations,
    and the doubles that carry no rounding error. *)

(** A string without the separator of configuration names. *)
Fixpoint no_x (s : string) : Prop :=
  match s with
  | EmptyString => True
  | String c s' => c <> "x"%char /\ no_x s'
  end.

(** What a comprehension builds when no item raises. *)
Definition fold_set {A V : Type} (key : A -> string) (val : A -> V)
    (xs : list A) (acc : dict V) : dict V :=
  fold_left (fun d x => set d (key x) (val x)) xs acc.

(** The metrics of a configuration, and the empty dict when they raise. *)
Definition metrics_of (cfg : TileConfig) : result (dict pynum) :=
  fp8fp8_tile_metrics (m cfg) (n cfg) (k cfg).

Definition metrics_or_empty (cfg : TileConfig) : dict pynum :=
  match metrics_of cfg with
  | OK mt => mt
  | Err _ => []
  end.

(** The table of [fp8fp8_table] when every configuration has metrics. *)
Definition table_of (configs : list TileConfig) : dict (dict (option pynum)) :=
  fold_set (fun row => row)
    (fun row => fold_set name (fun cfg => get (metrics_or_empty cfg) row) configs [])
    row_order [].

(** [total_lds] of [fp8fp8_tile_metrics], on integers. *)
Definition total_lds_of (tile_m tile_n tile_k : Z) : Z :=
  tile_m * (tile_k + 16) + tile_k * tile_n
  + (tile_m * tile_k / 32 + tile_n * tile_k / 32).

(** A computation that raises nothing but [OverflowError]. *)
Definition overflow_only {A : Type} (c : result A) : Prop :=
  match c with
  | OK _ | Err OverflowError => True
  | Err _ => False
  end.

(** The double [N * 2 ^ E], for [0 < N < 2 ^ 53]: the mantissa is [N]
    shifted to 53 bits. *)
Definition dyadic (N E : Z) : float :=
  let d := Zdigits2 N in
  S754_finite false (Z.to_pos (N * 2 ^ (53 - d))) (E - (53 - d)).

(** The double of a non-negative integer below [2 ^ 53]. *)
Definition zfloat (K : Z) : float :=
  if K =? 0 then S754_zero false else dyadic K 0.

(** The sum of a list of integers. *)
Fixpoint zsum (Ns : list Z) : Z :=
  match Ns with
  | [] => 0
  | N :: Ns' => N + zsum Ns'
  end.

(** The entry of a dict under [key] is what the expression [c] evaluates
    to. *)
Definition entry_is (bd : dict pynum) (key : string) (c : expr) : Prop :=
  exists v, get bd key = Some v /\ c = OK v.

(** Two tiles of the driver of [src/gemm.py], and one that fails the
    divisibility check. *)
Definition cfg1 : TileConfig := {| m := 64; n := 256; k := 128 |}.
Definition cfg2 : TileConfig := {| m := 64; n := 512; k := 128 |}.
Definition cfg_bad : TileConfig := {| m := 64; n := 250; k := 128 |}.

(** ** Facts about shifting and rounding *)

Lemma Zdigits2_log2 (p : positive) : Zdigits2 (Zpos p) = Z.log2 (Zpos p) + 1.
Proof.
  assert (H : forall q, digits2_pos q = Pos.size q) by (induction q; simpl; congruence).
  unfold Zdigits2. rewrite H. destruct p; simpl; lia.
Qed.

Lemma Zdigits2_bounds (m : Z) :
  0 < m -> 2 ^ (Zdigits2 m - 1) <= m < 2 ^ Zdigits2 m.
Proof.
  intros Hm. destruct m as [|p|p]; try lia.
  rewrite Zdigits2_log2.
  replace (Z.log2 (Zpos p) + 1 - 1) with (Z.log2 (Zpos p)) by lia.
  pose proof (Z.log2_spec (Zpos p) Hm). unfold Z.succ in *. lia.
Qed.

Lemma Zdigits2_unique (m d : Z) :
  0 < d -> 2 ^ (d - 1) <= m < 2 ^ d -> Zdigits2 m = d.
Proof.
  intros Hd H.
  assert (0 < 2 ^ (d - 1)) by (apply Z.pow_pos_nonneg; lia).
  assert (0 < m) by lia.
  destruct m as [|p|p]; try lia.
  rewrite Zdigits2_log2.
  rewrite (Z.log2_unique (Zpos p) (d - 1)); try lia.
  unfold Z.succ. replace (d - 1 + 1) with d by lia. lia.
Qed.

Lemma Zdigits2_nonneg (m : Z) : 0 <= Zdigits2 m.
Proof. destruct m; simpl; lia. Qed.

Lemma Zdigits2_pos (m : Z) : 0 < m -> 0 < Zdigits2 m.
Proof. destruct m; simpl; lia. Qed.

Lemma shr_1_spec (m : Z) (r s : bool) :
  0 <= m ->
  shr_1 {| shr_m := m; shr_r := r; shr_s := s |} =
  {| shr_m := m / 2; shr_r := Z.odd m; shr_s := r || s |}.
Proof.
  intros Hm. rewrite <- Z.div2_div.
  destruct m as [|[p|p|]|p]; try lia; reflexivity.
Qed.

Lemma shr_state_0 (M : Z) :
  shr_state M 0 = {| shr_m := M; shr_r := false; shr_s := false |}.
Proof.
  unfold shr_state. simpl. rewrite Z.div_1_r, Z.mod_1_r. reflexivity.
Qed.

Lemma pow2_pred (n : Z) : 1 <= n -> 2 ^ n = 2 * 2 ^ (n - 1).
Proof.
  intros Hn. rewrite <- Z.pow_succ_r by lia. f_equal. lia.
Qed.

Lemma mod_pow2_split (M j : Z) :
  1 <= j ->
  M mod 2 ^ j = M mod 2 ^ (j - 1) + 2 ^ (j - 1) * ((M / 2 ^ (j - 1)) mod 2).
Proof.
  intros Hj.
  assert (Hp : 0 < 2 ^ (j - 1)) by (apply Z.pow_pos_nonneg; lia).
  rewrite (pow2_pred j), Z.mul_comm by lia.
  apply Z.rem_mul_r; lia.
Qed.

Lemma sticky_step (M j : Z) :
  0 <= j ->
  ((0 <? j) && Z.odd (M / 2 ^ (j - 1))) || negb (M mod 2 ^ Z.max 0 (j - 1) =? 0)
  = negb (M mod 2 ^ j =? 0).
Proof.
  intros Hj. destruct (Z.eq_dec j 0) as [->|Hj0].
  - simpl. rewrite Z.mod_1_r. reflexivity.
  - replace (0 <? j) with true by (symmetry; apply Z.ltb_lt; lia).
    rewrite Z.max_r by lia. simpl andb.
    rewrite (mod_pow2_split M j) by lia.
    assert (Hp : 0 < 2 ^ (j - 1)) by (apply Z.pow_pos_nonneg; lia).
    set (t := M mod 2 ^ (j - 1)). set (u := M / 2 ^ (j - 1)).
    assert (Ht : 0 <= t < 2 ^ (j - 1)) by (apply Z.mod_pos_bound; lia).
    rewrite (Zmod_odd u).
    destruct (Z.odd u); simpl orb;
      destruct (Z.eqb_spec t 0) as [E'|E'];
      match goal with |- context [?x =? 0] => destruct (Z.eqb_spec x 0) end;
      simpl; try reflexivity; nia.
Qed.

Lemma shr_state_step (M j : Z) :
  0 <= M -> 0 <= j -> shr_1 (shr_state M j) = shr_state M (j + 1).
Proof.
  intros HM Hj. unfold shr_state.
  assert (Hpj : 0 < 2 ^ j) by (apply Z.pow_pos_nonneg; lia).
  rewrite shr_1_spec by (apply Z.div_pos; lia).
  replace (j + 1 - 1) with j by lia.
  rewrite (Z.max_r 0 j) by lia.
  rewrite sticky_step by lia.
  replace (0 <? j + 1) with true by (symmetry; apply Z.ltb_lt; lia).
  rewrite Z.pow_add_r by lia. change (2 ^ 1) with 2.
  rewrite <- Z.div_div by lia.
  reflexivity.
Qed.

Lemma shr_state_iter (M : Z) (p : positive) :
  0 <= M -> forall j, 0 <= j ->
  iter_pos shr_1 p (shr_state M j) = shr_state M (j + Zpos p).
Proof.
  intros HM. induction p as [p IH|p IH|]; intros j Hj; cbn [iter_pos].
  - rewrite shr_state_step, IH, IH by lia. f_equal. lia.
  - rewrite IH, IH by lia. f_equal. lia.
  - apply shr_state_step; assumption.
Qed.

Lemma shr_exact (M e n : Z) :
  0 <= M -> 0 <= n ->
  shr (shr_record_of_loc M loc_Exact) e n = (shr_state M n, e + n).
Proof.
  intros HM Hn. simpl shr_record_of_loc. rewrite <- shr_state_0.
  destruct n as [|p|p]; try lia.
  - simpl. rewrite Z.add_0_r. reflexivity.
  - unfold shr. rewrite shr_state_iter by lia. reflexivity.
Qed.

Lemma fexp64 (x : Z) : fexp 53 1024 x = Z.max (x - 53) (-1074).
Proof. reflexivity. Qed.

Lemma rne_0 (M : Z) : rne M 0 = M.
Proof. unfold rne. rewrite shr_state_0. reflexivity. Qed.

Lemma rne_cases (M n : Z) :
  1 <= n ->
  rne M n =
  if Z.odd (M / 2 ^ (n - 1))
  then if (M mod 2 ^ (n - 1) =? 0) && Z.even (M / 2 ^ n)
       then M / 2 ^ n else M / 2 ^ n + 1
  else M / 2 ^ n.
Proof.
  intros Hn. unfold rne, shr_state; simpl shr_m.
  replace (0 <? n) with true by (symmetry; apply Z.ltb_lt; lia).
  rewrite Z.max_r by lia. simpl andb.
  destruct (Z.odd (M / 2 ^ (n - 1))), (M mod 2 ^ (n - 1) =? 0);
    simpl; try reflexivity;
    destruct (Z.even (M / 2 ^ n)); reflexivity.
Qed.

Lemma rne_bounds (M n : Z) :
  0 <= n -> M / 2 ^ n <= rne M n <= M / 2 ^ n + 1.
Proof.
  intros Hn. destruct (Z.eq_dec n 0) as [->|Hn0].
  - rewrite rne_0. simpl. rewrite Z.div_1_r. lia.
  - rewrite rne_cases by lia.
    destruct (Z.odd _); [destruct (_ && _)|]; lia.
Qed.

(** The pieces of [M] that the rounding looks at. *)
Lemma rne_split (M n : Z) :
  1 <= n ->
  let h := 2 ^ (n - 1) in
  let q := M / 2 ^ n in
  let b := if Z.odd (M / h) then 1 else 0 in
  let t := M mod h in
  0 < h /\ 0 <= t < h /\ M = (2 * q + b) * h + t.
Proof.
  intros Hn h q b t.
  assert (Hh : 0 < h) by (apply Z.pow_pos_nonneg; lia).
  split; [assumption|]. split; [apply Z.mod_pos_bound; lia|].
  assert (Hq : q = (M / h) / 2).
  { unfold q. rewrite Z.div_div by lia. f_equal.
    unfold h. rewrite (pow2_pred n) by lia. lia. }
  pose proof (Z.div_mod M h ltac:(lia)) as H1.
  pose proof (Z.div_mod (M / h) 2 ltac:(lia)) as H2.
  rewrite (Zmod_odd (M / h)) in H2. fold b in H2.
  unfold t. rewrite Hq. nia.
Qed.

Lemma rne_mono (M1 M2 n : Z) :
  0 <= n -> M1 <= M2 -> rne M1 n <= rne M2 n.
Proof.
  intros Hn HM. destruct (Z.eq_dec n 0) as [->|Hn0].
  - rewrite !rne_0. lia.
  - destruct (rne_split M1 n ltac:(lia)) as (Hh & Ht1 & E1).
    destruct (rne_split M2 n ltac:(lia)) as (_ & Ht2 & E2).
    rewrite !rne_cases by lia.
    set (h := 2 ^ (n - 1)) in *.
    set (q1 := M1 / 2 ^ n) in *. set (q2 := M2 / 2 ^ n) in *.
    set (t1 := M1 mod h) in *. set (t2 := M2 mod h) in *.
    assert (Hq : q1 < q2 \/ q1 = q2) by
      (destruct (Z.odd (M1 / h)), (Z.odd (M2 / h)); nia).
    destruct Hq as [Hq|Hq].
    + destruct (Z.odd (M1 / h)); [destruct (_ && _)|];
        (destruct (Z.odd (M2 / h)); [destruct (_ && _)|]); lia.
    + rewrite <- Hq in *.
      destruct (Z.odd (M1 / h)) eqn:O1, (Z.odd (M2 / h)) eqn:O2; try lia.
      * destruct (Z.eqb_spec t1 0), (Z.eqb_spec t2 0); simpl;
          destruct (Z.even q1); simpl; try lia; nia.
      * destruct (_ && _); lia.
Qed.

Lemma shr_fexp_exact (M E : Z) :
  0 <= M ->
  shr_fexp 53 1024 M E loc_Exact =
  let n := Z.max 0 (fexp 53 1024 (Zdigits2 M + E) - E) in
  (shr_state M n, E + n).
Proof.
  intros HM. unfold shr_fexp. cbv zeta.
  destruct (Z.max_spec 0 (fexp 53 1024 (Zdigits2 M + E) - E)) as [[H ->]|[H ->]].
  - apply shr_exact; lia.
  - destruct (fexp 53 1024 (Zdigits2 M + E) - E) as [|p|p] eqn:En; try lia.
    + rewrite shr_state_0, Z.add_0_r. reflexivity.
    + rewrite shr_state_0, Z.add_0_r. reflexivity.
Qed.

Lemma pow2_53 : 2 ^ 53 = 9007199254740992.
Proof. reflexivity. Qed.
Lemma pow2_52 : 2 ^ 52 = 4503599627370496.
Proof. reflexivity. Qed.

Lemma top_bits (M d : Z) :
  53 <= d -> 2 ^ (d - 1) <= M < 2 ^ d ->
  2 ^ 52 <= M / 2 ^ (d - 53) < 2 ^ 53.
Proof.
  intros Hd HM.
  assert (Hp : 0 < 2 ^ (d - 53)) by (apply Z.pow_pos_nonneg; lia).
  assert (E1 : 2 ^ (d - 1) = 2 ^ (d - 53) * 2 ^ 52)
    by (rewrite <- Z.pow_add_r by lia; f_equal; lia).
  assert (E2 : 2 ^ d = 2 ^ (d - 53) * 2 ^ 53)
    by (rewrite <- Z.pow_add_r by lia; f_equal; lia).
  split.
  - apply Z.div_le_lower_bound; lia.
  - apply Z.div_lt_upper_bound; lia.
Qed.

Lemma rne_top (M : Z) :
  0 < M -> 53 <= Zdigits2 M ->
  2 ^ 52 <= rne M (Zdigits2 M - 53) <= 2 ^ 53.
Proof.
  intros HM Hd.
  pose proof (top_bits M (Zdigits2 M) Hd (Zdigits2_bounds M HM)).
  pose proof (rne_bounds M (Zdigits2 M - 53) ltac:(lia)). lia.
Qed.

Lemma match_pos {A : Type} (R : Z) (a c : A) (f : positive -> A) :
  0 < R ->
  match R with Z0 => a | Zpos m => f m | Zneg _ => c end = f (Z.to_pos R).
Proof. destruct R; intros; try lia. reflexivity. Qed.

Lemma binary_round_aux_exact (s : bool) (M E : Z) :
  0 < M -> 53 <= Zdigits2 M -> -1074 <= E + (Zdigits2 M - 53) ->
  binary_round_aux 53 1024 s M E loc_Exact = pack s (norm_round M E).
Proof.
  intros HM Hd HE. unfold binary_round_aux.
  rewrite shr_fexp_exact by lia. cbv zeta.
  rewrite fexp64.
  replace (Z.max 0 (Z.max (Zdigits2 M + E - 53) (-1074) - E))
    with (Zdigits2 M - 53) by lia.
  fold (rne M (Zdigits2 M - 53)).
  pose proof (rne_top M HM Hd) as HR.
  unfold norm_round. cbv zeta.
  set (n := Zdigits2 M - 53) in *. set (R := rne M n) in *.
  rewrite shr_fexp_exact by lia. cbv zeta. rewrite fexp64.
  destruct (Z.ltb_spec R (2 ^ 53)) as [Hlt|Hge].
  - rewrite (Zdigits2_unique R 53) by lia.
    replace (Z.max 0 (Z.max (53 + (E + n) - 53) (-1074) - (E + n))) with 0 by lia.
    rewrite shr_state_0, Z.add_0_r. cbn [shr_m].
    unfold pack. cbn [fst snd].
    rewrite pow2_52 in HR. apply match_pos. lia.
  - assert (HR53 : R = 2 ^ 53) by lia. rewrite HR53.
    rewrite (Zdigits2_unique (2 ^ 53) 54) by (rewrite ?pow2_53; cbn; lia).
    replace (Z.max 0 (Z.max (54 + (E + n) - 53) (-1074) - (E + n))) with 1 by lia.
    unfold pack. cbn [fst snd]. reflexivity.
Qed.

Lemma iter_xO (m d : positive) :
  Zpos (Pos.iter xO m d) = Zpos m * 2 ^ Zpos d.
Proof.
  induction d as [|d IH] using Pos.peano_ind.
  - simpl. lia.
  - rewrite Pos.iter_succ, Pos2Z.inj_xO, IH, Pos2Z.inj_succ.
    rewrite Z.pow_succ_r by lia. lia.
Qed.

Lemma Zdigits2_mul_pow2 (m k : Z) :
  0 < m -> 0 <= k -> Zdigits2 (m * 2 ^ k) = Zdigits2 m + k.
Proof.
  intros Hm Hk. pose proof (Zdigits2_bounds m Hm) as [H1 H2].
  pose proof (Zdigits2_pos m Hm).
  assert (Hp : 0 < 2 ^ k) by (apply Z.pow_pos_nonneg; lia).
  apply Zdigits2_unique; [lia|].
  replace (Zdigits2 m + k - 1) with (Zdigits2 m - 1 + k) by lia.
  rewrite !Z.pow_add_r by lia. nia.
Qed.

Lemma binary_round_int (s : bool) (p : positive) :
  binary_round 53 1024 s p 0 = pack s (int_round (Zpos p)).
Proof.
  unfold binary_round, shl_align, int_round. cbv zeta.
  change (Zpos (digits2_pos p)) with (Zdigits2 (Zpos p)).
  pose proof (Zdigits2_pos (Zpos p) ltac:(lia)) as Hd.
  rewrite fexp64, Z.add_0_r, Z.sub_0_r.
  rewrite (Z.max_l (Zdigits2 (Zpos p) - 53) (-1074)) by lia.
  destruct (Z.ltb_spec (Zdigits2 (Zpos p)) 53) as [Hlt|Hge].
  - destruct (Zdigits2 (Zpos p) - 53) as [|k|k] eqn:Ek; try lia.
    assert (Hk : Zpos k = 53 - Zdigits2 (Zpos p)) by lia.
    assert (HD : Zdigits2 (Zpos (Pos.iter xO p k)) = 53)
      by (rewrite iter_xO, Zdigits2_mul_pow2; lia).
    rewrite binary_round_aux_exact by lia.
    unfold norm_round. cbv zeta. rewrite HD. change (53 - 53) with 0.
    rewrite rne_0.
    pose proof (Zdigits2_bounds (Zpos (Pos.iter xO p k)) ltac:(lia)) as HB.
    rewrite HD in HB.
    replace (Zpos (Pos.iter xO p k) <? 2 ^ 53) with true
      by (symmetry; apply Z.ltb_lt; lia).
    rewrite iter_xO, Hk, Z.add_0_r. reflexivity.
  - destruct (Zdigits2 (Zpos p) - 53) as [|k|k] eqn:Ek; try lia;
      rewrite binary_round_aux_exact by lia; reflexivity.
Qed.

Lemma binary_normalize_int (z : Z) :
  z <> 0 ->
  binary_normalize 53 1024 z 0 false = pack (z <? 0) (int_round (Z.abs z)).
Proof.
  intros Hz. destruct z as [|p|p]; try congruence; apply binary_round_int.
Qed.

(** [int_round] yields a 53-bit mantissa, and it is monotone in the
    lexicographic order (exponent, mantissa). *)
Lemma norm_round_range (M E : Z) :
  0 < M -> 53 <= Zdigits2 M ->
  2 ^ 52 <= fst (norm_round M E) < 2 ^ 53 /\
  E + (Zdigits2 M - 53) <= snd (norm_round M E) <= E + (Zdigits2 M - 53) + 1.
Proof.
  intros HM Hd. unfold norm_round. cbv zeta.
  pose proof (rne_top M HM Hd) as HR.
  destruct (Z.ltb_spec (rne M (Zdigits2 M - 53)) (2 ^ 53)); cbn [fst snd];
    rewrite ?pow2_52, ?pow2_53 in *; lia.
Qed.

Lemma int_round_range (z : Z) :
  0 < z ->
  2 ^ 52 <= fst (int_round z) < 2 ^ 53 /\
  Zdigits2 z - 53 <= snd (int_round z) <= Z.max (Zdigits2 z - 53) 0 + 1.
Proof.
  intros Hz. unfold int_round. cbv zeta.
  destruct (Z.ltb_spec (Zdigits2 z) 53) as [Hlt|Hge]; cbn [fst snd].
  - pose proof (Zdigits2_pos z Hz).
    pose proof (Zdigits2_mul_pow2 z (53 - Zdigits2 z) Hz ltac:(lia)) as HD.
    assert (0 < 2 ^ (53 - Zdigits2 z)) by (apply Z.pow_pos_nonneg; lia).
    pose proof (Zdigits2_bounds (z * 2 ^ (53 - Zdigits2 z)) ltac:(nia)) as HB.
    rewrite HD in HB. replace (Zdigits2 z + (53 - Zdigits2 z)) with 53 in HB by lia.
    change (53 - 1) with 52 in HB. lia.
  - pose proof (norm_round_range z 0 Hz Hge). lia.
Qed.

Lemma Zdigits2_mono (a b : Z) : 0 < a -> a <= b -> Zdigits2 a <= Zdigits2 b.
Proof.
  intros Ha Hab.
  pose proof (Zdigits2_bounds a Ha) as [H1 _].
  pose proof (Zdigits2_bounds b ltac:(lia)) as [_ H2].
  pose proof (Zdigits2_pos a Ha). pose proof (Zdigits2_pos b ltac:(lia)).
  assert (HH : 2 ^ (Zdigits2 a - 1) < 2 ^ Zdigits2 b) by lia.
  apply Z.pow_lt_mono_r_iff in HH; lia.
Qed.

Lemma int_round_mono (z1 z2 : Z) :
  0 < z1 -> z1 <= z2 -> lex_le (int_round z1) (int_round z2).
Proof.
  intros H1 H12. assert (H2 : 0 < z2) by lia.
  pose proof (Zdigits2_mono z1 z2 H1 H12) as Hd.
  pose proof (int_round_range z1 H1) as [R1 X1].
  pose proof (int_round_range z2 H2) as [R2 X2].
  unfold lex_le. revert R1 X1 R2 X2. unfold int_round. cbv zeta.
  destruct (Z.ltb_spec (Zdigits2 z1) 53) as [L1|G1];
    destruct (Z.ltb_spec (Zdigits2 z2) 53) as [L2|G2]; cbn [fst snd];
    intros R1 X1 R2 X2; try lia.
  - destruct (Z.eq_dec (Zdigits2 z1) (Zdigits2 z2)) as [E|E]; [|lia].
    right. split; [lia|]. rewrite E.
    pose proof (Zdigits2_pos z2 H2).
    assert (0 < 2 ^ (53 - Zdigits2 z2)) by (apply Z.pow_pos_nonneg; lia). nia.
  - revert R1 X1 R2 X2. unfold norm_round. cbv zeta.
    pose proof (rne_top z1 H1 G1) as T1. pose proof (rne_top z2 H2 G2) as T2.
    destruct (Z.eq_dec (Zdigits2 z1) (Zdigits2 z2)) as [E|E].
    + rewrite E in *.
      pose proof (rne_mono z1 z2 (Zdigits2 z2 - 53) ltac:(lia) H12) as HR.
      destruct (Z.ltb_spec (rne z1 (Zdigits2 z2 - 53)) (2 ^ 53));
        destruct (Z.ltb_spec (rne z2 (Zdigits2 z2 - 53)) (2 ^ 53));
        cbn [fst snd]; rewrite ?pow2_52, ?pow2_53 in *; lia.
    + destruct (Z.ltb_spec (rne z1 (Zdigits2 z1 - 53)) (2 ^ 53));
        destruct (Z.ltb_spec (rne z2 (Zdigits2 z2 - 53)) (2 ^ 53));
        cbn [fst snd]; rewrite ?pow2_52, ?pow2_53 in *; lia.
Qed.

Lemma div_eucl_div_mod (a b : Z) : Z.div_eucl a b = (a / b, a mod b).
Proof. unfold Z.div, Z.modulo. destruct (Z.div_eucl a b); reflexivity. Qed.

(** Dividing a normal number by [2 ^ k] only moves its exponent. *)
Lemma fdiv_pow2 (s : bool) (m : positive) (e k : Z) :
  Zdigits2 (Zpos m) = 53 -> -1073 <= e - k <= 971 ->
  fdiv (S754_finite s m e) (S754_finite false 4503599627370496 (k - 52))
  = S754_finite s m (e - k).
Proof.
  intros Hd He. unfold fdiv, SFdiv, SFdiv_core_binary. cbv zeta.
  rewrite Hd.
  change (Zdigits2 (Zpos 4503599627370496)) with 53.
  rewrite fexp64.
  replace (Z.min (Z.max (53 + e - (53 + (k - 52)) - 53) (-1074)) (e - (k - 52)))
    with (e - k - 1) by lia.
  replace (e - (k - 52) - (e - k - 1)) with 53 by lia.
  rewrite div_eucl_div_mod.
  rewrite Z.shiftl_mul_pow2 by lia.
  replace (Zpos m * 2 ^ 53) with (2 * Zpos m * 4503599627370496) by (rewrite pow2_53; lia).
  rewrite Z.div_mul, Z.mod_mul by lia.
  change (new_location 4503599627370496 0) with loc_Exact.
  assert (HD : Zdigits2 (2 * Zpos m) = 54).
  { pose proof (Zdigits2_mul_pow2 (Zpos m) 1 ltac:(lia) ltac:(lia)) as H.
    replace (2 * Zpos m) with (Zpos m * 2 ^ 1) by lia.
    rewrite H, Hd. reflexivity. }
  rewrite binary_round_aux_exact by lia.
  unfold norm_round. cbv zeta. rewrite HD. change (54 - 53) with 1.
  rewrite rne_cases by lia. change (2 ^ (1 - 1)) with 1. change (2 ^ 1) with 2.
  rewrite Z.div_1_r, Z.odd_mul. cbn [Z.odd andb].
  rewrite Z.mul_comm, Z.div_mul by lia.
  pose proof (Zdigits2_bounds (Zpos m) ltac:(lia)) as HB. rewrite Hd in HB.
  replace (Zpos m <? 2 ^ 53) with true by (symmetry; apply Z.ltb_lt; lia).
  unfold pack. cbn [fst snd].
  replace (e - k - 1 + 1) with (e - k) by lia.
  replace (e - k <=? 971) with true by (symmetry; apply Z.leb_le; lia).
  destruct s; reflexivity.
Qed.

(** ** Integers as doubles, and the GEMM cycle count *)

Lemma float_of_int_nonzero (z : Z) :
  z <> 0 ->
  float_of_int z =
  let r := int_round (Z.abs z) in
  if snd r <=? 971 then OK (S754_finite (z <? 0) (Z.to_pos (fst r)) (snd r))
  else Err OverflowError.
Proof.
  intros Hz. unfold float_of_int. rewrite binary_normalize_int by assumption.
  unfold pack. cbv zeta. destruct (snd (int_round (Z.abs z)) <=? 971); reflexivity.
Qed.

Lemma Pa_MMA_THROUGHPUT :
  Pa.MMA_THROUGHPUT = OK (PyFloat (S754_finite false 4503599627370496 (-42))).
Proof. reflexivity. Qed.

Lemma Pa400_MMA_THROUGHPUT :
  Pa400.MMA_THROUGHPUT = OK (PyFloat (S754_finite false 4503599627370496 (-39))).
Proof. reflexivity. Qed.

Lemma Pa_gemm_int (q kv : Z) :
  Pa.gemm (PyInt q) (PyInt kv) =
  (f <- float_of_int (q * kv * 128 * 2 * 2) ;;
   OK (PyFloat (fdiv f (S754_finite false 4503599627370496 (-42))))).
Proof.
  unfold Pa.gemm. rewrite Pa_MMA_THROUGHPUT.
  cbn -[float_of_int fdiv Z.mul].
  destruct (float_of_int _); reflexivity.
Qed.

Lemma Pa400_gemm_int (q kv : Z) :
  Pa400.gemm (PyInt q) (PyInt kv) =
  (f <- float_of_int (q * kv * 128 * 2 * 2) ;;
   OK (PyFloat (fdiv f (S754_finite false 4503599627370496 (-39))))).
Proof.
  unfold Pa400.gemm. rewrite Pa400_MMA_THROUGHPUT.
  cbn -[float_of_int fdiv Z.mul].
  destruct (float_of_int _); reflexivity.
Qed.

(** An integer divided by [2 ^ k], as a closed form. *)
Lemma scaled_int (z k : Z) :
  z <> 0 -> 0 <= k <= 1000 ->
  (f <- float_of_int z ;;
   OK (PyFloat (fdiv f (S754_finite false 4503599627370496 (k - 52))))) =
  let r := int_round (Z.abs z) in
  if snd r <=? 971
  then OK (PyFloat (S754_finite (z <? 0) (Z.to_pos (fst r)) (snd r - k)))
  else Err OverflowError.
Proof.
  intros Hz Hk. rewrite float_of_int_nonzero by assumption. cbv zeta.
  pose proof (int_round_range (Z.abs z) ltac:(lia)) as [[R1 R2] [X1 X2]].
  pose proof (Zdigits2_pos (Z.abs z) ltac:(lia)).
  destruct (Z.leb_spec (snd (int_round (Z.abs z))) 971) as [Hle|Hgt];
    [|reflexivity].
  cbn [bind]. rewrite fdiv_pow2; [reflexivity| |lia].
  rewrite pow2_52 in R1.
  rewrite Z2Pos.id by lia. apply Zdigits2_unique; [lia|].
  change (53 - 1) with 52. rewrite pow2_52. lia.
Qed.

Lemma leb_finite_pos (m1 m2 : positive) (e1 e2 : Z) :
  e1 < e2 \/ (e1 = e2 /\ (m1 <= m2)%positive) ->
  leb (PyFloat (S754_finite false m1 e1)) (PyFloat (S754_finite false m2 e2))
  = true.
Proof.
  intros H. unfold leb, compare, SFcompare.
  destruct H as [H|[-> H]].
  - apply Z.compare_lt_iff in H. rewrite H. reflexivity.
  - rewrite Z.compare_refl.
    change (Pos.compare_cont Eq m1 m2) with (m1 ?= m2)%positive.
    destruct (m1 ?= m2)%positive eqn:E; try reflexivity.
    apply Pos.compare_gt_iff in E. lia.
Qed.

Lemma scaled_int_mono (z1 z2 k : Z) (g2 : pynum) :
  0 < z1 -> z1 <= z2 -> 0 <= k <= 1000 ->
  (f <- float_of_int z2 ;;
   OK (PyFloat (fdiv f (S754_finite false 4503599627370496 (k - 52))))) = OK g2 ->
  exists g1,
    (f <- float_of_int z1 ;;
     OK (PyFloat (fdiv f (S754_finite false 4503599627370496 (k - 52))))) = OK g1
    /\ leb g1 g2 = true.
Proof.
  intros H1 H12 Hk. rewrite !scaled_int by lia. cbv zeta.
  rewrite !Z.abs_eq by lia.
  pose proof (int_round_mono z1 z2 H1 H12) as HL.
  pose proof (int_round_range z1 H1) as [[A1 A2] _].
  pose proof (int_round_range z2 ltac:(lia)) as [[B1 B2] _].
  rewrite pow2_52 in A1, B1.
  replace (z1 <? 0) with false by (symmetry; apply Z.ltb_ge; lia).
  replace (z2 <? 0) with false by (symmetry; apply Z.ltb_ge; lia).
  destruct (Z.leb_spec (snd (int_round z2)) 971) as [Hle|Hgt]; [|discriminate].
  intros [= <-].
  replace (snd (int_round z1) <=? 971) with true
    by (symmetry; apply Z.leb_le; unfold lex_le in HL; lia).
  eexists. split; [reflexivity|].
  apply leb_finite_pos. unfold lex_le in HL.
  destruct HL as [HL|[HL1 HL2]]; [left; lia|right].
  split; [lia|]. lia.
Qed.

(** ** Roundings that do not overflow *)

Lemma shr_m_iter (p : positive) :
  forall mrs, 0 <= shr_m mrs ->
  shr_m (iter_pos shr_1 p mrs) = shr_m mrs / 2 ^ Zpos p.
Proof.
  assert (S1 : forall mrs, 0 <= shr_m mrs -> shr_m (shr_1 mrs) = shr_m mrs / 2).
  { intros [m r s] Hm. cbn [shr_m] in Hm. rewrite shr_1_spec by assumption. reflexivity. }
  induction p as [p IH|p IH|]; intros mrs Hm; cbn [iter_pos].
  - assert (0 <= shr_m mrs / 2) by (apply Z.div_pos; lia).
    assert (0 < 2 ^ Zpos p) by (apply Z.pow_pos_nonneg; lia).
    rewrite IH, IH, S1; rewrite ?S1; try assumption;
      [|rewrite IH, S1 by (rewrite ?S1; assumption); apply Z.div_pos; lia].
    rewrite !Z.div_div by lia. f_equal.
    replace (Zpos p~1) with (1 + Zpos p + Zpos p) by lia.
    rewrite !Z.pow_add_r by lia. change (2 ^ 1) with 2. lia.
  - assert (0 < 2 ^ Zpos p) by (apply Z.pow_pos_nonneg; lia).
    rewrite IH, IH; try assumption; [|rewrite IH by assumption; apply Z.div_pos; lia].
    rewrite !Z.div_div by lia. f_equal.
    replace (Zpos p~0) with (Zpos p + Zpos p) by lia.
    rewrite !Z.pow_add_r by lia. lia.
  - rewrite S1 by assumption. reflexivity.
Qed.

Lemma shr_fexp_m (M E : Z) (l : location) :
  0 <= M ->
  let n := Z.max 0 (fexp 53 1024 (Zdigits2 M + E) - E) in
  shr_m (fst (shr_fexp 53 1024 M E l)) = M / 2 ^ n /\
  snd (shr_fexp 53 1024 M E l) = E + n.
Proof.
  intros HM n. unfold shr_fexp, shr. subst n.
  assert (H0 : shr_m (shr_record_of_loc M l) = M) by (destruct l as [|[]]; reflexivity).
  destruct (fexp 53 1024 (Zdigits2 M + E) - E) as [|p|p]; cbn [fst snd].
  - rewrite H0. simpl. rewrite Z.div_1_r. lia.
  - rewrite shr_m_iter by lia. rewrite H0, Z.max_r by lia. split; reflexivity.
  - rewrite H0, Z.max_l by lia. simpl. rewrite Z.div_1_r. lia.
Qed.

Lemma round_nearest_even_bounds (m : Z) (l : location) :
  m <= round_nearest_even m l <= m + 1.
Proof. destruct l as [|[]]; simpl; try destruct (Z.even m); lia. Qed.

Lemma Zdigits2_le (x k : Z) : 0 <= k -> x < 2 ^ k -> 0 <= x -> Zdigits2 x <= k.
Proof.
  intros Hk Hx H0. destruct (Z.eq_dec x 0) as [->|Hn]; [simpl; lia|].
  pose proof (Zdigits2_bounds x ltac:(lia)) as [H1 _].
  pose proof (Zdigits2_pos x ltac:(lia)).
  assert (HH : 2 ^ (Zdigits2 x - 1) < 2 ^ k) by lia.
  apply Z.pow_lt_mono_r_iff in HH; lia.
Qed.

Lemma Zdigits2_succ (x : Z) : 0 <= x -> Zdigits2 (x + 1) <= Zdigits2 x + 1.
Proof.
  intros Hx. pose proof (Zdigits2_nonneg x).
  apply Zdigits2_le; try lia.
  destruct (Z.eq_dec x 0) as [->|Hn]; [simpl; lia|].
  pose proof (Zdigits2_bounds x ltac:(lia)) as [_ H2].
  rewrite Z.pow_add_r by lia. change (2 ^ 1) with 2. lia.
Qed.

Lemma Zdigits2_div_pow2 (M n : Z) :
  0 <= M -> 0 <= n -> Zdigits2 (M / 2 ^ n) <= Z.max 0 (Zdigits2 M - n).
Proof.
  intros HM Hn.
  assert (Hp : 0 < 2 ^ n) by (apply Z.pow_pos_nonneg; lia).
  assert (Hq : 0 <= M / 2 ^ n) by (apply Z.div_pos; lia).
  destruct (Z.eq_dec M 0) as [->|HM0].
  - rewrite Z.div_0_l by lia. simpl. lia.
  - pose proof (Zdigits2_bounds M ltac:(lia)) as [_ H2].
    pose proof (Zdigits2_pos M ltac:(lia)).
    destruct (Z_le_gt_dec (Zdigits2 M) n) as [Hle|Hgt].
    + assert (2 ^ Zdigits2 M <= 2 ^ n) by (apply Z.pow_le_mono_r; lia).
      rewrite Z.div_small by lia. simpl. lia.
    + rewrite Z.max_r by lia. apply Zdigits2_le; try lia.
      apply Z.div_lt_upper_bound; [lia|].
      rewrite <- Z.pow_add_r by lia. replace (n + (Zdigits2 M - n)) with (Zdigits2 M) by lia. lia.
Qed.

(** A rounding whose input is below [2 ^ 1023] does not overflow. *)
Lemma binary_round_aux_finite (s : bool) (M E : Z) (l : location) :
  0 <= M -> E <= 971 -> Zdigits2 M + E <= 1023 ->
  finite_signed s (binary_round_aux 53 1024 s M E l).
Proof.
  intros HM HE HD. unfold binary_round_aux.
  destruct (shr_fexp_m M E l HM) as [Hm1 He1].
  destruct (shr_fexp 53 1024 M E l) as [mrs' e']. cbn [fst snd] in Hm1, He1.
  set (n0 := Z.max 0 (fexp 53 1024 (Zdigits2 M + E) - E)) in *.
  set (R := round_nearest_even (shr_m mrs') (loc_of_shr_record mrs')).
  assert (Hp0 : 0 < 2 ^ n0) by (apply Z.pow_pos_nonneg; lia).
  assert (Hm' : 0 <= shr_m mrs') by (rewrite Hm1; apply Z.div_pos; lia).
  pose proof (round_nearest_even_bounds (shr_m mrs') (loc_of_shr_record mrs')) as HR.
  fold R in HR.
  destruct (shr_fexp_m R e' loc_Exact ltac:(lia)) as [Hm2 He2].
  destruct (shr_fexp 53 1024 R e' loc_Exact) as [mrs'' e'']. cbn [fst snd] in Hm2, He2.
  set (n1 := Z.max 0 (fexp 53 1024 (Zdigits2 R + e') - e')) in *.
  assert (Hp1 : 0 < 2 ^ n1) by (apply Z.pow_pos_nonneg; lia).
  assert (Hm'' : 0 <= shr_m mrs'') by (rewrite Hm2; apply Z.div_pos; lia).
  assert (HdR : Zdigits2 R + e' <= 1024).
  { assert (Zdigits2 R <= Zdigits2 (shr_m mrs') + 1).
    { destruct (Z.eq_dec R (shr_m mrs')) as [->|]; [lia|].
      replace R with (shr_m mrs' + 1) by lia. apply Zdigits2_succ; lia. }
    pose proof (Zdigits2_div_pow2 M n0 HM ltac:(lia)) as HDD. rewrite <- Hm1 in HDD.
    pose proof (Zdigits2_nonneg M).
    unfold n0 in *. rewrite fexp64 in *. lia. }
  assert (He'' : e'' <= 971).
  { rewrite He2. unfold n1, n0 in *. rewrite fexp64 in *. lia. }
  unfold finite_signed.
  destruct (shr_m mrs'') as [|m|m]; try lia.
  - left; reflexivity.
  - right. change (1024 - 53) with 971.
    replace (e'' <=? 971) with true by (symmetry; apply Z.leb_le; lia).
    eauto.
Qed.

Lemma float_of_int_returns (z : Z) :
  Z.abs z < 2 ^ 1023 ->
  exists f, float_of_int z = OK f /\ finite_signed (z <? 0) f.
Proof.
  intros Hz. destruct (Z.eq_dec z 0) as [->|Hn].
  - eexists. split; [reflexivity|left; reflexivity].
  - rewrite float_of_int_nonzero by assumption. cbv zeta.
    pose proof (int_round_range (Z.abs z) ltac:(lia)) as [_ [_ X]].
    pose proof (Zdigits2_le (Z.abs z) 1023 ltac:(lia) Hz ltac:(lia)).
    replace (snd (int_round (Z.abs z)) <=? 971) with true
      by (symmetry; apply Z.leb_le; lia).
    eexists. split; [reflexivity|]. right. eauto.
Qed.

Lemma int_truediv_returns (a b : Z) :
  b <> 0 -> Z.abs a < 2 ^ 1023 ->
  exists f, int_truediv a b = OK f /\
            finite_signed (if a =? 0 then b <? 0 else xorb (a <? 0) (b <? 0)) f.
Proof.
  intros Hb Ha. unfold int_truediv.
  replace (b =? 0) with false by (symmetry; apply Z.eqb_neq; assumption).
  destruct (Z.eqb_spec a 0) as [->|Hn].
  - eexists. split; [reflexivity|left; reflexivity].
  - unfold SFdiv_core_binary. cbv zeta.
    rewrite !Z.add_0_r, !Z.sub_0_l, div_eucl_div_mod.
    set (d := Zdigits2 (Z.abs a) - Zdigits2 (Z.abs b)).
    change (0 - 0) with 0.
    set (e' := Z.min (fexp 53 1024 d) 0).
    set (m' := match - e' with
               | 0 => Z.abs a
               | Zpos _ => Z.shiftl (Z.abs a) (- e')
               | Zneg _ => 0
               end).
    assert (He' : e' <= 0) by (unfold e'; lia).
    assert (Hm' : m' = Z.abs a * 2 ^ (- e')).
    { unfold m'.
      destruct (- e') as [|p|p] eqn:E; try lia.
      rewrite Z.shiftl_mul_pow2 by lia. reflexivity. }
    assert (Hp : 0 < 2 ^ (- e')) by (apply Z.pow_pos_nonneg; lia).
    assert (Hq0 : 0 <= m' / Z.abs b) by (apply Z.div_pos; nia).
    assert (Hq1 : m' / Z.abs b <= m').
    { apply Z.div_le_upper_bound; nia. }
    assert (HD : Zdigits2 (m' / Z.abs b) + e' <= 1023).
    { assert (Zdigits2 (m' / Z.abs b) <= 1023 - e'); [|lia].
      apply Zdigits2_le; try lia.
      replace (1023 - e') with (1023 + - e') by lia.
      rewrite Z.pow_add_r by lia. nia. }
    cbv beta iota.
    pose proof (binary_round_aux_finite (xorb (a <? 0) (b <? 0))
                  (m' / Z.abs b) e' (new_location (Z.abs b) (m' mod Z.abs b))
                  Hq0 ltac:(lia) HD) as [H|(m & e & H)];
      rewrite H; eexists; (split; [reflexivity|]); [left|right]; eauto.
Qed.

(** ** Expressions that evaluate to a float *)

Lemma is_float_pure (f : float) : is_float (pure (PyFloat f)).
Proof. eexists; reflexivity. Qed.

Lemma is_float_arith_ff iop fop (x y : expr) :
  is_float x -> is_float y -> is_float (lift2 (arith iop fop) x y).
Proof. intros [f ->] [g ->]. eexists; reflexivity. Qed.

Lemma is_float_arith_fi iop fop (x y : expr) :
  is_float x -> small_int y -> is_float (lift2 (arith iop fop) x y).
Proof.
  intros [f ->] (z & -> & Hz).
  destruct (float_of_int_returns z Hz) as (g & Hg & _).
  unfold lift2, arith, as_float. cbn [bind]. rewrite Hg. eexists; reflexivity.
Qed.

Lemma is_float_arith_if iop fop (x y : expr) :
  small_int x -> is_float y -> is_float (lift2 (arith iop fop) x y).
Proof.
  intros (z & -> & Hz) [f ->].
  destruct (float_of_int_returns z Hz) as (g & Hg & _).
  unfold lift2, arith, as_float. cbn [bind]. rewrite Hg. eexists; reflexivity.
Qed.

Lemma is_float_truediv_fi (x y : expr) :
  is_float x -> nonzero_int y -> is_float (etruediv x y).
Proof.
  intros [f ->] (z & -> & Hz0 & Hz).
  destruct (float_of_int_returns z Hz) as (g & Hg & Hs).
  unfold etruediv, lift2, truediv, as_float. cbn [bind]. rewrite Hg. cbn [bind].
  unfold float_truediv.
  assert (Hnz : is_zero g = false).
  { rewrite float_of_int_nonzero in Hg by assumption. cbv zeta in Hg.
    destruct (_ <=? _) in Hg; [|discriminate]. injection Hg as <-. reflexivity. }
  rewrite Hnz. eexists; reflexivity.
Qed.

Lemma is_float_truediv_ii (x y : expr) :
  small_int x -> nonzero_int y -> is_float (etruediv x y).
Proof.
  intros (a & -> & Ha) (b & -> & Hb0 & Hb).
  destruct (int_truediv_returns a b Hb0 Ha) as (f & Hf & _).
  unfold etruediv, lift2, truediv. cbn [bind]. rewrite Hf. eexists; reflexivity.
Qed.

Lemma small_int_lit (z : Z) : Z.abs z < 2 ^ 1023 -> small_int (OK (PyInt z)).
Proof. intros H. exists z. auto. Qed.

Lemma nonzero_int_lit (z : Z) :
  z <> 0 -> Z.abs z < 2 ^ 1023 -> nonzero_int (OK (PyInt z)).
Proof. intros H0 H. exists z. auto. Qed.

Ltac int_lit :=
  cbn -[Z.mul Z.add Z.sub Z.pow];
  first [ apply nonzero_int_lit; [lia | lia]
        | apply small_int_lit; lia ].

Ltac num :=
  lazymatch goal with
  | |- is_float (OK (PyFloat _)) => eexists; reflexivity
  | |- is_float (pure (PyFloat _)) => apply is_float_pure
  | |- is_float (etruediv _ _) =>
      first [ apply is_float_truediv_fi; [num | int_lit]
            | apply is_float_truediv_ii; [int_lit | int_lit] ]
  | |- is_float _ =>
      first [ apply is_float_arith_ff; [num | num]
            | apply is_float_arith_fi; [num | int_lit]
            | apply is_float_arith_if; [int_lit | num] ]
  end.

Ltac bind_float :=
  lazymatch goal with
  | |- context [bind ?c _] =>
      let f := fresh "f" in
      let H := fresh "H" in
      assert (H : is_float c) by num;
      destruct H as [f H]; rewrite H; cbn [bind]; clear H
  end.

Ltac floats_done :=
  eexists; split; [reflexivity|];
  repeat (constructor; [eexists; reflexivity|]); constructor.

Lemma Pa_softmax_returns (q kv : Z) (p : bool) :
  Z.abs q < 2 ^ 1000 -> Z.abs (q * kv) < 2 ^ 1000 ->
  exists bd, Pa.softmax q kv p = OK bd /\ all_floats bd.
Proof.
  intros Hq Hqkv.
  unfold Pa.softmax, Pa.EXP_ISSUE_CYCLES, Pa.WARP_SIZE, Pa.HEAD_SIZE,
    Pa.ISSUE_CYCLES.
  destruct p; repeat bind_float; floats_done.
Qed.

Lemma Pa400_softmax_returns (q kv : Z) (p : bool) :
  Z.abs q < 2 ^ 1000 -> Z.abs (q * kv) < 2 ^ 1000 ->
  exists bd, Pa400.softmax q kv p = OK bd /\ all_floats bd.
Proof.
  intros Hq Hqkv.
  unfold Pa400.softmax, Pa400.WARP_SIZE, Pa400.HEAD_SIZE, Pa400.VOP_RATE,
    Pa400.TRANS_RATE.
  destruct p; repeat bind_float; floats_done.
Qed.

Lemma Zcompare_float_0 (s : bool) (m : positive) (e : Z) :
  Zcompare_float 0 (S754_finite s m e) = Some (if s then Gt else Lt).
Proof.
  unfold Zcompare_float. f_equal.
  destruct (Z.leb_spec 0 e) as [He|He].
  - assert (0 < 2 ^ e) by (apply Z.pow_pos_nonneg; lia).
    destruct s; [apply Z.compare_gt_iff|apply Z.compare_lt_iff]; nia.
  - rewrite Z.mul_0_l. destruct s; reflexivity.
Qed.

(** The sign of the GEMM cycle count is the sign of [q * kv]. *)
Lemma scaled_int_sign (z k : Z) :
  Z.abs z < 2 ^ 1020 -> 0 <= k <= 1000 ->
  exists g,
    (f <- float_of_int z ;;
     OK (PyFloat (fdiv f (S754_finite false 4503599627370496 (k - 52))))) = OK g
    /\ (z <= 0 -> leb g (PyInt 0) = true)
    /\ (0 < z -> ltb (PyInt 0) g = true).
Proof.
  intros Hz Hk. destruct (Z.eq_dec z 0) as [->|Hn].
  - eexists. split; [reflexivity|]. split; [reflexivity|lia].
  - rewrite scaled_int by lia. cbv zeta.
    pose proof (int_round_range (Z.abs z) ltac:(lia)) as [_ [_ X]].
    pose proof (Zdigits2_le (Z.abs z) 1020 ltac:(lia) Hz ltac:(lia)).
    replace (snd (int_round (Z.abs z)) <=? 971) with true
      by (symmetry; apply Z.leb_le; lia).
    eexists. split; [reflexivity|].
    unfold leb, ltb, compare. rewrite Zcompare_float_0.
    destruct (Z.ltb_spec z 0); split; intros; try lia; reflexivity.
Qed.

(** ** [x * 3 / 4] is [0.75 * x] *)

Lemma norm_round_shift (M E k : Z) :
  norm_round M (E + k) = (fst (norm_round M E), snd (norm_round M E) + k).
Proof.
  unfold norm_round. cbv zeta.
  destruct (_ <? _); cbn [fst snd]; f_equal; lia.
Qed.

Lemma Zdigits2_ge (x k : Z) : 0 <= k -> 2 ^ k <= x -> k + 1 <= Zdigits2 x.
Proof.
  intros Hk Hx.
  assert (0 < 2 ^ k) by (apply Z.pow_pos_nonneg; lia).
  pose proof (Zdigits2_bounds x ltac:(lia)) as [_ H2].
  pose proof (Zdigits2_pos x ltac:(lia)).
  assert (HH : 2 ^ k < 2 ^ Zdigits2 x) by lia.
  apply Z.pow_lt_mono_r_iff in HH; lia.
Qed.

(** [x * 3 / 4] and [0.75 * x] round the same product. *)
Lemma three_quarters (s : bool) (m : positive) (e : Z) :
  Zdigits2 (Zpos m) = 53 -> -900 <= e <= 965 ->
  fdiv (fmul (S754_finite s m e) f3) f4 = fmul f075 (S754_finite s m e).
Proof.
  intros Hd He. unfold fmul, SFmul, f3, f075.
  pose proof (Zdigits2_bounds (Zpos m) ltac:(lia)) as HB. rewrite Hd in HB.
  change (53 - 1) with 52 in HB. rewrite pow2_52, pow2_53 in HB.
  set (M := Zpos (m * 6755399441055744)).
  assert (HM : M = Zpos m * 6755399441055744) by reflexivity.
  replace (Zpos (6755399441055744 * m)) with M by (rewrite HM; lia).
  assert (HdM : 105 <= Zdigits2 M <= 106).
  { split.
    - apply (Zdigits2_ge M 104); [lia|].
      replace (2 ^ 104) with (4503599627370496 * 4503599627370496)
        by reflexivity.
      nia.
    - apply Zdigits2_le; [lia| |lia].
      replace (2 ^ 106) with (9007199254740992 * 9007199254740992)
        by reflexivity.
      nia. }
  rewrite !binary_round_aux_exact by lia.
  replace (-53 + e) with (e + -51 + -2) by lia.
  rewrite (norm_round_shift M (e + -51) (-2)).
  pose proof (norm_round_range M (e + -51) ltac:(lia) ltac:(lia)) as [[R1 R2] [X1 X2]].
  destruct (norm_round M (e + -51)) as [R E1]. cbn [fst snd] in *.
  unfold pack. cbn [fst snd].
  replace (E1 <=? 971) with true by (symmetry; apply Z.leb_le; lia).
  replace (E1 + -2 <=? 971) with true by (symmetry; apply Z.leb_le; lia).
  unfold f4. change (-50) with (2 - 52).
  rewrite fdiv_pow2.
  - destruct s; reflexivity.
  - rewrite pow2_52, pow2_53 in *. rewrite Z2Pos.id by lia.
    apply Zdigits2_unique; [lia|]. change (53 - 1) with 52.
    rewrite pow2_52, pow2_53. lia.
  - lia.
Qed.

Lemma scaled_three_quarters (z k : Z) (g : pynum) :
  6 <= k <= 100 ->
  (f <- float_of_int z ;;
   OK (PyFloat (fdiv f (S754_finite false 4503599627370496 (k - 52))))) = OK g ->
  (g * 3 / 4)%py = (PyFloat f075 * g)%py.
Proof.
  intros Hk. destruct (Z.eq_dec z 0) as [->|Hn].
  - intros [= <-]. reflexivity.
  - rewrite scaled_int by lia. cbv zeta.
    pose proof (int_round_range (Z.abs z) ltac:(lia)) as [[R1 R2] [X1 X2]].
    pose proof (Zdigits2_pos (Z.abs z) ltac:(lia)).
    destruct (Z.leb_spec (snd (int_round (Z.abs z))) 971); [|discriminate].
    intros [= <-].
    change ((PyFloat ?x * 3 / 4)%py) with (OK (PyFloat (fdiv (fmul x f3) f4))).
    change ((PyFloat f075 * PyFloat ?x)%py) with (OK (PyFloat (fmul f075 x))).
    rewrite three_quarters; [reflexivity| |lia].
    rewrite pow2_52, pow2_53 in *. rewrite Z2Pos.id by lia.
    apply Zdigits2_unique; [lia|]. change (53 - 1) with 52.
    rewrite pow2_52, pow2_53. lia.
Qed.

(** ** The attention pipeline *)

(** Inverts a chain of binds that returned. *)
Ltac inv_bind H :=
  repeat match type of H with
         | bind ?c _ = OK _ =>
             let E := fresh "E" in
             destruct c eqn:E; cbn [bind] in H; [|discriminate H]
         end.

Lemma Pa_totals (q kv : Z) (co p : bool) (r : perf_table) :
  Pa.print_performance_table q kv co p = OK r ->
  totals_spec (Pa.gemm q kv) (Pa.softmax q kv (if co then false else p)) r.
Proof.
  unfold Pa.print_performance_table. cbv zeta. intros H.
  inv_bind H. injection H as <-. unfold totals_spec.
  cbn [softmax_metrics gemm_cycles softmax_total tot_cycles tot_cycles_coexe].
  repeat split; try assumption.
  rewrite <- E3. do 3 f_equal.
  symmetry. rewrite Pa_gemm_int in E0.
  apply (scaled_three_quarters _ 10 _ ltac:(lia) E0).
Qed.

Lemma Pa400_totals (q kv : Z) (co p : bool) (r : perf_table) :
  Pa400.print_performance_table q kv co p = OK r ->
  totals_spec (Pa400.gemm q kv)
    (Pa400.softmax q kv (if co then false else p)) r.
Proof.
  unfold Pa400.print_performance_table. cbv zeta. intros H.
  inv_bind H. injection H as <-. unfold totals_spec.
  cbn [softmax_metrics gemm_cycles softmax_total tot_cycles tot_cycles_coexe].
  repeat split; try assumption.
  rewrite <- E3. do 3 f_equal.
  symmetry. rewrite Pa400_gemm_int in E0.
  apply (scaled_three_quarters _ 13 _ ltac:(lia) E0).
Qed.

Lemma tile_product_bound (q kv : Z) :
  Z.abs q < 2 ^ 500 -> Z.abs kv < 2 ^ 500 ->
  Z.abs q < 2 ^ 1000 /\ Z.abs (q * kv) < 2 ^ 1000.
Proof.
  intros Hq Hkv. split; [lia|].
  rewrite Z.abs_mul.
  replace (2 ^ 1000) with (2 ^ 500 * 2 ^ 500) by reflexivity.
  pose proof (Z.abs_nonneg q). pose proof (Z.abs_nonneg kv).
  apply Z.mul_lt_mono_nonneg; lia.
Qed.

Lemma add_float_r (a : pynum) (x : float) :
  (exists z, a = PyInt z /\ Z.abs z < 2 ^ 1023) \/ (exists f, a = PyFloat f) ->
  exists f, add a (PyFloat x) = OK (PyFloat f).
Proof.
  intros [(z & -> & Hz)|(f & ->)].
  - destruct (float_of_int_returns z Hz) as (g & Hg & _).
    unfold add, arith, as_float. rewrite Hg. eexists; reflexivity.
  - eexists; reflexivity.
Qed.

(** The sum of a non-empty breakdown of floats is a float. *)
Lemma sum_floats (bd : dict pynum) :
  all_floats bd -> bd <> [] -> is_float (sum (values bd)).
Proof.
  intros Hall Hne. unfold sum, values.
  assert (G : forall (l : dict pynum) (a : pynum),
             all_floats l -> l <> [] ->
             (exists z, a = PyInt z /\ Z.abs z < 2 ^ 1023) \/ (exists f, a = PyFloat f) ->
             is_float (fold_left (fun acc x => a <- acc ;; add a x)
                         (map snd l) (OK a))).
  { induction l as [|[k v] l IH]; intros a Hl Hn Ha; [congruence|].
    inversion Hl as [|? ? [x Hx] Hl']; subst. cbn [snd] in Hx. subst v.
    cbn [map snd fold_left bind].
    destruct (add_float_r a x Ha) as (f & ->).
    destruct l as [|kv l'].
    - eexists; reflexivity.
    - apply IH; [assumption|discriminate|right; eauto]. }
  apply G; [assumption|assumption|left; exists 0; split; [reflexivity|reflexivity]].
Qed.

Lemma scaled_int_float (z k : Z) :
  Z.abs z < 2 ^ 1020 -> 0 <= k <= 1000 ->
  is_float (f <- float_of_int z ;;
            OK (PyFloat (fdiv f (S754_finite false 4503599627370496 (k - 52))))).
Proof.
  intros Hz Hk.
  destruct (float_of_int_returns z ltac:(lia)) as (f & Hf & _).
  rewrite Hf. eexists; reflexivity.
Qed.

Lemma softmax_nonempty_B (q kv : pynum) (p : bool) (bd : dict pynum) :
  Pa.softmax q kv p = OK bd -> bd <> [].
Proof.
  unfold Pa.softmax. cbv zeta. intros H. inv_bind H. injection H as <-. discriminate.
Qed.

Lemma softmax_nonempty_A (q kv : pynum) (p : bool) (bd : dict pynum) :
  Pa400.softmax q kv p = OK bd -> bd <> [].
Proof.
  unfold Pa400.softmax. cbv zeta. intros H. inv_bind H. injection H as <-. discriminate.
Qed.

(** The pipeline returns for all tiles of magnitude below [2 ^ 500]. *)
Lemma Pa_pipeline_returns (q kv : Z) (co p : bool) :
  Z.abs q < 2 ^ 500 -> Z.abs kv < 2 ^ 500 ->
  exists r, Pa.print_performance_table q kv co p = OK r.
Proof.
  intros Hq Hkv. destruct (tile_product_bound q kv Hq Hkv) as [Hq' Hqkv].
  unfold Pa.print_performance_table. cbv zeta.
  destruct (Pa_softmax_returns q kv (if co then false else p) Hq' Hqkv)
    as (bd & Hbd & Hfl).
  rewrite Hbd. cbn [bind].
  destruct (scaled_int_float (q * kv * 128 * 2 * 2) 10 ltac:(lia) ltac:(lia))
    as (g & Hg).
  change (10 - 52) with (-42) in Hg.
  rewrite Pa_gemm_int, Hg. cbn [bind].
  destruct (sum_floats bd Hfl (softmax_nonempty_B _ _ _ _ Hbd)) as (t & Ht).
  rewrite Ht. cbn [bind].
  repeat bind_float. eexists; reflexivity.
Qed.

Lemma Pa400_pipeline_returns (q kv : Z) (co p : bool) :
  Z.abs q < 2 ^ 500 -> Z.abs kv < 2 ^ 500 ->
  exists r, Pa400.print_performance_table q kv co p = OK r.
Proof.
  intros Hq Hkv. destruct (tile_product_bound q kv Hq Hkv) as [Hq' Hqkv].
  unfold Pa400.print_performance_table. cbv zeta.
  destruct (Pa400_softmax_returns q kv (if co then false else p) Hq' Hqkv)
    as (bd & Hbd & Hfl).
  rewrite Hbd. cbn [bind].
  destruct (scaled_int_float (q * kv * 128 * 2 * 2) 13 ltac:(lia) ltac:(lia))
    as (g & Hg).
  change (13 - 52) with (-39) in Hg.
  rewrite Pa400_gemm_int, Hg. cbn [bind].
  destruct (sum_floats bd Hfl (softmax_nonempty_A _ _ _ _ Hbd)) as (t & Ht).
  rewrite Ht. cbn [bind].
  repeat bind_float. eexists; reflexivity.
Qed.

(** ** The model on known values *)

(** [1 / 3], [0 / -1] (which is [-0.0]), a quotient beyond the largest
    double, and [float(2 ** 53 + 1)] (a tie, rounded to even). *)
Example int_truediv_values :
  int_truediv 1 3 = OK (S754_finite false 6004799503160661 (-54)) /\
  int_truediv 0 (-1) = OK (S754_zero true) /\
  int_truediv (2 ^ 1024) 1 = Err OverflowError /\
  int_truediv 1 0 = Err ZeroDivisionError /\
  float_of_int (2 ^ 53 + 1) = OK (S754_finite false 4503599627370496 1).
Proof. repeat split; vm_compute; reflexivity. Qed.

(** [7.5 // 2 = 3.0], [-7.5 // 2 = -4.0] and [8192.0 // 512 = 16.0]. *)
Example floordiv_values :
  (PyFloat (S754_finite false 8444249301319680 (-50)) // 2)%py =
    OK (PyFloat (S754_finite false 6755399441055744 (-51))) /\
  (PyFloat (S754_finite true 8444249301319680 (-50)) // 2)%py =
    OK (PyFloat (S754_finite true 4503599627370496 (-50))) /\
  (PyFloat (S754_finite false 4503599627370496 (-39)) // 512)%py =
    OK (PyFloat (S754_finite false 4503599627370496 (-48))).
Proof. repeat split; vm_compute; reflexivity. Qed.

(** The values the comments of [src/gemm.py] quote: for the tile
    [64 x 256 x 128], [A lds = 64 * (128 + 16) = 9216] and
    [B lds = 128 * 256 = 32768]; and the capacity of 320 KiB gives a
    [max lds stage] of [7.57] for it and of [4.25] for [64 x 512 x 128]. *)
Example tiles_of_the_source :
  exists metrics stage stage100 metrics' stage' stage100',
    fp8fp8_tile_metrics 64 256 128 = OK metrics /\
    get metrics "A lds" = Some (PyInt 9216) /\
    get metrics "B lds" = Some (PyInt 32768) /\
    get metrics "max lds stage" = Some stage /\
    (stage * 100)%py = OK stage100 /\
    leb (PyInt 757) stage100 = true /\ ltb stage100 (PyInt 758) = true /\
    fp8fp8_tile_metrics 64 512 128 = OK metrics' /\
    get metrics' "max lds stage" = Some stage' /\
    (stage' * 100)%py = OK stage100' /\
    leb (PyInt 425) stage100' = true /\ ltb stage100' (PyInt 426) = true.
Proof.
  do 6 eexists.
  split; [vm_compute; reflexivity|]. do 2 (split; [reflexivity|]).
  split; [reflexivity|]. split; [vm_compute; reflexivity|].
  do 2 (split; [reflexivity|]).
  split; [vm_compute; reflexivity|]. split; [reflexivity|].
  split; [vm_compute; reflexivity|]. split; reflexivity.
Qed.

(** The two calls of the driver of [src/pa.py] and the first of
    [src/400/pa.py]: GEMM cycles [1536.0], [768.0] and [128.0]. *)
Example driver_calls :
  (exists r, Pa.print_performance_table 48 64 false false = OK r /\
             gemm_cycles r = PyFloat (S754_finite false 6755399441055744 (-42))) /\
  (exists r, Pa.print_performance_table 48 32 true false = OK r /\
             gemm_cycles r = PyFloat (S754_finite false 6755399441055744 (-43))) /\
  (exists r, Pa400.print_performance_table 16 128 false true = OK r /\
             gemm_cycles r = PyFloat (S754_finite false 4503599627370496 (-45))).
Proof.
  repeat split; eexists; (split; [vm_compute; reflexivity|reflexivity]).
Qed.

(** ** The tile metrics raise [ValueError] only from their guard *)

Lemma arith_only_bind {A B : Type} (c : result A) (k : A -> result B) :
  arith_only c -> (forall a, arith_only (k a)) -> arith_only (bind c k).
Proof. destruct c as [a|[]]; cbn; auto. Qed.

Lemma arith_only_OK {A : Type} (a : A) : arith_only (OK a).
Proof. exact I. Qed.

Lemma arith_only_float_of_int (z : Z) : arith_only (float_of_int z).
Proof. unfold float_of_int. destruct (binary_normalize _ _ _ _ _); exact I. Qed.

Lemma arith_only_as_float (x : pynum) : arith_only (as_float x).
Proof. destruct x; [apply arith_only_float_of_int|exact I]. Qed.

Lemma arith_only_int_truediv (a b : Z) : arith_only (int_truediv a b).
Proof.
  unfold int_truediv. destruct (b =? 0); [exact I|].
  destruct (a =? 0); [exact I|].
  destruct (SFdiv_core_binary _ _ _ _ _ _) as [[q e] l].
  destruct (binary_round_aux _ _ _ _ _ _); exact I.
Qed.

Lemma arith_only_arith iop fop (x y : pynum) : arith_only (arith iop fop x y).
Proof.
  destruct x, y; cbn [arith]; try exact I;
    repeat (apply arith_only_bind; [apply arith_only_as_float|intros]); exact I.
Qed.

Lemma arith_only_truediv (x y : pynum) : arith_only (truediv x y).
Proof.
  assert (F : forall a b, arith_only (float_truediv a b))
    by (intros; unfold float_truediv; destruct (is_zero _); exact I).
  destruct x, y; cbn [truediv];
    repeat (apply arith_only_bind;
            [first [apply arith_only_as_float | apply arith_only_int_truediv | apply F]
            |intros]); exact I.
Qed.

Lemma arith_only_floordiv (x y : pynum) : arith_only (floordiv x y).
Proof.
  assert (F : forall a b, arith_only (float_floordiv a b)).
  { intros; unfold float_floordiv. destruct (is_zero _); [exact I|].
    cbv zeta. destruct (negb _); exact I. }
  destruct x, y; cbn [floordiv]; try (destruct (_ =? 0); exact I);
    repeat (apply arith_only_bind;
            [first [apply arith_only_as_float | apply F]|intros]); exact I.
Qed.

Lemma arith_only_lift2 op (x y : expr) :
  (forall a b, arith_only (op a b)) ->
  arith_only x -> arith_only y -> arith_only (lift2 op x y).
Proof.
  intros Hop Hx Hy. unfold lift2.
  apply arith_only_bind; [assumption|intros].
  apply arith_only_bind; [assumption|intros]. apply Hop.
Qed.

Lemma arith_only_emax (x y : expr) :
  arith_only x -> arith_only y -> arith_only (emax x y).
Proof.
  intros Hx Hy. unfold emax.
  apply arith_only_bind; [assumption|intros].
  apply arith_only_bind; [assumption|intros]. exact I.
Qed.

Ltac arith_expr :=
  repeat first
    [ apply arith_only_OK
    | apply arith_only_emax
    | apply arith_only_lift2;
      [ first [apply arith_only_arith | apply arith_only_truediv
              | apply arith_only_floordiv] | | ] ].

Lemma require_divisible_ok (x d : Z) (what : string) :
  d <> 0 -> x mod d = 0 -> _require_divisible x d what = OK tt.
Proof.
  intros Hd Hx. unfold _require_divisible, int_mod.
  replace (d =? 0) with false by (symmetry; apply Z.eqb_neq; assumption).
  cbn [bind]. rewrite Hx. reflexivity.
Qed.

Lemma require_divisible_fail (x d : Z) (what : string) :
  d <> 0 -> x mod d <> 0 ->
  _require_divisible x d what =
  Err (ValueError (what ++ " must be divisible by " ++ str d ++ ", got " ++ str x)%string).
Proof.
  intros Hd Hx. unfold _require_divisible, int_mod.
  replace (d =? 0) with false by (symmetry; apply Z.eqb_neq; assumption).
  cbn [bind].
  replace (x mod d =? 0) with false by (symmetry; apply Z.eqb_neq; assumption).
  reflexivity.
Qed.

Lemma metrics_arith_only (tile_m tile_n tile_k : Z) :
  tile_k mod 32 = 0 -> tile_n mod 16 = 0 ->
  arith_only (fp8fp8_tile_metrics tile_m tile_n tile_k).
Proof.
  intros Hk Hn. unfold fp8fp8_tile_metrics.
  rewrite !require_divisible_ok by (assumption || lia). cbn [bind]. cbv zeta.
  unfold LDS_CAP_BYTES, F8_MFMA_THROUGHPUT.
  repeat (apply arith_only_bind; [arith_expr|intros]).
  exact I.
Qed.

Lemma finite_signed_eq (s : bool) (x : float) :
  finite_signed s x -> SFcompare x x = Some Eq.
Proof.
  intros [->|(m & e & ->)]; [reflexivity|].
  unfold SFcompare. rewrite Z.compare_refl, Pos.compare_cont_refl.
  destruct s; reflexivity.
Qed.

Lemma Pa_gemm_sign (q kv : Z) :
  Z.abs (q * kv) < 2 ^ 1000 ->
  exists g, Pa.gemm q kv = OK g /\
            (q * kv <= 0 -> leb g (PyInt 0) = true) /\
            (0 < q * kv -> ltb (PyInt 0) g = true).
Proof.
  intros H. rewrite Pa_gemm_int.
  destruct (scaled_int_sign (q * kv * 128 * 2 * 2) 10 ltac:(lia) ltac:(lia))
    as (g & Hg & Hn & Hp).
  exists g. split; [exact Hg|]. split; intros; [apply Hn|apply Hp]; lia.
Qed.

Lemma Pa400_gemm_sign (q kv : Z) :
  Z.abs (q * kv) < 2 ^ 1000 ->
  exists g, Pa400.gemm q kv = OK g /\
            (q * kv <= 0 -> leb g (PyInt 0) = true) /\
            (0 < q * kv -> ltb (PyInt 0) g = true).
Proof.
  intros H. rewrite Pa400_gemm_int.
  destruct (scaled_int_sign (q * kv * 128 * 2 * 2) 13 ltac:(lia) ltac:(lia))
    as (g & Hg & Hn & Hp).
  exists g. split; [exact Hg|]. split; intros; [apply Hn|apply Hp]; lia.
Qed.

Ltac keys_of H :=
  inv_bind H; injection H as <-; reflexivity.

(** ** The sign of the attention model on non-positive tiles *)

Lemma binary_round_aux_sign (s : bool) (M E : Z) (l : location) :
  0 <= M ->
  match binary_round_aux 53 1024 s M E l with
  | S754_zero s' | S754_finite s' _ _ | S754_infinity s' => s' = s
  | S754_nan => False
  end.
Proof.
  intros HM. unfold binary_round_aux.
  destruct (shr_fexp_m M E l HM) as [Hm1 _].
  destruct (shr_fexp 53 1024 M E l) as [mrs' e']. cbn [fst snd] in Hm1.
  set (n0 := Z.max 0 (fexp 53 1024 (Zdigits2 M + E) - E)) in *.
  set (R := round_nearest_even (shr_m mrs') (loc_of_shr_record mrs')).
  assert (Hp0 : 0 < 2 ^ n0) by (apply Z.pow_pos_nonneg; lia).
  assert (Hm' : 0 <= shr_m mrs') by (rewrite Hm1; apply Z.div_pos; lia).
  pose proof (round_nearest_even_bounds (shr_m mrs') (loc_of_shr_record mrs')) as HR.
  fold R in HR.
  destruct (shr_fexp_m R e' loc_Exact ltac:(lia)) as [Hm2 _].
  destruct (shr_fexp 53 1024 R e' loc_Exact) as [mrs'' e'']. cbn [fst snd] in Hm2.
  set (n1 := Z.max 0 (fexp 53 1024 (Zdigits2 R + e') - e')) in *.
  assert (Hp1 : 0 < 2 ^ n1) by (apply Z.pow_pos_nonneg; lia).
  assert (Hm'' : 0 <= shr_m mrs'') by (rewrite Hm2; apply Z.div_pos; lia).
  destruct (shr_m mrs'') as [|m|m]; try lia; [reflexivity|].
  destruct (_ <=? _); reflexivity.
Qed.

Lemma nonpos_round (M E : Z) (l : location) :
  0 <= M -> nonpos (binary_round_aux 53 1024 true M E l).
Proof.
  intros HM. pose proof (binary_round_aux_sign true M E l HM) as H.
  destruct (binary_round_aux 53 1024 true M E l); cbn [nonpos];
    try exact I; try (subst; exact I); exact H.
Qed.

Lemma nonpos_leb (x : float) : nonpos x -> leb (PyFloat x) (PyInt 0) = true.
Proof.
  destruct x as [s|[]| |[] m e]; cbn [nonpos]; intros H; try contradiction.
  - reflexivity.
  - reflexivity.
  - unfold leb, compare. rewrite Zcompare_float_0. reflexivity.
Qed.

Lemma nonpos_fdiv (x : float) (my : positive) (ey : Z) :
  nonpos x -> nonpos (fdiv x (S754_finite false my ey)).
Proof.
  destruct x as [s|[]| |[] m e]; cbn [nonpos]; intros H; try contradiction;
    try exact I.
  unfold fdiv, SFdiv, SFdiv_core_binary. cbv zeta.
  rewrite div_eucl_div_mod. cbn [xorb].
  apply nonpos_round.
  apply Z.div_pos; [|lia].
  destruct (_ - _ - _) as [|p|p]; try lia.
  rewrite Z.shiftl_mul_pow2 by lia.
  assert (0 < 2 ^ Zpos p) by (apply Z.pow_pos_nonneg; lia). nia.
Qed.

Lemma nonpos_fmul (x : float) (my : positive) (ey : Z) :
  nonpos x -> nonpos (fmul x (S754_finite false my ey)).
Proof.
  destruct x as [s|[]| |[] m e]; cbn [nonpos]; intros H; try contradiction;
    try exact I.
  unfold fmul, SFmul. cbn [xorb]. apply nonpos_round. lia.
Qed.

Lemma nonpos_fadd (x y : float) : nonpos x -> nonpos y -> nonpos (fadd x y).
Proof.
  destruct x as [sx|[]| |[] mx ex]; cbn [nonpos]; intros Hx; try contradiction;
    destruct y as [sy|[]| |[] my ey]; cbn [nonpos]; intros Hy; try contradiction;
    try exact I.
  - destruct sx, sy; exact I.
  - unfold fadd, SFadd. cbv zeta. cbn [cond_Zopp].
    set (a := Zpos (fst (shl_align mx ex (Z.min ex ey)))).
    set (b := Zpos (fst (shl_align my ey (Z.min ex ey)))).
    assert (Ha : 0 < a) by (unfold a; lia).
    assert (Hb : 0 < b) by (unfold b; lia).
    destruct (- a + - b) as [|p|p] eqn:E; try lia.
    cbn [binary_normalize]. unfold binary_round.
    match goal with
    | |- context [shl_align p ?e ?e'] => destruct (shl_align p e e') as [mz ez]
    end.
    apply nonpos_round. lia.
Qed.

Lemma float_of_pos (b : Z) :
  0 < b < 2 ^ 1023 -> exists m e, float_of_int b = OK (S754_finite false m e).
Proof.
  intros Hb. rewrite float_of_int_nonzero by lia. cbv zeta.
  pose proof (int_round_range (Z.abs b) ltac:(lia)) as [_ [_ X]].
  pose proof (Zdigits2_le (Z.abs b) 1023 ltac:(lia) ltac:(lia) ltac:(lia)).
  replace (snd (int_round (Z.abs b)) <=? 971) with true
    by (symmetry; apply Z.leb_le; lia).
  replace (b <? 0) with false by (symmetry; apply Z.ltb_ge; lia).
  eauto.
Qed.

Lemma np_div_ii (x y : expr) (a b : Z) :
  x = OK (PyInt a) -> y = OK (PyInt b) ->
  a <= 0 -> 0 < b -> Z.abs a < 2 ^ 1023 ->
  nonpos_expr (etruediv x y).
Proof.
  intros -> -> Ha Hb Hbound.
  unfold etruediv, lift2, truediv. cbn [bind].
  destruct (Z.eq_dec a 0) as [->|Hn].
  - unfold int_truediv.
    replace (b =? 0) with false by (symmetry; apply Z.eqb_neq; lia).
    cbn [Z.eqb bind]. eexists. split; [reflexivity|exact I].
  - destruct (int_truediv_returns a b ltac:(lia) Hbound) as (f & -> & Hs).
    replace (a =? 0) with false in Hs by (symmetry; apply Z.eqb_neq; lia).
    replace (a <? 0) with true in Hs by (symmetry; apply Z.ltb_lt; lia).
    replace (b <? 0) with false in Hs by (symmetry; apply Z.ltb_ge; lia).
    cbn [bind]. exists f. split; [reflexivity|].
    destruct Hs as [->|(m & e & ->)]; exact I.
Qed.

Lemma np_div_fi (x y : expr) (b : Z) :
  nonpos_expr x -> y = OK (PyInt b) -> 0 < b < 2 ^ 1023 ->
  nonpos_expr (etruediv x y).
Proof.
  intros (f & -> & Hf) -> Hb.
  destruct (float_of_pos b Hb) as (m & e & Hm).
  unfold etruediv, lift2, truediv, as_float. cbn [bind].
  rewrite Hm. cbn [bind]. unfold float_truediv. cbn [is_zero bind].
  eexists. split; [reflexivity|]. apply nonpos_fdiv. assumption.
Qed.

Lemma np_mul_fi (x y : expr) (b : Z) :
  nonpos_expr x -> y = OK (PyInt b) -> 0 < b < 2 ^ 1023 ->
  nonpos_expr (emul x y).
Proof.
  intros (f & -> & Hf) -> Hb.
  destruct (float_of_pos b Hb) as (m & e & Hm).
  unfold emul, lift2, mul, arith, as_float. cbn [bind].
  rewrite Hm. cbn [bind].
  eexists. split; [reflexivity|]. apply nonpos_fmul. assumption.
Qed.

Lemma np_add_ff (x y : expr) :
  nonpos_expr x -> nonpos_expr y -> nonpos_expr (eadd x y).
Proof.
  intros (f & -> & Hf) (g & -> & Hg).
  eexists. split; [reflexivity|]. apply nonpos_fadd; assumption.
Qed.

Ltac np :=
  lazymatch goal with
  | |- nonpos_expr (etruediv _ _) =>
      first [ eapply np_div_fi; [np | reflexivity | lia]
            | eapply np_div_ii; [reflexivity | reflexivity | lia | lia | lia] ]
  | |- nonpos_expr (emul _ _) => eapply np_mul_fi; [np | reflexivity | lia]
  | |- nonpos_expr (eadd _ _) => apply np_add_ff; [np | np]
  | |- nonpos_expr _ =>
      eexists; split; [reflexivity | assumption]
  end.

(** One step of a computation: its value is a float, known to be zero or
    negative where that can be shown. *)
Ltac bind_signed :=
  lazymatch goal with
  | |- context [bind ?c _] =>
      let f := fresh "f" in
      let H := fresh "H" in
      let Hn := fresh "Hn" in
      first [ assert (H : nonpos_expr c) by np;
              destruct H as (f & H & Hn); rewrite H; cbn [bind]; clear H
            | assert (H : is_float c) by num;
              destruct H as [f H]; rewrite H; cbn [bind]; clear H ]
  end.

Ltac entries :=
  let key := fresh "key" in
  let Hin := fresh "Hin" in
  intros key Hin; cbn [In] in Hin;
  repeat (destruct Hin as [<-|Hin];
          [eexists; split; [reflexivity | apply nonpos_leb; assumption]|]);
  contradiction.

Lemma Pa_softmax_signs (q kv : Z) (p : bool) :
  Z.abs q < 2 ^ 1000 -> Z.abs (q * kv) < 2 ^ 1000 ->
  exists bd,
    Pa.softmax q kv p = OK bd /\
    (q * kv <= 0 ->
       entries_nonpos bd
         ["intra_max"; "softmax_fma_exp"; "softmax_sum"; "s_quant"]) /\
    (q <= 0 -> entries_nonpos bd ["recompute_output"]).
Proof.
  intros Hq Hqkv.
  unfold Pa.softmax, Pa.EXP_ISSUE_CYCLES, Pa.WARP_SIZE, Pa.HEAD_SIZE,
    Pa.ISSUE_CYCLES. cbv zeta.
  destruct (Z_le_gt_dec (q * kv) 0) as [Hs|Hs];
    destruct (Z_le_gt_dec q 0) as [Hq0|Hq0];
    destruct p; repeat bind_signed;
    (eexists; split; [reflexivity|]; split; intros Hc; [|]; try lia; entries).
Qed.

Lemma Pa400_softmax_signs (q kv : Z) (p : bool) :
  Z.abs q < 2 ^ 1000 -> Z.abs (q * kv) < 2 ^ 1000 ->
  exists bd,
    Pa400.softmax q kv p = OK bd /\
    (q * kv <= 0 ->
       entries_nonpos bd
         ["dequant"; "intra_max"; "softmax_fma_exp"; "softmax_sum"; "s_quant"]) /\
    (q <= 0 -> entries_nonpos bd ["inter_max"; "recompute_output"]).
Proof.
  intros Hq Hqkv.
  unfold Pa400.softmax, Pa400.WARP_SIZE, Pa400.HEAD_SIZE, Pa400.VOP_RATE,
    Pa400.TRANS_RATE. cbv zeta.
  destruct (Z_le_gt_dec (q * kv) 0) as [Hs|Hs];
    destruct (Z_le_gt_dec q 0) as [Hq0|Hq0];
    destruct p; repeat bind_signed;
    (eexists; split; [reflexivity|]; split; intros Hc; [|]; try lia; entries).
Qed.

(** ** The claims *)

(** C1.  For every query tile [q], key/value tile [kv], co-execution flag
    and packed flag, whenever the pipeline of either generation
    ([src/pa.py], [src/400/pa.py]) returns, its GEMM cycles are
    [gemm(q, kv)], its breakdown is [softmax(q, kv, is_packed)] (with
    [is_packed] forced off under co-execution), its total is
    [gemm_cycles + sum(breakdown.values())], and its co-execution total is
    [gemm_cycles + (sum(breakdown.values()) - gemm_cycles * 3 / 4) / 2],
    the same double as
    [gemm_cycles + (sum(breakdown.values()) - 0.75 * gemm_cycles) / 2].
    The value of the formula is what is reported: no floor is applied.
    For tiles of magnitude below [2 ^ 500] the pipeline does return. *)
Theorem attention_totals :
  forall (q kv : Z) (co_exe is_packed : bool),
    (forall r, Pa.print_performance_table q kv co_exe is_packed = OK r ->
       totals_spec (Pa.gemm q kv)
         (Pa.softmax q kv (if co_exe then false else is_packed)) r) /\
    (forall r, Pa400.print_performance_table q kv co_exe is_packed = OK r ->
       totals_spec (Pa400.gemm q kv)
         (Pa400.softmax q kv (if co_exe then false else is_packed)) r) /\
    (Z.abs q < 2 ^ 500 -> Z.abs kv < 2 ^ 500 ->
       (exists r, Pa.print_performance_table q kv co_exe is_packed = OK r) /\
       (exists r, Pa400.print_performance_table q kv co_exe is_packed = OK r)).
Proof.
  intros q kv co p. split; [|split].
  - intros r H. apply Pa_totals; assumption.
  - intros r H. apply Pa400_totals; assumption.
  - intros Hq Hkv. split.
    + apply Pa_pipeline_returns; assumption.
    + apply Pa400_pipeline_returns; assumption.
Qed.

(** C1 on the first call of each driver's kind: [(48, 64)] in [src/pa.py],
    [(16, 128)] under co-execution in [src/400/pa.py]. *)
Lemma attention_totals_witness :
  (exists r, Pa.print_performance_table 48 64 false false = OK r /\
     totals_spec (Pa.gemm 48 64) (Pa.softmax 48 64 false) r) /\
  (exists r, Pa400.print_performance_table 16 128 true true = OK r /\
     totals_spec (Pa400.gemm 16 128) (Pa400.softmax 16 128 false) r).
Proof.
  split.
  - eexists. split; [vm_compute; reflexivity|].
    apply (proj1 (attention_totals 48 64 false false)). vm_compute; reflexivity.
  - eexists. split; [vm_compute; reflexivity|].
    apply (proj1 (proj2 (attention_totals 16 128 true true))).
    vm_compute; reflexivity.
Defined.

(** The co-execution total can lie below the cost of a single stage: for
    [q = kv = 1] in [src/pa.py] it is below [inter_max]. *)
Example coexe_total_below_a_stage :
  exists r inter_max,
    Pa.print_performance_table 1 1 true false = OK r /\
    get (softmax_metrics r) "inter_max" = Some inter_max /\
    ltb (tot_cycles_coexe r) inter_max = true.
Proof.
  do 2 eexists. split; [vm_compute; reflexivity|]. split; reflexivity.
Qed.

(** C2.  The divisibility guard of the GEMM tile metrics.  When [tile_k]
    is not divisible by 32 the function raises the [ValueError] of
    [_require_divisible] (the configuration error of the specification) for
    [tile_k]; when [tile_k] is but [tile_n] is not divisible by 16 it raises
    the one for [tile_n]; in both cases the result is the exception alone,
    no metric.  For all other inputs both checks return and the function
    raises no [ValueError] at all. *)
Theorem divisibility_guard :
  forall tile_m tile_n tile_k : Z,
    (tile_k mod 32 <> 0 ->
       fp8fp8_tile_metrics tile_m tile_n tile_k =
       Err (ValueError ("tile_k must be divisible by 32, got " ++ str tile_k))) /\
    (tile_k mod 32 = 0 -> tile_n mod 16 <> 0 ->
       fp8fp8_tile_metrics tile_m tile_n tile_k =
       Err (ValueError ("tile_n must be divisible by 16, got " ++ str tile_n))) /\
    (tile_k mod 32 = 0 -> tile_n mod 16 = 0 ->
       _require_divisible tile_k 32 "tile_k" = OK tt /\
       _require_divisible tile_n 16 "tile_n" = OK tt /\
       forall msg, fp8fp8_tile_metrics tile_m tile_n tile_k <> Err (ValueError msg)).
Proof.
  intros tile_m tile_n tile_k. split; [|split].
  - intros Hk. unfold fp8fp8_tile_metrics.
    rewrite require_divisible_fail by (assumption || lia). reflexivity.
  - intros Hk Hn. unfold fp8fp8_tile_metrics.
    rewrite require_divisible_ok by (assumption || lia). cbn [bind].
    rewrite require_divisible_fail by (assumption || lia). reflexivity.
  - intros Hk Hn. split; [|split].
    + apply require_divisible_ok; [lia|assumption].
    + apply require_divisible_ok; [lia|assumption].
    + intros msg E. pose proof (metrics_arith_only tile_m tile_n tile_k Hk Hn) as H.
      rewrite E in H. exact H.
Qed.

(** C2 on [tile_k = 100], on [tile_n = 250], and on the tile
    [64 x 256 x 128] of the driver. *)
Lemma divisibility_guard_witness :
  fp8fp8_tile_metrics 64 256 100 =
    Err (ValueError "tile_k must be divisible by 32, got 100") /\
  fp8fp8_tile_metrics 64 250 128 =
    Err (ValueError "tile_n must be divisible by 16, got 250") /\
  (_require_divisible 128 32 "tile_k" = OK tt /\
   _require_divisible 256 16 "tile_n" = OK tt /\
   forall msg, fp8fp8_tile_metrics 64 256 128 <> Err (ValueError msg)).
Proof.
  split; [|split].
  - apply (proj1 (divisibility_guard 64 256 100)). discriminate.
  - apply (proj1 (proj2 (divisibility_guard 64 250 128))).
    + reflexivity.
    + discriminate.
  - apply (proj2 (proj2 (divisibility_guard 64 256 128))); reflexivity.
Defined.

(** C3, refuted.  In [src/pa.py] there are no [q] and [kv] for which the
    pipeline under co-execution distinguishes [is_packed=True] from
    [is_packed=False]: the function starts with
    [if co_exe: is_packed = False], as [src/400/pa.py] does. *)
Lemma pa_packed_flag_ignored_under_coexe :
  ~ (exists q kv : Z,
       Pa.print_performance_table q kv true true <>
       Pa.print_performance_table q kv true false).
Proof. intros (q & kv & H). apply H. reflexivity. Qed.

(** C3, as amended.  The generation-B pipeline ([src/pa.py]) has the same
    override as generation A: for every [q], [kv] and packed flag, the
    result under co-execution is that of [is_packed=False] under
    co-execution.  The packed flag does change the result when co-execution
    is not requested. *)
Theorem pa_coexe_forces_unpacked :
  (forall (q kv : Z) (is_packed : bool),
     Pa.print_performance_table q kv true is_packed =
     Pa.print_performance_table q kv true false) /\
  (exists q kv : Z,
     Pa.print_performance_table q kv false true <>
     Pa.print_performance_table q kv false false).
Proof.
  split.
  - intros q kv p. reflexivity.
  - exists 48, 64. vm_compute. discriminate.
Qed.

(** C4.  In the generation-A pipeline ([src/400/pa.py]), for every [q] and
    [kv], invoking it with [is_packed=True] under co-execution gives exactly
    the result (breakdown and totals) of [is_packed=False] under
    co-execution.  The packed flag does change the result when co-execution
    is not requested, so the override is not vacuous. *)
Theorem pa400_coexe_forces_unpacked :
  (forall (q kv : Z) (is_packed : bool),
     Pa400.print_performance_table q kv true is_packed =
     Pa400.print_performance_table q kv true false) /\
  (exists q kv : Z,
     Pa400.print_performance_table q kv false true <>
     Pa400.print_performance_table q kv false false).
Proof.
  split.
  - intros q kv p. reflexivity.
  - exists 16, 128. vm_compute. discriminate.
Qed.

(** C5.  For every tile configuration with [tile_k] divisible by 32 and
    [tile_n] divisible by 16 on which the function returns, the returned
    metrics hold integers under [A lds], [B lds], [scale] and [Total lds]
    with [Total lds = A lds + B lds + scale], and [max lds stage] is the
    float [LDS_CAP_BYTES / Total lds], equal to itself as Python compares
    floats (so the two agree exactly, within any tolerance). *)
Theorem lds_total_and_stages :
  forall (tile_m tile_n tile_k : Z) (metrics : dict pynum),
    tile_k mod 32 = 0 -> tile_n mod 16 = 0 ->
    fp8fp8_tile_metrics tile_m tile_n tile_k = OK metrics ->
    exists (a_lds b_lds scale total_lds : Z) (max_lds_stage : float),
      get metrics "A lds" = Some (PyInt a_lds) /\
      get metrics "B lds" = Some (PyInt b_lds) /\
      get metrics "scale" = Some (PyInt scale) /\
      get metrics "Total lds" = Some (PyInt total_lds) /\
      get metrics "max lds stage" = Some (PyFloat max_lds_stage) /\
      total_lds = a_lds + b_lds + scale /\
      (LDS_CAP_BYTES / total_lds)%py = OK (PyFloat max_lds_stage) /\
      compare (PyFloat max_lds_stage) (PyFloat max_lds_stage) = Some Eq.
Proof.
  intros tile_m tile_n tile_k metrics Hk Hn. unfold fp8fp8_tile_metrics.
  rewrite !require_divisible_ok by (assumption || lia). cbn [bind].
  intros H. inv_bind H. injection H as <-.
  cbn -[Z.mul Z.add Z.div] in E, E0, E1, E2.
  injection E as <-. injection E0 as <-. injection E1 as <-. injection E2 as <-.
  cbn -[Z.mul Z.add Z.div] in E3. injection E3 as <-.
  cbn -[Z.mul Z.add Z.div] in E4. injection E4 as <-.
  cbn -[Z.mul Z.add Z.div int_truediv] in E17.
  inv_bind E17. injection E17 as <-.
  do 4 eexists. exists a.
  repeat split; try reflexivity.
  - cbn -[Z.mul Z.add Z.div int_truediv]. rewrite E. reflexivity.
  - cbn [compare].
    match type of E with int_truediv ?x ?y = _ =>
      destruct (Z.eq_dec y 0) as [Hz|Hz];
      [ unfold int_truediv in E; rewrite Hz in E; discriminate E
      | destruct (int_truediv_returns x y Hz ltac:(reflexivity)) as (f & Hf & Hs) ]
    end.
    rewrite E in Hf. injection Hf as <-.
    eapply finite_signed_eq; eassumption.
Qed.

(** C5 on the tile [64 x 256 x 128]. *)
Lemma lds_total_and_stages_witness :
  exists metrics,
    fp8fp8_tile_metrics 64 256 128 = OK metrics /\
    exists (a_lds b_lds scale total_lds : Z) (max_lds_stage : float),
      get metrics "A lds" = Some (PyInt a_lds) /\
      get metrics "B lds" = Some (PyInt b_lds) /\
      get metrics "scale" = Some (PyInt scale) /\
      get metrics "Total lds" = Some (PyInt total_lds) /\
      get metrics "max lds stage" = Some (PyFloat max_lds_stage) /\
      total_lds = a_lds + b_lds + scale /\
      (LDS_CAP_BYTES / total_lds)%py = OK (PyFloat max_lds_stage) /\
      compare (PyFloat max_lds_stage) (PyFloat max_lds_stage) = Some Eq.
Proof.
  eexists. split; [vm_compute; reflexivity|].
  apply (lds_total_and_stages 64 256 128); [reflexivity|reflexivity|].
  vm_compute; reflexivity.
Defined.

(** C6, refuted.  With both tiles non-positive, [q = kv = -1], [gemm]
    returns [0.5] in generation B and a positive float in generation A;
    with [q = 0] the generation-B breakdown keeps the positive [inter_max]
    of its constant latencies; and with [q = -2 ^ 1030] both [softmax]
    functions raise [OverflowError].  Further, with [q = 0] generation B
    keeps the positive [reshape_s] of its constant latency, and with
    [kv = 0] and [q = 1] the entries computed from [q] alone are positive:
    [recompute_output] in generation B, [inter_max] in generation A. *)
Lemma nonpositive_tiles_give_positive_cycles :
  Pa.gemm (-1) (-1) = OK (PyFloat fhalf) /\
  ltb (PyInt 0) (PyFloat fhalf) = true /\
  (exists g, Pa400.gemm (-1) (-1) = OK g /\ ltb (PyInt 0) g = true) /\
  (exists bd v, Pa.softmax 0 1 false = OK bd /\
                get bd "inter_max" = Some v /\ ltb (PyInt 0) v = true) /\
  Pa.softmax (- 2 ^ 1030) 1 false = Err OverflowError /\
  Pa400.softmax (- 2 ^ 1030) 1 false = Err OverflowError /\
  (exists bd v, Pa.softmax 0 1 false = OK bd /\
                get bd "reshape_s" = Some v /\ ltb (PyInt 0) v = true) /\
  (exists bd v, Pa.softmax 1 0 false = OK bd /\
                get bd "recompute_output" = Some v /\
                ltb (PyInt 0) v = true) /\
  (exists bd v, Pa400.softmax 1 0 false = OK bd /\
                get bd "inter_max" = Some v /\ ltb (PyInt 0) v = true).
Proof.
  split; [reflexivity|]. split; [reflexivity|].
  split; [|split; [|split; [|split; [|split; [|split]]]]].
  - eexists. split; reflexivity.
  - do 2 eexists. split; [vm_compute; reflexivity|]. split; reflexivity.
  - vm_compute. reflexivity.
  - vm_compute. reflexivity.
  - do 2 eexists. split; [vm_compute; reflexivity|]. split; reflexivity.
  - do 2 eexists. split; [vm_compute; reflexivity|]. split; reflexivity.
  - do 2 eexists. split; [vm_compute; reflexivity|]. split; reflexivity.
Qed.

(** C6, as amended.  For every query tile and key/value tile of magnitude
    below [2 ^ 500], non-positive ones included, neither generation raises:
    [softmax] returns a breakdown of floats and [gemm] returns a float.
    The results are zero or negative as far as the tiles make them so:
    - when [q * kv <= 0] (one tile non-positive, the other not negative),
      [gemm] and every entry computed from [q * kv] are zero or negative:
      [intra_max], [softmax_fma_exp], [softmax_sum], [s_quant] in both
      generations and [dequant] in generation A;
    - when [q <= 0], every entry computed from [q] alone is zero or
      negative: [recompute_output] in both generations and [inter_max] in
      generation A;
    - when both tiles are negative, [gemm] is positive.
    So for [q <= 0 <= kv] all of generation A and all of generation B but
    [inter_max] and [reshape_s], which start from the constant latencies
    446 and 100, are zero or negative. *)
Theorem attention_model_on_nonpositive_tiles :
  forall (q kv : Z) (is_packed : bool),
    Z.abs q < 2 ^ 500 -> Z.abs kv < 2 ^ 500 ->
    (exists bd g,
       Pa.softmax q kv is_packed = OK bd /\ all_floats bd /\
       Pa.gemm q kv = OK g /\
       (q * kv <= 0 -> leb g (PyInt 0) = true) /\
       (0 < q * kv -> ltb (PyInt 0) g = true) /\
       (q * kv <= 0 ->
          entries_nonpos bd
            ["intra_max"; "softmax_fma_exp"; "softmax_sum"; "s_quant"]) /\
       (q <= 0 -> entries_nonpos bd ["recompute_output"])) /\
    (exists bd g,
       Pa400.softmax q kv is_packed = OK bd /\ all_floats bd /\
       Pa400.gemm q kv = OK g /\
       (q * kv <= 0 -> leb g (PyInt 0) = true) /\
       (0 < q * kv -> ltb (PyInt 0) g = true) /\
       (q * kv <= 0 ->
          entries_nonpos bd
            ["dequant"; "intra_max"; "softmax_fma_exp"; "softmax_sum";
             "s_quant"]) /\
       (q <= 0 -> entries_nonpos bd ["inter_max"; "recompute_output"])).
Proof.
  intros q kv p Hq Hkv.
  destruct (tile_product_bound q kv Hq Hkv) as [Hq' Hqkv].
  split.
  - destruct (Pa_softmax_returns q kv p Hq' Hqkv) as (bd & Hbd & Hfl).
    destruct (Pa_softmax_signs q kv p Hq' Hqkv) as (bd' & Hbd' & Hs1 & Hs2).
    rewrite Hbd in Hbd'. injection Hbd' as <-.
    destruct (Pa_gemm_sign q kv Hqkv) as (g & Hg & Hn & Hp).
    exists bd, g. repeat split; assumption.
  - destruct (Pa400_softmax_returns q kv p Hq' Hqkv) as (bd & Hbd & Hfl).
    destruct (Pa400_softmax_signs q kv p Hq' Hqkv) as (bd' & Hbd' & Hs1 & Hs2).
    rewrite Hbd in Hbd'. injection Hbd' as <-.
    destruct (Pa400_gemm_sign q kv Hqkv) as (g & Hg & Hn & Hp).
    exists bd, g. repeat split; assumption.
Qed.

(** C6 as amended, on [q = -16], [kv = 128]: all of generation A and all
    of generation B but [inter_max] and [reshape_s] are zero or
    negative. *)
Lemma attention_model_on_nonpositive_tiles_witness :
  (exists bd g,
     Pa.softmax (-16) 128 true = OK bd /\ all_floats bd /\
     Pa.gemm (-16) 128 = OK g /\
     leb g (PyInt 0) = true /\
     entries_nonpos bd
       ["intra_max"; "softmax_fma_exp"; "softmax_sum"; "s_quant"] /\
     entries_nonpos bd ["recompute_output"]) /\
  (exists bd g,
     Pa400.softmax (-16) 128 true = OK bd /\ all_floats bd /\
     Pa400.gemm (-16) 128 = OK g /\
     leb g (PyInt 0) = true /\
     entries_nonpos bd
       ["dequant"; "intra_max"; "softmax_fma_exp"; "softmax_sum";
        "s_quant"] /\
     entries_nonpos bd ["inter_max"; "recompute_output"]).
Proof.
  destruct (attention_model_on_nonpositive_tiles (-16) 128 true
              ltac:(reflexivity) ltac:(reflexivity))
    as [(bd & g & H1 & H2 & H3 & H4 & _ & H5 & H6)
        (bd' & g' & H1' & H2' & H3' & H4' & _ & H5' & H6')].
  split.
  - exists bd, g. repeat split; try assumption.
    + apply H4. lia.
    + apply H5. lia.
    + apply H6. lia.
  - exists bd', g'. repeat split; try assumption.
    + apply H4'. lia.
    + apply H5'. lia.
    + apply H6'. lia.
Defined.

(** C7.  Scaling monotonicity of the attention GEMM cost, in both
    generations: for a positive [kv_tile] and positive query tiles
    [q1 <= q2], whenever [gemm(q2, kv_tile)] returns, [gemm(q1, kv_tile)]
    returns too and [gemm(q1, kv_tile) <= gemm(q2, kv_tile)] as Python
    compares the two floats. *)
Theorem gemm_monotone_in_query_tile :
  forall (kv_tile q1 q2 : Z),
    0 < kv_tile -> 0 < q1 -> q1 <= q2 ->
    (forall g2, Pa.gemm q2 kv_tile = OK g2 ->
       exists g1, Pa.gemm q1 kv_tile = OK g1 /\ leb g1 g2 = true) /\
    (forall g2, Pa400.gemm q2 kv_tile = OK g2 ->
       exists g1, Pa400.gemm q1 kv_tile = OK g1 /\ leb g1 g2 = true).
Proof.
  intros kv q1 q2 Hkv Hq1 Hq. split; intros g2;
    rewrite ?Pa_gemm_int, ?Pa400_gemm_int.
  - apply (scaled_int_mono _ _ 10); nia.
  - apply (scaled_int_mono _ _ 13); nia.
Qed.

(** C7 on [q1 = 16], [q2 = 48], [kv_tile = 64]. *)
Lemma gemm_monotone_in_query_tile_witness :
  (exists g1 g2, Pa.gemm 16 64 = OK g1 /\ Pa.gemm 48 64 = OK g2 /\
                 leb g1 g2 = true) /\
  (exists g1 g2, Pa400.gemm 16 64 = OK g1 /\ Pa400.gemm 48 64 = OK g2 /\
                 leb g1 g2 = true).
Proof.
  destruct (gemm_monotone_in_query_tile 64 16 48
              ltac:(reflexivity) ltac:(reflexivity) ltac:(discriminate))
    as [HB HA].
  assert (EB : Pa.gemm 48 64 =
               OK (PyFloat (S754_finite false 6755399441055744 (-42))))
    by (vm_compute; reflexivity).
  assert (EA : Pa400.gemm 48 64 =
               OK (PyFloat (S754_finite false 6755399441055744 (-45))))
    by (vm_compute; reflexivity).
  split.
  - destruct (HB _ EB) as (g1 & H1 & H2). exists g1. eexists. eauto.
  - destruct (HA _ EA) as (g1 & H1 & H2). exists g1. eexists. eauto.
Defined.

(** C8.  An empty sequence of configurations: [fp8fp8_table] returns
    without raising, and the table it returns has the twenty rows of
    [row_order], each with no per-configuration entry. *)
Theorem empty_config_table :
  exists table,
    fp8fp8_table [] = OK table /\
    keys table = row_order /\
    Forall (fun row_cells => snd row_cells = []) table.
Proof.
  eexists. split; [reflexivity|]. split; [reflexivity|].
  repeat constructor.
Qed.

(** C9.  The GEMM tile metrics check divisibility only.  [tile_m = 0] and
    [tile_m = -64] (with [tile_n = 256], [tile_k = 128]) pass the two
    checks, and the function returns metrics whose footprint entries are
    zero, respectively negative, instead of raising. *)
Theorem gemm_model_accepts_nonpositive_tiles :
  (128 mod 32 = 0 /\ 256 mod 16 = 0) /\
  (exists metrics,
     fp8fp8_tile_metrics 0 256 128 = OK metrics /\
     get metrics "tilem" = Some (PyInt 0) /\
     get metrics "A lds" = Some (PyInt 0) /\
     get metrics "lds a inst" = Some (PyInt 0) /\
     get metrics "compute cycles" = Some (PyFloat (S754_zero false))) /\
  (exists metrics,
     fp8fp8_tile_metrics (-64) 256 128 = OK metrics /\
     get metrics "tilem" = Some (PyInt (-64)) /\
     get metrics "A lds" = Some (PyInt (-9216)) /\
     get metrics "lds a inst" = Some (PyInt (-16)) /\
     exists c, get metrics "compute cycles" = Some (PyFloat c) /\
               ltb (PyFloat c) (PyInt 0) = true).
Proof.
  split; [repeat split|]. split.
  - eexists. split; [vm_compute; reflexivity|]. repeat split.
  - eexists. split; [vm_compute; reflexivity|]. repeat split.
    eexists. split; reflexivity.
Qed.

(** C10, refuted.  For [q = 2 ^ 1030], [kv = 1] both [softmax] functions
    raise [OverflowError] at [(qtile * kv_tile) / WARP_SIZE] and return no
    breakdown. *)
Lemma softmax_raises_on_huge_tile :
  Pa.softmax (2 ^ 1030) 1 false = Err OverflowError /\
  Pa400.softmax (2 ^ 1030) 1 false = Err OverflowError.
Proof. split; vm_compute; reflexivity. Qed.

(** C10, as amended.  Whenever [softmax] returns, its breakdown has
    exactly the seven keys of its generation, in the order of the source,
    whatever the inputs: [intra_max], [inter_max], [softmax_fma_exp],
    [softmax_sum], [s_quant], [reshape_s], [recompute_output] in
    [src/pa.py], and [dequant], [intra_max], [inter_max], [softmax_fma_exp],
    [softmax_sum], [s_quant], [recompute_output] in [src/400/pa.py].  It
    returns for all tiles of magnitude below [2 ^ 500]. *)
Theorem softmax_breakdown_keys :
  forall (q kv : Z) (is_packed : bool),
    (forall bd, Pa.softmax q kv is_packed = OK bd ->
       keys bd = ["intra_max"; "inter_max"; "softmax_fma_exp"; "softmax_sum";
                  "s_quant"; "reshape_s"; "recompute_output"]) /\
    (forall bd, Pa400.softmax q kv is_packed = OK bd ->
       keys bd = ["dequant"; "intra_max"; "inter_max"; "softmax_fma_exp";
                  "softmax_sum"; "s_quant"; "recompute_output"]) /\
    (Z.abs q < 2 ^ 500 -> Z.abs kv < 2 ^ 500 ->
       (exists bd, Pa.softmax q kv is_packed = OK bd) /\
       (exists bd, Pa400.softmax q kv is_packed = OK bd)).
Proof.
  intros q kv p. split; [|split].
  - intros bd H. unfold Pa.softmax in H. cbv zeta in H. keys_of H.
  - intros bd H. unfold Pa400.softmax in H. cbv zeta in H. keys_of H.
  - intros Hq Hkv.
    destruct (tile_product_bound q kv Hq Hkv) as [Hq' Hqkv].
    destruct (Pa_softmax_returns q kv p Hq' Hqkv) as (bd & Hbd & _).
    destruct (Pa400_softmax_returns q kv p Hq' Hqkv) as (bd' & Hbd' & _).
    eauto.
Qed.

(** C10 as amended, on [q = 48], [kv = 64]. *)
Lemma softmax_breakdown_keys_witness :
  (exists bd, Pa.softmax 48 64 true = OK bd /\
     keys bd = ["intra_max"; "inter_max"; "softmax_fma_exp"; "softmax_sum";
                "s_quant"; "reshape_s"; "recompute_output"]) /\
  (exists bd, Pa400.softmax 48 64 true = OK bd /\
     keys bd = ["dequant"; "intra_max"; "inter_max"; "softmax_fma_exp";
                "softmax_sum"; "s_quant"; "recompute_output"]).
Proof.
  destruct (softmax_breakdown_keys 48 64 true) as (HB & HA & HR).
  destruct (HR ltac:(reflexivity) ltac:(reflexivity)) as [[bd Hbd] [bd' Hbd']].
  split; [exists bd|exists bd']; (split; [assumption|]); auto.
Defined.

(** ** Further properties: dicts *)

Lemma get_set_same {V : Type} (d : dict V) (k : string) (v : V) :
  get (set d k v) k = Some v.
Proof.
  induction d as [|[k' v'] d IH]; cbn [set get].
  - rewrite String.eqb_refl. reflexivity.
  - destruct (String.eqb k' k) eqn:E; cbn [get]; rewrite E; [reflexivity|exact IH].
Qed.

Lemma get_set_other {V : Type} (d : dict V) (k k' : string) (v : V) :
  k <> k' -> get (set d k v) k' = get d k'.
Proof.
  intros Hk. induction d as [|[k0 v0] d IH]; cbn [set get].
  - replace (String.eqb k k') with false by (symmetry; apply String.eqb_neq; assumption).
    reflexivity.
  - destruct (String.eqb k0 k) eqn:E; cbn [get].
    + apply String.eqb_eq in E. subst k0.
      replace (String.eqb k k') with false by (symmetry; apply String.eqb_neq; assumption).
      reflexivity.
    + destruct (String.eqb k0 k'); [reflexivity|exact IH].
Qed.

Lemma get_In_keys {V : Type} (d : dict V) (k : string) :
  In k (keys d) <-> exists v, get d k = Some v.
Proof.
  induction d as [|[k' v'] d IH]; cbn [keys map fst get In].
  - split; [tauto|intros [v H]; discriminate].
  - destruct (String.eqb_spec k' k) as [->|Hn].
    + split; eauto.
    + fold (keys d). rewrite IH. split; [intros [H|H]; [congruence|exact H]|auto].
Qed.

Lemma keys_set {V : Type} (d : dict V) (k : string) (v : V) :
  keys (set d k v) = if existsb (String.eqb k) (keys d) then keys d else (keys d ++ [k])%list.
Proof.
  induction d as [|[k' v'] d IH]; cbn [set keys map fst existsb].
  - reflexivity.
  - rewrite (String.eqb_sym k k').
    destruct (String.eqb k' k) eqn:E; cbn [map fst orb].
    + reflexivity.
    + fold (keys (set d k v)). fold (keys d). rewrite IH.
      destruct (existsb _ _); reflexivity.
Qed.

(** ** Further properties: the tile metrics and the table *)

Lemma metrics_keys (tile_m tile_n tile_k : Z) (metrics : dict pynum) :
  fp8fp8_tile_metrics tile_m tile_n tile_k = OK metrics ->
  keys metrics = row_order.
Proof.
  unfold fp8fp8_tile_metrics. cbv zeta. intros H. inv_bind H.
  injection H as <-. reflexivity.
Qed.

(** X1.  Whenever [fp8fp8_tile_metrics] returns, the dict it returns has
    exactly the twenty keys which [fp8fp8_table] lists in [row_order], in
    the same order: the table shows every metric, drops none, and
    [cols[cfg.name].get(row)] finds a value for every row. *)
Theorem metrics_have_every_row :
  forall (tile_m tile_n tile_k : Z) (metrics : dict pynum),
    fp8fp8_tile_metrics tile_m tile_n tile_k = OK metrics ->
    keys metrics = row_order /\
    (forall row, In row row_order -> exists v, get metrics row = Some v).
Proof.
  intros tile_m tile_n tile_k metrics H.
  pose proof (metrics_keys _ _ _ _ H) as Hk.
  split; [exact Hk|].
  intros row Hrow. apply get_In_keys. rewrite Hk. exact Hrow.
Qed.

(** X1 on the tile [64 x 256 x 128]. *)
Lemma metrics_have_every_row_witness :
  exists metrics,
    fp8fp8_tile_metrics 64 256 128 = OK metrics /\
    keys metrics = row_order /\
    (forall row, In row row_order -> exists v, get metrics row = Some v).
Proof.
  eexists. split; [vm_compute; reflexivity|].
  apply (metrics_have_every_row 64 256 128). vm_compute; reflexivity.
Defined.

(** ** Configuration names *)

Lemma no_x_uint (d : Decimal.uint) : no_x (NilEmpty.string_of_uint d).
Proof. induction d; cbn; (split; [discriminate|assumption]) || exact I. Qed.

Lemma no_x_str (z : Z) : no_x (str z).
Proof.
  unfold str, NilZero.string_of_int, NilZero.string_of_uint.
  destruct (Z.to_int z) as [d|d]; destruct d; cbn;
    repeat split; try discriminate; apply no_x_uint.
Qed.

Lemma str_inj (z z' : Z) : str z = str z' -> z = z'.
Proof.
  unfold str. intros H. apply DecimalZ.to_int_inj.
  assert (P : forall y, NilZero.int_of_string (NilZero.string_of_int (Z.to_int y))
                        = Some (Z.to_int y)).
  { intros y. apply NilZero.isi; destruct y as [|p|p]; cbn; try discriminate;
      intros [= E]; revert E; apply Unsigned.to_uint_nonnil. }
  pose proof (P z) as Pz. rewrite H, P in Pz. congruence.
Qed.

(** Splitting at the first [x]. *)
Lemma split_at_x (a b r r' : string) :
  no_x a -> no_x b -> a ++ String "x" r = b ++ String "x" r' -> a = b /\ r = r'.
Proof.
  revert b. induction a as [|c a IH]; intros [|c' b] Ha Hb; cbn.
  - intros [= ->]. auto.
  - intros [= <- _]. destruct Hb as [Hb _]. congruence.
  - intros [= -> _]. destruct Ha as [Ha _]. congruence.
  - intros [= -> E]. destruct Ha as [_ Ha], Hb as [_ Hb].
    destruct (IH b Ha Hb E) as [-> ->]. auto.
Qed.

Lemma append_inj_l (a r r' : string) : a ++ r = a ++ r' -> r = r'.
Proof. induction a; cbn; [auto|intros [= E]; auto]. Qed.

Lemma name_inj (c c' : TileConfig) : name c = name c' -> c = c'.
Proof.
  destruct c as [m n k], c' as [m' n' k']. unfold name. cbn [Gemm.m Gemm.n Gemm.k].
  intros H.
  apply split_at_x in H; try apply no_x_str. destruct H as [Hm H].
  apply split_at_x in H; try apply no_x_str. destruct H as [Hn Hk].
  apply str_inj in Hm, Hn, Hk. congruence.
Qed.

(** X2.  [TileConfig.name] tells configurations apart: two configurations
    have the same name [MxNxK] exactly when they have the same [m], [n] and
    [k] (negative numbers included), so distinct configurations never share
    a key of [cols] or a column of the table. *)
Theorem config_names_distinct :
  forall c c' : TileConfig, name c = name c' <-> c = c'.
Proof.
  intros c c'. split; [apply name_inj|intros ->; reflexivity].
Qed.

(** ** Comprehensions *)

Lemma comprehension_total {A V : Type} (item : A -> result (string * V))
    (key : A -> string) (val : A -> V) (xs : list A) :
  (forall x, In x xs -> item x = OK (key x, val x)) ->
  forall acc, comprehension item xs acc = OK (fold_set key val xs acc).
Proof.
  induction xs as [|x xs IH]; intros H acc; cbn [comprehension fold_set fold_left].
  - reflexivity.
  - rewrite (H x) by (left; reflexivity). cbn [bind fst snd].
    apply IH. intros y Hy. apply H. right. exact Hy.
Qed.

Lemma comprehension_raises {A V : Type} (item : A -> result (string * V))
    (pre post : list A) (x : A) (e : exn) :
  (forall y, In y pre -> exists kv, item y = OK kv) ->
  item x = Err e ->
  forall acc, comprehension item (pre ++ x :: post) acc = Err e.
Proof.
  intros Hpre Hx. induction pre as [|y pre IH]; intros acc; cbn [app comprehension].
  - rewrite Hx. reflexivity.
  - destruct (Hpre y (or_introl eq_refl)) as [kv ->]. cbn [bind].
    apply IH. intros z Hz. apply Hpre. right. exact Hz.
Qed.

Lemma comprehension_returned {A V : Type} (item : A -> result (string * V))
    (xs : list A) :
  forall acc d, comprehension item xs acc = OK d ->
  forall x, In x xs -> exists kv, item x = OK kv.
Proof.
  induction xs as [|y xs IH]; intros acc d H x Hx; [destruct Hx|].
  cbn [comprehension] in H. destruct (item y) as [kv|e] eqn:E; [|discriminate].
  cbn [bind] in H. destruct Hx as [<-|Hx]; [eauto|].
  eapply IH; eassumption.
Qed.

Lemma get_fold_set_notin {A V : Type} (key : A -> string) (val : A -> V)
    (xs : list A) (k : string) :
  ~ In k (map key xs) ->
  forall acc, get (fold_set key val xs acc) k = get acc k.
Proof.
  induction xs as [|x xs IH]; intros Hk acc; cbn [fold_set fold_left].
  - reflexivity.
  - cbn [map In] in Hk. fold (fold_set key val xs (set acc (key x) (val x))).
    rewrite IH by tauto. apply get_set_other. tauto.
Qed.

Lemma get_fold_set_key {A V : Type} (key : A -> string) (val : A -> V)
    (xs : list A) (k : string) (v : V) :
  In k (map key xs) ->
  (forall y, In y xs -> key y = k -> val y = v) ->
  forall acc, get (fold_set key val xs acc) k = Some v.
Proof.
  induction xs as [|y xs IH]; intros Hk Hv acc; [destruct Hk|].
  cbn [fold_set fold_left]. fold (fold_set key val xs (set acc (key y) (val y))).
  destruct (in_dec string_dec k (map key xs)) as [Hin|Hnot].
  - apply IH; [exact Hin|]. intros z Hz. apply Hv. right. exact Hz.
  - rewrite get_fold_set_notin by exact Hnot.
    destruct Hk as [Hk|Hk]; [|contradiction].
    rewrite <- (Hv y (or_introl eq_refl) Hk), <- Hk. apply get_set_same.
Qed.

Lemma get_fold_set {A V : Type} (key : A -> string) (val : A -> V)
    (xs : list A) (x : A) :
  (forall y, In y xs -> key y = key x -> val y = val x) ->
  In x xs ->
  forall acc, get (fold_set key val xs acc) (key x) = Some (val x).
Proof.
  intros Hinj Hx acc. apply get_fold_set_key; [apply in_map; exact Hx|exact Hinj].
Qed.

Lemma keys_fold_set_In {A V : Type} (key : A -> string) (val : A -> V)
    (xs : list A) :
  forall acc k,
    In k (keys (fold_set key val xs acc)) <-> In k (keys acc) \/ In k (map key xs).
Proof.
  induction xs as [|x xs IH]; intros acc k; cbn [fold_set fold_left map In].
  - tauto.
  - fold (fold_set key val xs (set acc (key x) (val x))). rewrite IH.
    rewrite keys_set. destruct (existsb _ _) eqn:E.
    + apply existsb_exists in E. destruct E as (k' & Hk' & Ek).
      apply String.eqb_eq in Ek. subst k'.
      split; [intros [H|H]; auto|intros [H|[<-|H]]; auto].
    + rewrite in_app_iff. cbn [In]. tauto.
Qed.

Lemma NoDup_keys_set {V : Type} (d : dict V) (k : string) (v : V) :
  NoDup (keys d) -> NoDup (keys (set d k v)).
Proof.
  intros H. rewrite keys_set. destruct (existsb _ _) eqn:E; [exact H|].
  apply NoDup_app; [exact H|repeat constructor; intros []|].
  intros a Ha [->|[]].
  assert (existsb (String.eqb a) (keys d) = true)
    by (apply existsb_exists; exists a; split; [exact Ha|apply String.eqb_refl]).
  congruence.
Qed.

Lemma NoDup_keys_fold_set {A V : Type} (key : A -> string) (val : A -> V)
    (xs : list A) :
  forall acc, NoDup (keys acc) -> NoDup (keys (fold_set key val xs acc)).
Proof.
  induction xs as [|x xs IH]; intros acc H; cbn [fold_set fold_left].
  - exact H.
  - apply IH. apply NoDup_keys_set. exact H.
Qed.

Lemma keys_fold_set_NoDup {A V : Type} (key : A -> string) (val : A -> V)
    (xs : list A) :
  NoDup (map key xs) ->
  forall acc, (forall x, In x xs -> ~ In (key x) (keys acc)) ->
  keys (fold_set key val xs acc) = (keys acc ++ map key xs)%list.
Proof.
  induction xs as [|x xs IH]; intros Hnd acc Hacc; cbn [fold_set fold_left map].
  - rewrite app_nil_r. reflexivity.
  - inversion Hnd as [|? ? Hx Hnd']; subst.
    fold (fold_set key val xs (set acc (key x) (val x))).
    assert (E : existsb (String.eqb (key x)) (keys acc) = false).
    { destruct (existsb _ _) eqn:E; [|reflexivity].
      apply existsb_exists in E. destruct E as (k' & Hk' & Ek).
      apply String.eqb_eq in Ek. subst k'.
      exfalso. apply (Hacc x); [left; reflexivity|exact Hk']. }
    rewrite IH.
    + rewrite keys_set, E, <- app_assoc. reflexivity.
    + exact Hnd'.
    + intros y Hy. rewrite keys_set, E, in_app_iff. cbn [In].
      intros [H|[H|[]]].
      * apply (Hacc y); [right; exact Hy|exact H].
      * apply Hx. rewrite H. apply in_map. exact Hy.
Qed.

(** ** The table *)

Lemma table_closed_form (configs : list TileConfig) :
  (forall cfg, In cfg configs -> exists mt, metrics_of cfg = OK mt) ->
  fp8fp8_table configs = OK (table_of configs).
Proof.
  intros Hall. unfold fp8fp8_table.
  rewrite (comprehension_total _ name metrics_or_empty).
  2:{ intros cfg Hin. destruct (Hall cfg Hin) as [mt Hmt].
      unfold metrics_or_empty. fold (metrics_of cfg). rewrite Hmt. reflexivity. }
  cbn [bind].
  apply (comprehension_total _ (fun row => row)
           (fun row => fold_set name (fun cfg => get (metrics_or_empty cfg) row) configs [])).
  intros row _.
  rewrite (comprehension_total _ name (fun cfg => get (metrics_or_empty cfg) row)).
  - reflexivity.
  - intros cfg Hin. unfold subscript.
    rewrite get_fold_set; [reflexivity| |exact Hin].
    intros y _ Hy. apply name_inj in Hy. congruence.
Qed.

Lemma NoDup_row_order : NoDup row_order.
Proof.
  unfold row_order.
  repeat (constructor; [cbn; intuition discriminate|]). constructor.
Qed.

Lemma table_of_rows (configs : list TileConfig) :
  keys (table_of configs) = row_order.
Proof.
  unfold table_of. rewrite keys_fold_set_NoDup.
  - cbn [keys map app]. apply map_id.
  - rewrite map_id. apply NoDup_row_order.
  - intros x _ [].
Qed.

Lemma table_of_row (configs : list TileConfig) (row : string) :
  In row row_order ->
  get (table_of configs) row =
  Some (fold_set name (fun cfg => get (metrics_or_empty cfg) row) configs []).
Proof.
  intros Hrow. unfold table_of.
  apply (get_fold_set (fun row => row)
           (fun row => fold_set name (fun cfg => get (metrics_or_empty cfg) row) configs [])
           row_order row); [|exact Hrow].
  intros y _ ->. reflexivity.
Qed.

(** X3.  The shape of the table [fp8fp8_table] returns: its rows are the
    twenty names of [row_order], in that order, and every row holds one
    cell per distinct configuration name: the column names are exactly the
    names of the given configurations, none twice (a configuration given
    twice has one column). *)
Theorem table_rows_and_columns :
  forall (configs : list TileConfig) (table : dict (dict (option pynum))),
    fp8fp8_table configs = OK table ->
    keys table = row_order /\
    forall row, In row row_order ->
      exists cells,
        get table row = Some cells /\
        NoDup (keys cells) /\
        forall col, In col (keys cells) <-> exists cfg, In cfg configs /\ name cfg = col.
Proof.
  intros configs table H.
  assert (Hall : forall cfg, In cfg configs -> exists mt, metrics_of cfg = OK mt).
  { unfold fp8fp8_table in H. inv_bind H.
    intros cfg Hin. destruct (comprehension_returned _ _ _ _ E cfg Hin) as [kv Hkv].
    unfold metrics_of. destruct (fp8fp8_tile_metrics _ _ _); [eauto|discriminate]. }
  rewrite (table_closed_form configs Hall) in H. injection H as <-.
  split; [apply table_of_rows|].
  intros row Hrow. eexists. split; [apply table_of_row; exact Hrow|]. split.
  - apply NoDup_keys_fold_set. constructor.
  - intros col. rewrite keys_fold_set_In. cbn [keys map In].
    rewrite in_map_iff. split.
    + intros [[]|(cfg & Hn & Hin)]. eauto.
    + intros (cfg & Hin & Hn). right. eauto.
Qed.

(** X4.  The content of the table: whenever [fp8fp8_table] returns, the
    cell at a row of [row_order] and at the column of a given configuration
    is the value which [fp8fp8_tile_metrics] returns for that configuration
    under that row's name; no cell of the table is [None]. *)
Theorem table_cells :
  forall (configs : list TileConfig) (table : dict (dict (option pynum)))
         (cfg : TileConfig) (row : string),
    fp8fp8_table configs = OK table ->
    In cfg configs -> In row row_order ->
    exists metrics cells v,
      fp8fp8_tile_metrics (m cfg) (n cfg) (k cfg) = OK metrics /\
      get metrics row = Some v /\
      get table row = Some cells /\
      get cells (name cfg) = Some (Some v).
Proof.
  intros configs table cfg row H Hcfg Hrow.
  assert (Hall : forall cfg, In cfg configs -> exists mt, metrics_of cfg = OK mt).
  { unfold fp8fp8_table in H. inv_bind H.
    intros c Hin. destruct (comprehension_returned _ _ _ _ E c Hin) as [kv Hkv].
    unfold metrics_of. destruct (fp8fp8_tile_metrics _ _ _); [eauto|discriminate]. }
  rewrite (table_closed_form configs Hall) in H. injection H as <-.
  destruct (Hall cfg Hcfg) as [mt Hmt].
  assert (Hv : exists v, get mt row = Some v).
  { apply get_In_keys. rewrite (metrics_keys _ _ _ _ Hmt). exact Hrow. }
  destruct Hv as [v Hv].
  exists mt. eexists. exists v.
  split; [exact Hmt|]. split; [exact Hv|].
  split; [apply table_of_row; exact Hrow|].
  rewrite (get_fold_set name (fun c => get (metrics_or_empty c) row) configs cfg).
  - unfold metrics_or_empty. rewrite Hmt, Hv. reflexivity.
  - intros y _ Hy. apply name_inj in Hy. congruence.
  - exact Hcfg.
Qed.

(** X5.  [fp8fp8_table] computes the metrics in the order of the
    configurations and raises what the first failing configuration raises:
    when the metrics of every configuration before [cfg] return and those
    of [cfg] raise [e], the table raises [e], whatever follows [cfg].
    The key [cfg.name] is formatted before the metrics are computed, so
    this is stated for configurations whose fields have at most 4300
    digits; a longer field makes the name itself raise [ValueError]. *)
Theorem table_raises_first_failure :
  forall (pre post : list TileConfig) (cfg : TileConfig) (e : exn),
    (forall c, In c pre ->
       config_digits_ok c /\
       exists mt, fp8fp8_tile_metrics (m c) (n c) (k c) = OK mt) ->
    config_digits_ok cfg ->
    fp8fp8_tile_metrics (m cfg) (n cfg) (k cfg) = Err e ->
    fp8fp8_table (pre ++ cfg :: post) = Err e.
Proof.
  intros pre post cfg e Hpre _ Hcfg. unfold fp8fp8_table.
  rewrite (comprehension_raises _ pre post cfg e).
  - reflexivity.
  - intros c Hc. destruct (Hpre c Hc) as [_ [mt ->]]. eexists; reflexivity.
  - rewrite Hcfg. reflexivity.
Qed.

(** X6.  [fp8fp8_table] returns a table exactly when
    [fp8fp8_tile_metrics] returns for every configuration given: the lookups
    [cols[cfg.name]] of the table never raise [KeyError] and the table adds
    no failure of its own, also when configurations repeat. *)
Theorem table_returns_iff :
  forall configs : list TileConfig,
    (exists table, fp8fp8_table configs = OK table) <->
    (forall cfg, In cfg configs ->
       exists mt, fp8fp8_tile_metrics (m cfg) (n cfg) (k cfg) = OK mt).
Proof.
  intros configs. split.
  - intros [table H]. unfold fp8fp8_table in H. inv_bind H.
    intros c Hin. destruct (comprehension_returned _ _ _ _ E c Hin) as [kv Hkv].
    destruct (fp8fp8_tile_metrics _ _ _); [eauto|discriminate].
  - intros Hall. eexists. apply table_closed_form. exact Hall.
Qed.

(** X3 on the driver's first two tiles, the first given twice. *)
Lemma table_rows_and_columns_witness :
  exists table,
    fp8fp8_table [cfg1; cfg2; cfg1] = OK table /\
    keys table = row_order /\
    forall row, In row row_order ->
      exists cells,
        get table row = Some cells /\
        NoDup (keys cells) /\
        forall col, In col (keys cells) <->
                    exists cfg, In cfg [cfg1; cfg2; cfg1] /\ name cfg = col.
Proof.
  eexists. split; [vm_compute; reflexivity|].
  apply (table_rows_and_columns [cfg1; cfg2; cfg1]). vm_compute; reflexivity.
Defined.

(** X4 on the row [B lds] of the tile [64 x 512 x 128]. *)
Lemma table_cells_witness :
  exists table metrics cells v,
    fp8fp8_table [cfg1; cfg2] = OK table /\
    fp8fp8_tile_metrics (m cfg2) (n cfg2) (k cfg2) = OK metrics /\
    get metrics "B lds" = Some v /\
    get table "B lds" = Some cells /\
    get cells (name cfg2) = Some (Some v).
Proof.
  assert (H : fp8fp8_table [cfg1; cfg2] = OK (table_of [cfg1; cfg2]))
    by (vm_compute; reflexivity).
  destruct (table_cells [cfg1; cfg2] _ cfg2 "B lds" H)
    as (metrics & cells & v & H1 & H2 & H3 & H4).
  - right; left; reflexivity.
  - unfold row_order. cbn. tauto.
  - exists (table_of [cfg1; cfg2]), metrics, cells, v. auto.
Defined.

(** X5 on a list whose second tile has [tile_n = 250]. *)
Lemma table_raises_first_failure_witness :
  fp8fp8_table ([cfg1] ++ cfg_bad :: [cfg2]) =
  Err (ValueError "tile_n must be divisible by 16, got 250").
Proof.
  apply (table_raises_first_failure [cfg1] [cfg2] cfg_bad).
  - intros c [<-|[]]. split.
    + repeat split; vm_compute; reflexivity.
    + eexists. vm_compute. reflexivity.
  - repeat split; vm_compute; reflexivity.
  - vm_compute. reflexivity.
Defined.

(** The integer entries of the metrics, in closed form. *)
Lemma metrics_integer_entries (tile_m tile_n tile_k : Z) (metrics : dict pynum) :
  fp8fp8_tile_metrics tile_m tile_n tile_k = OK metrics ->
  tile_k mod 32 = 0 /\ tile_n mod 16 = 0 /\
  get metrics "tilem" = Some (PyInt tile_m) /\
  get metrics "tilen" = Some (PyInt tile_n) /\
  get metrics "tilek" = Some (PyInt tile_k) /\
  get metrics "A lds" = Some (PyInt (tile_m * (tile_k + 16))) /\
  get metrics "B lds" = Some (PyInt (tile_k * tile_n)) /\
  get metrics "scale" =
    Some (PyInt (tile_m * tile_k / 32 + tile_n * tile_k / 32)) /\
  get metrics "lds a inst" = Some (PyInt (tile_m * tile_k / 512)) /\
  get metrics "TDM A" = Some (PyInt tile_m) /\
  get metrics "TDM B" = Some (PyInt (tile_n * tile_k / 256)) /\
  get metrics "TDM issue time" = Some (PyInt (tile_m + tile_n * tile_k / 256)).
Proof.
  intros H.
  destruct (Z.eq_dec (tile_k mod 32) 0) as [Hk|Hk].
  2:{ unfold fp8fp8_tile_metrics in H.
      rewrite require_divisible_fail in H by (assumption || lia). discriminate. }
  destruct (Z.eq_dec (tile_n mod 16) 0) as [Hn|Hn].
  2:{ unfold fp8fp8_tile_metrics in H.
      rewrite require_divisible_ok in H by (assumption || lia). cbn [bind] in H.
      rewrite require_divisible_fail in H by (assumption || lia). discriminate. }
  split; [exact Hk|]. split; [exact Hn|].
  unfold fp8fp8_tile_metrics in H.
  rewrite !require_divisible_ok in H by (assumption || lia). cbn [bind] in H.
  inv_bind H. injection H as <-.
  cbn -[Z.mul Z.add Z.div] in E, E0, E1, E2.
  injection E as <-. injection E0 as <-. injection E1 as <-. injection E2 as <-.
  cbn -[Z.mul Z.add Z.div] in E3. injection E3 as <-.
  cbn -[Z.mul Z.add Z.div] in E6. injection E6 as <-.
  cbn -[Z.mul Z.add Z.div] in E7. injection E7 as <-.
  cbn -[Z.mul Z.add Z.div] in E8. injection E8 as <-.
  repeat split; reflexivity.
Qed.

(** X7.  Under the divisibility guard the floor divisions of the scale
    bytes and of the TDM count lose nothing: whenever the metrics return,
    [scale] is an integer with [32 * scale = (tile_m + tile_n) * tile_k]
    (although [tile_m * tile_k] and [tile_n * tile_k] are floored
    separately) and [TDM B] is an integer with
    [256 * TDM B = tile_n * tile_k], for every [tile_m]. *)
Theorem guard_makes_footprints_exact :
  forall (tile_m tile_n tile_k : Z) (metrics : dict pynum),
    fp8fp8_tile_metrics tile_m tile_n tile_k = OK metrics ->
    exists scale tdm_b : Z,
      get metrics "scale" = Some (PyInt scale) /\
      get metrics "TDM B" = Some (PyInt tdm_b) /\
      32 * scale = (tile_m + tile_n) * tile_k /\
      256 * tdm_b = tile_n * tile_k.
Proof.
  intros tile_m tile_n tile_k metrics H.
  destruct (metrics_integer_entries _ _ _ _ H)
    as (Hk & Hn & _ & _ & _ & _ & _ & Hs & _ & _ & Hb & _).
  do 2 eexists. split; [exact Hs|]. split; [exact Hb|].
  apply Z.mod_divide in Hk; [|lia]. apply Z.mod_divide in Hn; [|lia].
  destruct Hk as [k' ->], Hn as [n' ->].
  replace (tile_m * (k' * 32)) with (tile_m * k' * 32) by ring.
  replace (n' * 16 * (k' * 32)) with (n' * 16 * k' * 32) at 1 by ring.
  replace (n' * 16 * (k' * 32)) with (n' * k' * 2 * 256) at 1 by ring.
  rewrite !Z.div_mul by lia. split; ring.
Qed.

(** X7 on the tile [64 x 256 x 128]. *)
Lemma guard_makes_footprints_exact_witness :
  exists (metrics : dict pynum) (scale tdm_b : Z),
    fp8fp8_tile_metrics 64 256 128 = OK metrics /\
    get metrics "scale" = Some (PyInt scale) /\
    get metrics "TDM B" = Some (PyInt tdm_b) /\
    32 * scale = (64 + 256) * 128 /\
    256 * tdm_b = 256 * 128.
Proof.
  assert (H : exists metrics, fp8fp8_tile_metrics 64 256 128 = OK metrics)
    by (eexists; vm_compute; reflexivity).
  destruct H as [metrics H].
  destruct (guard_makes_footprints_exact 64 256 128 metrics H)
    as (scale & tdm_b & H1 & H2 & H3 & H4).
  exists metrics, scale, tdm_b. auto.
Defined.

(** ** Further properties: when the tile metrics return *)

Lemma is_float_truediv_ff (x y : expr) (g : float) :
  is_float x -> y = OK (PyFloat g) -> is_zero g = false ->
  is_float (etruediv x y).
Proof.
  intros [f ->] -> Hg.
  unfold etruediv, lift2, truediv, as_float, float_truediv. cbn [bind].
  rewrite Hg. eexists; reflexivity.
Qed.

Lemma is_float_floordiv_fi (x y : expr) :
  is_float x -> nonzero_int y -> is_float (efloordiv x y).
Proof.
  intros [f ->] (z & -> & Hz0 & Hz).
  destruct (float_of_int_returns z Hz) as (g & Hg & Hs).
  unfold efloordiv, lift2, floordiv, as_float. cbn [bind]. rewrite Hg. cbn [bind].
  assert (Hnz : is_zero g = false).
  { rewrite float_of_int_nonzero in Hg by assumption. cbv zeta in Hg.
    destruct (_ <=? _) in Hg; [|discriminate]. injection Hg as <-. reflexivity. }
  unfold float_floordiv. rewrite Hnz.
  match goal with |- is_float (f0 <- (if ?c then _ else _) ;; _) => destruct c end;
    eexists; reflexivity.
Qed.

Lemma is_float_emax (x y : expr) :
  is_float x -> is_float y -> is_float (emax x y).
Proof.
  intros [f ->] [g ->]. unfold emax, max2. cbn [bind].
  destruct (gtb _ _); eexists; reflexivity.
Qed.

Ltac int_lit_div :=
  cbn -[Z.mul Z.add Z.sub Z.pow Z.div];
  first [ apply nonzero_int_lit; [lia | lia]
        | apply small_int_lit; Z.div_mod_to_equations; lia ].

Ltac num_all :=
  lazymatch goal with
  | |- is_float (OK (PyFloat _)) => eexists; reflexivity
  | |- is_float (pure (PyFloat _)) => apply is_float_pure
  | |- is_float (emax _ _) => apply is_float_emax; [num_all | num_all]
  | |- is_float (efloordiv _ _) => apply is_float_floordiv_fi; [num_all | int_lit_div]
  | |- is_float (etruediv _ _) =>
      first [ apply is_float_truediv_fi; [num_all | int_lit_div]
            | apply is_float_truediv_ii; [int_lit_div | int_lit_div]
            | eapply is_float_truediv_ff; [num_all | reflexivity | reflexivity] ]
  | |- is_float _ =>
      first [ apply is_float_arith_ff; [num_all | num_all]
            | apply is_float_arith_fi; [num_all | int_lit_div]
            | apply is_float_arith_if; [int_lit_div | num_all] ]
  end.

Ltac bind_float_all :=
  lazymatch goal with
  | |- context [bind ?c _] =>
      let f := fresh "f" in
      let H := fresh "H" in
      assert (H : is_float c) by num_all;
      destruct H as [f H]; rewrite H; cbn [bind]; clear H
  end.

(** An integer expression evaluates by computation. *)
Ltac bind_int :=
  lazymatch goal with
  | |- context [bind ?c _] =>
      let v := eval cbn -[Z.mul Z.add Z.sub Z.pow Z.div] in c in
      lazymatch v with
      | OK (PyInt _) => change c with v; cbn [bind]
      end
  end.

Lemma product_bound (a b : Z) (i j : Z) :
  0 <= i -> 0 <= j -> Z.abs a < 2 ^ i -> Z.abs b < 2 ^ j ->
  Z.abs (a * b) < 2 ^ (i + j).
Proof.
  intros Hi Hj Ha Hb. rewrite Z.abs_mul, Z.pow_add_r by assumption.
  pose proof (Z.abs_nonneg a). pose proof (Z.abs_nonneg b).
  apply Z.mul_lt_mono_nonneg; lia.
Qed.

Lemma metrics_outcome (tile_m tile_n tile_k : Z) :
  tile_k mod 32 = 0 -> tile_n mod 16 = 0 ->
  Z.abs tile_m < 2 ^ 300 -> Z.abs tile_n < 2 ^ 300 -> Z.abs tile_k < 2 ^ 300 ->
  (total_lds_of tile_m tile_n tile_k <> 0 ->
     exists metrics,
       fp8fp8_tile_metrics tile_m tile_n tile_k = OK metrics /\
       get metrics "Total lds" = Some (PyInt (total_lds_of tile_m tile_n tile_k))) /\
  (total_lds_of tile_m tile_n tile_k = 0 ->
     fp8fp8_tile_metrics tile_m tile_n tile_k = Err ZeroDivisionError).
Proof.
  intros Hk Hn Bm Bn Bk.
  pose proof (product_bound tile_m tile_n 300 300 ltac:(lia) ltac:(lia) Bm Bn) as Bmn.
  pose proof (product_bound tile_m tile_k 300 300 ltac:(lia) ltac:(lia) Bm Bk) as Bmk.
  pose proof (product_bound tile_n tile_k 300 300 ltac:(lia) ltac:(lia) Bn Bk) as Bnk.
  pose proof (product_bound tile_k tile_n 300 300 ltac:(lia) ltac:(lia) Bk Bn) as Bkn.
  pose proof (product_bound (tile_m * tile_n) tile_k 600 300
                ltac:(lia) ltac:(lia) Bmn Bk) as Bmnk.
  pose proof (product_bound tile_m (tile_k + 16) 300 301
                ltac:(lia) ltac:(lia) Bm ltac:(lia)) as Bmk16.
  change (300 + 300) with 600 in *. change (600 + 300) with 900 in *.
  change (300 + 301) with 601 in *.
  unfold fp8fp8_tile_metrics.
  rewrite !require_divisible_ok by (assumption || lia). cbn [bind].
  unfold A_LDS_PAD, BLOCK_SIZE, LDS_BYTES_PER_CYCLE.
  do 6 bind_int.
  bind_float_all.
  cbv zeta.
  do 3 bind_int.
  do 2 bind_float_all.
  bind_int.
  do 5 bind_float_all.
  fold (total_lds_of tile_m tile_n tile_k).
  change (LDS_CAP_BYTES) with (OK (PyInt 327680)).
  unfold etruediv, lift2, truediv. cbn [bind pure].
  split; intros Ht.
  - destruct (int_truediv_returns 327680 _ Ht ltac:(reflexivity)) as (st & -> & _).
    cbn [bind]. eexists. split; reflexivity.
  - rewrite Ht. reflexivity.
Qed.

Lemma total_lds_positive (tile_m tile_n tile_k : Z) :
  0 < tile_m -> 0 < tile_n -> 0 < tile_k ->
  0 < total_lds_of tile_m tile_n tile_k.
Proof.
  intros Hm Hn Hk. unfold total_lds_of.
  assert (0 <= tile_m * tile_k / 32) by (apply Z.div_pos; nia).
  assert (0 <= tile_n * tile_k / 32) by (apply Z.div_pos; nia).
  nia.
Qed.

(** X8.  Past its guard, [fp8fp8_tile_metrics] can fail in one way only.
    For [tile_k] divisible by 32, [tile_n] divisible by 16 and tiles of
    magnitude below [2 ^ 300]: when the LDS total
    [tile_m * (tile_k + 16) + tile_k * tile_n
     + (tile_m * tile_k // 32 + tile_n * tile_k // 32)]
    is not zero the function returns, with that integer under [Total lds];
    when it is zero the function raises [ZeroDivisionError] (from
    [LDS_CAP_BYTES / total_lds]).  The total is positive for positive
    tiles, so every valid positive tile has metrics. *)
Theorem valid_tiles_return_unless_no_lds :
  forall tile_m tile_n tile_k : Z,
    tile_k mod 32 = 0 -> tile_n mod 16 = 0 ->
    Z.abs tile_m < 2 ^ 300 -> Z.abs tile_n < 2 ^ 300 -> Z.abs tile_k < 2 ^ 300 ->
    (total_lds_of tile_m tile_n tile_k <> 0 ->
       exists metrics,
         fp8fp8_tile_metrics tile_m tile_n tile_k = OK metrics /\
         get metrics "Total lds"
         = Some (PyInt (total_lds_of tile_m tile_n tile_k))) /\
    (total_lds_of tile_m tile_n tile_k = 0 ->
       fp8fp8_tile_metrics tile_m tile_n tile_k = Err ZeroDivisionError) /\
    (0 < tile_m -> 0 < tile_n -> 0 < tile_k ->
       exists metrics, fp8fp8_tile_metrics tile_m tile_n tile_k = OK metrics).
Proof.
  intros tile_m tile_n tile_k Hk Hn Bm Bn Bk.
  destruct (metrics_outcome tile_m tile_n tile_k Hk Hn Bm Bn Bk) as [H1 H2].
  split; [exact H1|]. split; [exact H2|].
  intros Pm Pn Pk.
  pose proof (total_lds_positive tile_m tile_n tile_k Pm Pn Pk) as Hp.
  destruct (H1 ltac:(lia)) as (metrics & Hm & _). eauto.
Qed.

(** X8 on the tile [64 x 256 x 128], which has metrics, and on the tile
    [0 x 0 x 32], which passes the guard and has none. *)
Lemma valid_tiles_return_unless_no_lds_witness :
  (exists metrics,
     fp8fp8_tile_metrics 64 256 128 = OK metrics /\
     get metrics "Total lds" = Some (PyInt (total_lds_of 64 256 128))) /\
  fp8fp8_tile_metrics 0 0 32 = Err ZeroDivisionError.
Proof.
  split.
  - apply (valid_tiles_return_unless_no_lds 64 256 128);
      try reflexivity; discriminate.
  - apply (valid_tiles_return_unless_no_lds 0 0 32); reflexivity.
Defined.

(** ** Further properties: the attention model raises [OverflowError] only *)

Lemma overflow_only_bind {A B : Type} (c : result A) (k : A -> result B) :
  overflow_only c -> (forall a, overflow_only (k a)) -> overflow_only (bind c k).
Proof. destruct c as [a|[]]; cbn; auto. Qed.

Lemma overflow_only_float_of_int (z : Z) : overflow_only (float_of_int z).
Proof. unfold float_of_int. destruct (binary_normalize _ _ _ _ _); exact I. Qed.

Lemma overflow_only_as_float (x : pynum) : overflow_only (as_float x).
Proof. destruct x; [apply overflow_only_float_of_int|exact I]. Qed.

Lemma overflow_only_arith iop fop (x y : pynum) :
  overflow_only (arith iop fop x y).
Proof.
  destruct x, y; cbn [arith]; try exact I;
    repeat (apply overflow_only_bind; [apply overflow_only_as_float|intros]);
    exact I.
Qed.

Lemma overflow_only_int_truediv (a b : Z) :
  b <> 0 -> overflow_only (int_truediv a b).
Proof.
  intros Hb. unfold int_truediv.
  replace (b =? 0) with false by (symmetry; apply Z.eqb_neq; assumption).
  destruct (a =? 0); [exact I|].
  destruct (SFdiv_core_binary _ _ _ _ _ _) as [[q e] l].
  destruct (binary_round_aux _ _ _ _ _ _); exact I.
Qed.

Lemma float_of_int_is_zero (z : Z) (g : float) :
  z <> 0 -> float_of_int z = OK g -> is_zero g = false.
Proof.
  intros Hz Hg. rewrite float_of_int_nonzero in Hg by assumption.
  cbv zeta in Hg. destruct (_ <=? _) in Hg; [|discriminate].
  injection Hg as <-. reflexivity.
Qed.

Lemma overflow_only_truediv_int (x : pynum) (b : Z) :
  b <> 0 -> overflow_only (truediv x (PyInt b)).
Proof.
  intros Hb. destruct x as [a|f]; cbn [truediv as_float bind].
  - apply overflow_only_bind; [apply overflow_only_int_truediv; assumption|].
    intros; exact I.
  - pose proof (overflow_only_float_of_int b) as H.
    destruct (float_of_int b) as [g|e] eqn:E; [|exact H].
    cbn [bind]. unfold float_truediv.
    rewrite (float_of_int_is_zero b g Hb E). exact I.
Qed.

Lemma overflow_only_truediv_float (x : pynum) (g : float) :
  is_zero g = false -> overflow_only (truediv x (PyFloat g)).
Proof.
  intros Hg. unfold truediv.
  assert (G : overflow_only (a <- as_float x ;; b <- as_float (PyFloat g) ;;
                             f <- float_truediv a b ;; OK (PyFloat f))).
  { apply overflow_only_bind; [apply overflow_only_as_float|intros a].
    cbn [as_float bind]. unfold float_truediv. rewrite Hg. exact I. }
  destruct x; exact G.
Qed.

Lemma overflow_only_lift2 op (x y : expr) :
  (forall a b, overflow_only (op a b)) ->
  overflow_only x -> overflow_only y -> overflow_only (lift2 op x y).
Proof.
  intros Hop Hx Hy. unfold lift2.
  apply overflow_only_bind; [assumption|intros].
  apply overflow_only_bind; [assumption|intros]. apply Hop.
Qed.

Lemma overflow_only_etruediv_int (x : expr) (b : Z) :
  b <> 0 -> overflow_only x -> overflow_only (etruediv x (OK (PyInt b))).
Proof.
  intros Hb Hx. unfold etruediv, lift2.
  apply overflow_only_bind; [assumption|intros a]. cbn [bind].
  apply overflow_only_truediv_int; assumption.
Qed.

Lemma overflow_only_etruediv_float (x : expr) (g : float) :
  is_zero g = false -> overflow_only x ->
  overflow_only (etruediv x (OK (PyFloat g))).
Proof.
  intros Hg Hx. unfold etruediv, lift2.
  apply overflow_only_bind; [assumption|intros a]. cbn [bind].
  apply overflow_only_truediv_float; assumption.
Qed.

Lemma overflow_only_sum (xs : list pynum) : overflow_only (sum xs).
Proof.
  unfold sum.
  assert (G : forall (l : list pynum) (c : expr),
             overflow_only c ->
             overflow_only (fold_left (fun acc x => a <- acc ;; add a x) l c)).
  { induction l as [|x l IH]; intros c Hc; [exact Hc|].
    cbn [fold_left]. apply IH.
    apply overflow_only_bind; [assumption|intros a].
    apply overflow_only_arith. }
  apply G. exact I.
Qed.

Ltac overflow_expr :=
  repeat first
    [ exact I
    | apply overflow_only_etruediv_int; [vm_compute; discriminate|]
    | apply overflow_only_etruediv_float; [reflexivity|]
    | apply overflow_only_lift2; [apply overflow_only_arith| |] ].

Ltac overflow_binds :=
  repeat (apply overflow_only_bind; [overflow_expr|intros]); try exact I.

Lemma Pa_gemm_overflow_only (q kv : pynum) : overflow_only (Pa.gemm q kv).
Proof.
  unfold Pa.gemm. rewrite Pa_MMA_THROUGHPUT. overflow_binds.
Qed.

Lemma Pa400_gemm_overflow_only (q kv : pynum) : overflow_only (Pa400.gemm q kv).
Proof.
  unfold Pa400.gemm. rewrite Pa400_MMA_THROUGHPUT. overflow_binds.
Qed.

Lemma Pa_softmax_overflow_only (q kv : pynum) (p : bool) :
  overflow_only (Pa.softmax q kv p).
Proof.
  unfold Pa.softmax, Pa.EXP_ISSUE_CYCLES. cbv zeta.
  destruct p; overflow_binds.
Qed.

Lemma Pa400_softmax_overflow_only (q kv : pynum) (p : bool) :
  overflow_only (Pa400.softmax q kv p).
Proof.
  unfold Pa400.softmax. cbv zeta.
  destruct p; overflow_binds.
Qed.

Lemma Pa_pipeline_overflow_only (q kv : pynum) (co p : bool) :
  overflow_only (Pa.print_performance_table q kv co p).
Proof.
  unfold Pa.print_performance_table. cbv zeta.
  apply overflow_only_bind; [apply Pa_softmax_overflow_only|intros bd].
  apply overflow_only_bind; [apply Pa_gemm_overflow_only|intros g].
  apply overflow_only_bind; [apply overflow_only_sum|intros t].
  overflow_binds.
Qed.

Lemma Pa400_pipeline_overflow_only (q kv : pynum) (co p : bool) :
  overflow_only (Pa400.print_performance_table q kv co p).
Proof.
  unfold Pa400.print_performance_table. cbv zeta.
  apply overflow_only_bind; [apply Pa400_softmax_overflow_only|intros bd].
  apply overflow_only_bind; [apply Pa400_gemm_overflow_only|intros g].
  apply overflow_only_bind; [apply overflow_only_sum|intros t].
  overflow_binds.
Qed.

(** X9.  The attention model divides by constants only.  For every query
    tile and key/value tile, [int] or [float], and every flag, [gemm],
    [softmax] and the computation of [print_performance_table] in both
    generations either return or raise [OverflowError] (an [int] too large
    for a [float]); they never raise [ZeroDivisionError], [ValueError] or
    [KeyError]. *)
Theorem attention_model_raises_overflow_only :
  forall (qtile kv_tile : pynum) (co_exe is_packed : bool),
    (overflow_only (Pa.gemm qtile kv_tile) /\
     overflow_only (Pa.softmax qtile kv_tile is_packed) /\
     overflow_only (Pa.print_performance_table qtile kv_tile co_exe is_packed)) /\
    (overflow_only (Pa400.gemm qtile kv_tile) /\
     overflow_only (Pa400.softmax qtile kv_tile is_packed) /\
     overflow_only (Pa400.print_performance_table qtile kv_tile co_exe is_packed)).
Proof.
  intros. repeat split.
  - apply Pa_gemm_overflow_only.
  - apply Pa_softmax_overflow_only.
  - apply Pa_pipeline_overflow_only.
  - apply Pa400_gemm_overflow_only.
  - apply Pa400_softmax_overflow_only.
  - apply Pa400_pipeline_overflow_only.
Qed.

(** ** Further properties: the GEMM cycle count and the packed flag *)

Lemma truediv_float_8 (s : bool) (m : positive) (e : Z) :
  Zdigits2 (Zpos m) = 53 -> -1070 <= e <= 974 ->
  truediv (PyFloat (S754_finite s m e)) (PyInt 8)
  = OK (PyFloat (S754_finite s m (e - 3))).
Proof.
  intros Hd He. unfold truediv, as_float. cbn [bind].
  change (float_of_int 8) with (OK (S754_finite false 4503599627370496 (3 - 52))).
  cbn [bind]. unfold float_truediv. cbn [is_zero bind].
  rewrite fdiv_pow2 by (assumption || lia). reflexivity.
Qed.

Lemma int_round_digits (z : Z) :
  0 < z -> Zdigits2 (Zpos (Z.to_pos (fst (int_round z)))) = 53.
Proof.
  intros Hz. pose proof (int_round_range z Hz) as [[R1 R2] _].
  rewrite pow2_52 in R1.
  rewrite Z2Pos.id by lia. apply Zdigits2_unique; [lia|].
  change (53 - 1) with 52. rewrite pow2_52. lia.
Qed.

Lemma gemm_generations_eq (q kv : Z) :
  Pa400.gemm q kv = (g <- Pa.gemm q kv ;; truediv g (PyInt 8)).
Proof.
  rewrite Pa_gemm_int, Pa400_gemm_int.
  set (z := q * kv * 128 * 2 * 2).
  destruct (Z.eq_dec z 0) as [->|Hz]; [reflexivity|].
  change (-39) with (13 - 52). change (-42) with (10 - 52).
  rewrite !scaled_int by lia. cbv zeta.
  pose proof (int_round_range (Z.abs z) ltac:(lia)) as [_ [X1 X2]].
  pose proof (Zdigits2_pos (Z.abs z) ltac:(lia)).
  destruct (Z.leb_spec (snd (int_round (Z.abs z))) 971) as [Hle|Hgt];
    [|reflexivity].
  cbn [bind]. rewrite truediv_float_8.
  - do 3 f_equal. lia.
  - apply int_round_digits. lia.
  - lia.
Qed.

Lemma gemm_mono (q1 kv1 q2 kv2 : Z) :
  0 < q1 -> q1 <= q2 -> 0 < kv1 -> kv1 <= kv2 ->
  (forall g2, Pa.gemm q2 kv2 = OK g2 ->
     exists g1, Pa.gemm q1 kv1 = OK g1 /\ leb g1 g2 = true) /\
  (forall g2, Pa400.gemm q2 kv2 = OK g2 ->
     exists g1, Pa400.gemm q1 kv1 = OK g1 /\ leb g1 g2 = true).
Proof.
  intros Hq1 Hq Hkv1 Hkv.
  assert (H0 : 0 < q1 * kv1 * 128 * 2 * 2) by nia.
  assert (H1 : q1 * kv1 * 128 * 2 * 2 <= q2 * kv2 * 128 * 2 * 2) by nia.
  split; intros g2 Hg2.
  - rewrite Pa_gemm_int in *.
    exact (scaled_int_mono _ _ 10 g2 H0 H1 ltac:(lia) Hg2).
  - rewrite Pa400_gemm_int in *.
    exact (scaled_int_mono _ _ 13 g2 H0 H1 ltac:(lia) Hg2).
Qed.

Lemma Pa_packing_invariant (q kv : pynum) (bd bd' : dict pynum) :
  Pa.softmax q kv true = OK bd -> Pa.softmax q kv false = OK bd' ->
  get bd "intra_max" = get bd' "intra_max" /\
  get bd "inter_max" = get bd' "inter_max" /\
  get bd "reshape_s" = get bd' "reshape_s".
Proof.
  unfold Pa.softmax. cbv zeta. intros H H'.
  inv_bind H. inv_bind H'.
  injection H as <-. injection H' as <-.
  cbn [get String.eqb Ascii.eqb Bool.eqb].
  repeat split; congruence.
Qed.

Lemma Pa400_packing_invariant (q kv : pynum) (bd bd' : dict pynum) :
  Pa400.softmax q kv true = OK bd -> Pa400.softmax q kv false = OK bd' ->
  get bd "intra_max" = get bd' "intra_max" /\
  get bd "inter_max" = get bd' "inter_max".
Proof.
  unfold Pa400.softmax. cbv zeta. intros H H'.
  inv_bind H. inv_bind H'.
  injection H as <-. injection H' as <-.
  cbn [get String.eqb Ascii.eqb Bool.eqb].
  repeat split; congruence.
Qed.

(** X10.  The GEMM cycle counts of the two generations differ by the
    factor 8 of their [MMA_THROUGHPUT] ([8192.0] in [src/400/pa.py],
    [1024.0] in [src/pa.py]), exactly: for all integer tiles,
    [gemm] of [src/400/pa.py] returns the float [g / 8] where [g] is what
    [gemm] of [src/pa.py] returns, and raises [OverflowError] when that one
    does. *)
Theorem gemm_generations :
  forall qtile kv_tile : Z,
    Pa400.gemm qtile kv_tile
    = (g <- Pa.gemm qtile kv_tile ;; truediv g (PyInt 8)).
Proof. exact gemm_generations_eq. Qed.

(** X11.  The GEMM cycle count is monotone in both tiles, in both
    generations: for positive tiles with [q1 <= q2] and [kv1 <= kv2],
    whenever [gemm(q2, kv2)] returns, [gemm(q1, kv1)] returns too and
    [gemm(q1, kv1) <= gemm(q2, kv2)] as Python compares the two floats. *)
Theorem gemm_monotone_in_both_tiles :
  forall q1 kv1 q2 kv2 : Z,
    0 < q1 -> q1 <= q2 -> 0 < kv1 -> kv1 <= kv2 ->
    (forall g2, Pa.gemm q2 kv2 = OK g2 ->
       exists g1, Pa.gemm q1 kv1 = OK g1 /\ leb g1 g2 = true) /\
    (forall g2, Pa400.gemm q2 kv2 = OK g2 ->
       exists g1, Pa400.gemm q1 kv1 = OK g1 /\ leb g1 g2 = true).
Proof. exact gemm_mono. Qed.

(** X11 on [(48, 32)] and [(48, 64)], the two calls of the driver of
    [src/pa.py]. *)
Lemma gemm_monotone_in_both_tiles_witness :
  (exists g1 g2, Pa.gemm 48 32 = OK g1 /\ Pa.gemm 48 64 = OK g2 /\
                 leb g1 g2 = true) /\
  (exists g1 g2, Pa400.gemm 48 32 = OK g1 /\ Pa400.gemm 48 64 = OK g2 /\
                 leb g1 g2 = true).
Proof.
  destruct (gemm_monotone_in_both_tiles 48 32 48 64
              ltac:(reflexivity) ltac:(discriminate)
              ltac:(reflexivity) ltac:(discriminate))
    as [HB HA].
  assert (EB : Pa.gemm 48 64 =
               OK (PyFloat (S754_finite false 6755399441055744 (-42))))
    by (vm_compute; reflexivity).
  assert (EA : Pa400.gemm 48 64 =
               OK (PyFloat (S754_finite false 6755399441055744 (-45))))
    by (vm_compute; reflexivity).
  split.
  - destruct (HB _ EB) as (g1 & H1 & H2). exists g1. eexists. eauto.
  - destruct (HA _ EA) as (g1 & H1 & H2). exists g1. eexists. eauto.
Defined.

(** X12.  What the packed flag leaves alone.  For every query tile and
    key/value tile, [int] or [float], the breakdowns which [softmax]
    returns with [is_packed=True] and with [is_packed=False] agree on
    [intra_max], [inter_max] and [reshape_s] in [src/pa.py], and on
    [intra_max] and [inter_max] in [src/400/pa.py]: packing changes none of
    these stages. *)
Theorem packing_leaves_max_and_reshape_unchanged :
  forall qtile kv_tile : pynum,
    (forall bd bd',
       Pa.softmax qtile kv_tile true = OK bd ->
       Pa.softmax qtile kv_tile false = OK bd' ->
       get bd "intra_max" = get bd' "intra_max" /\
       get bd "inter_max" = get bd' "inter_max" /\
       get bd "reshape_s" = get bd' "reshape_s") /\
    (forall bd bd',
       Pa400.softmax qtile kv_tile true = OK bd ->
       Pa400.softmax qtile kv_tile false = OK bd' ->
       get bd "intra_max" = get bd' "intra_max" /\
       get bd "inter_max" = get bd' "inter_max").
Proof.
  intros qtile kv_tile. split; intros bd bd'.
  - apply Pa_packing_invariant.
  - apply Pa400_packing_invariant.
Qed.

(** X12 on [(48, 64)] in [src/pa.py]. *)
Lemma packing_leaves_max_and_reshape_unchanged_witness :
  exists bd bd',
    Pa.softmax 48 64 true = OK bd /\
    Pa.softmax 48 64 false = OK bd' /\
    get bd "intra_max" = get bd' "intra_max" /\
    get bd "inter_max" = get bd' "inter_max" /\
    get bd "reshape_s" = get bd' "reshape_s".
Proof.
  do 2 eexists. split; [vm_compute; reflexivity|].
  split; [vm_compute; reflexivity|].
  apply (proj1 (packing_leaves_max_and_reshape_unchanged 48 64));
    vm_compute; reflexivity.
Defined.

(** ** Further properties: arithmetic without rounding *)

Lemma digits_53 (N : Z) : 0 < N < 2 ^ 53 -> 1 <= Zdigits2 N <= 53.
Proof.
  intros H. split.
  - pose proof (Zdigits2_pos N ltac:(lia)). lia.
  - apply Zdigits2_le; lia.
Qed.

Lemma dyadic_mantissa (N : Z) :
  0 < N < 2 ^ 53 ->
  2 ^ 52 <= N * 2 ^ (53 - Zdigits2 N) < 2 ^ 53 /\
  Zdigits2 (N * 2 ^ (53 - Zdigits2 N)) = 53.
Proof.
  intros H. pose proof (digits_53 N H) as Hd.
  pose proof (Zdigits2_mul_pow2 N (53 - Zdigits2 N) ltac:(lia) ltac:(lia)) as HD.
  replace (Zdigits2 N + (53 - Zdigits2 N)) with 53 in HD by lia.
  split; [|exact HD].
  assert (0 < 2 ^ (53 - Zdigits2 N)) by (apply Z.pow_pos_nonneg; lia).
  pose proof (Zdigits2_bounds (N * 2 ^ (53 - Zdigits2 N)) ltac:(nia)) as HB.
  rewrite HD in HB. change (53 - 1) with 52 in HB. exact HB.
Qed.

Lemma dyadic_digits (N E : Z) :
  0 < N < 2 ^ 53 ->
  exists m, dyadic N E = S754_finite false m (E - (53 - Zdigits2 N)) /\
            Zdigits2 (Zpos m) = 53 /\ Zpos m = N * 2 ^ (53 - Zdigits2 N).
Proof.
  intros H. destruct (dyadic_mantissa N H) as [[H1 H2] H3].
  rewrite pow2_52 in H1.
  exists (Z.to_pos (N * 2 ^ (53 - Zdigits2 N))).
  rewrite Z2Pos.id by lia. auto.
Qed.

Lemma dyadic_scale (N E j : Z) :
  0 < N -> 0 <= j -> N * 2 ^ j < 2 ^ 53 ->
  dyadic (N * 2 ^ j) (E - j) = dyadic N E.
Proof.
  intros HN Hj Hb. unfold dyadic. cbv zeta.
  assert (0 < 2 ^ j) by (apply Z.pow_pos_nonneg; lia).
  pose proof (digits_53 (N * 2 ^ j) ltac:(nia)) as Hd.
  rewrite Zdigits2_mul_pow2 in * by lia.
  replace (N * 2 ^ j * 2 ^ (53 - (Zdigits2 N + j)))
    with (N * 2 ^ (53 - Zdigits2 N)).
  - f_equal. lia.
  - replace (53 - Zdigits2 N) with (j + (53 - (Zdigits2 N + j))) by lia.
    rewrite Z.pow_add_r by lia. ring.
Qed.

(** Rounding an integer that has at most 53 significant bits. *)
Lemma rne_exact (N j n : Z) :
  0 <= n <= j -> rne (N * 2 ^ j) n = N * 2 ^ (j - n).
Proof.
  intros Hn.
  assert (Hdiv : forall i, 0 <= i <= j -> N * 2 ^ j / 2 ^ i = N * 2 ^ (j - i)).
  { intros i Hi. replace j with ((j - i) + i) at 1 by lia.
    rewrite Z.pow_add_r by lia. rewrite Z.mul_assoc.
    apply Z.div_mul. apply Z.pow_nonzero; lia. }
  destruct (Z.eq_dec n 0) as [->|Hn0].
  - rewrite rne_0. f_equal. f_equal. lia.
  - rewrite rne_cases by lia. rewrite !Hdiv by lia.
    replace (j - (n - 1)) with (1 + (j - n)) by lia.
    rewrite Z.pow_add_r by lia. change (2 ^ 1) with 2.
    replace (N * (2 * 2 ^ (j - n))) with (2 * (N * 2 ^ (j - n))) by ring.
    rewrite Z.odd_mul. reflexivity.
Qed.

Lemma int_round_exact (N j : Z) :
  0 < N < 2 ^ 53 -> 0 <= j ->
  int_round (N * 2 ^ j)
  = (N * 2 ^ (53 - Zdigits2 N), Zdigits2 N + j - 53).
Proof.
  intros HN Hj. pose proof (digits_53 N HN) as Hd.
  destruct (dyadic_mantissa N HN) as [[M1 M2] _].
  unfold int_round. cbv zeta.
  rewrite Zdigits2_mul_pow2 by lia.
  destruct (Z.ltb_spec (Zdigits2 N + j) 53) as [Hlt|Hge].
  - f_equal.
    replace (53 - Zdigits2 N) with (j + (53 - (Zdigits2 N + j))) by lia.
    rewrite Z.pow_add_r by lia. ring.
  - unfold norm_round. cbv zeta.
    rewrite Zdigits2_mul_pow2 by lia.
    rewrite rne_exact by lia.
    replace (j - (Zdigits2 N + j - 53)) with (53 - Zdigits2 N) by lia.
    replace (N * 2 ^ (53 - Zdigits2 N) <? 2 ^ 53) with true
      by (symmetry; apply Z.ltb_lt; lia).
    f_equal.
Qed.

(** [binary_round] at any exponent, when the result is normal. *)
Lemma binary_round_shift (s : bool) (p : positive) (e : Z) :
  -1074 <= Zdigits2 (Zpos p) + e - 53 ->
  binary_round 53 1024 s p e
  = pack s (fst (int_round (Zpos p)), snd (int_round (Zpos p)) + e).
Proof.
  intros He.
  unfold binary_round, shl_align, int_round. cbv zeta.
  change (Zpos (digits2_pos p)) with (Zdigits2 (Zpos p)).
  pose proof (Zdigits2_pos (Zpos p) ltac:(lia)) as Hd.
  rewrite fexp64.
  rewrite (Z.max_l (Zdigits2 (Zpos p) + e - 53) (-1074)) by lia.
  replace (Zdigits2 (Zpos p) + e - 53 - e) with (Zdigits2 (Zpos p) - 53) by lia.
  destruct (Z.ltb_spec (Zdigits2 (Zpos p)) 53) as [Hlt|Hge].
  - destruct (Zdigits2 (Zpos p) - 53) as [|k|k] eqn:Ek; try lia.
    assert (Hk : Zpos k = 53 - Zdigits2 (Zpos p)) by lia.
    assert (HD : Zdigits2 (Zpos (Pos.iter xO p k)) = 53)
      by (rewrite iter_xO, Zdigits2_mul_pow2; lia).
    rewrite binary_round_aux_exact by lia.
    unfold norm_round. cbv zeta. rewrite HD. change (53 - 53) with 0.
    rewrite rne_0.
    pose proof (Zdigits2_bounds (Zpos (Pos.iter xO p k)) ltac:(lia)) as HB.
    rewrite HD in HB.
    replace (Zpos (Pos.iter xO p k) <? 2 ^ 53) with true
      by (symmetry; apply Z.ltb_lt; lia).
    rewrite iter_xO, Hk. cbn [fst snd]. f_equal. f_equal. lia.
  - destruct (Zdigits2 (Zpos p) - 53) as [|k|k] eqn:Ek; try lia;
      rewrite binary_round_aux_exact by lia;
      rewrite <- (Z.add_0_l e) at 1; rewrite norm_round_shift; reflexivity.
Qed.

Lemma binary_normalize_exact (N j e : Z) :
  0 < N < 2 ^ 53 -> 0 <= j -> -1074 <= Zdigits2 N + j + e - 53 ->
  Zdigits2 N + j + e - 53 <= 971 ->
  binary_normalize 53 1024 (N * 2 ^ j) e false = dyadic N (e + j).
Proof.
  intros HN Hj Hlo Hhi.
  assert (0 < 2 ^ j) by (apply Z.pow_pos_nonneg; lia).
  destruct (N * 2 ^ j) as [|p|p] eqn:Ep; try nia.
  cbn [binary_normalize].
  rewrite binary_round_shift by (rewrite <- Ep, Zdigits2_mul_pow2; lia).
  rewrite <- Ep, int_round_exact by lia.
  unfold pack, dyadic. cbn [fst snd]. cbv zeta.
  replace (Zdigits2 N + j - 53 + e <=? 971) with true
    by (symmetry; apply Z.leb_le; lia).
  f_equal. lia.
Qed.

(** Multiplying a normal number by [2 ^ k] only moves its exponent. *)
Lemma fmul_pow2 (s : bool) (m : positive) (e k : Z) :
  Zdigits2 (Zpos m) = 53 -> -1074 <= e + k <= 971 ->
  fmul (S754_finite s m e) (S754_finite false 4503599627370496 (k - 52))
  = S754_finite s m (e + k).
Proof.
  intros Hd He. unfold fmul, SFmul.
  pose proof (Zdigits2_bounds (Zpos m) ltac:(lia)) as HB. rewrite Hd in HB.
  replace (Zpos (m * 4503599627370496)) with (Zpos m * 2 ^ 52)
    by (rewrite pow2_52; lia).
  assert (HD : Zdigits2 (Zpos m * 2 ^ 52) = 105)
    by (rewrite Zdigits2_mul_pow2, Hd; lia).
  rewrite binary_round_aux_exact by (rewrite ?HD; lia).
  unfold norm_round. cbv zeta. rewrite HD. change (105 - 53) with 52.
  rewrite rne_exact by lia. change (52 - 52) with 0.
  rewrite Z.pow_0_r, Z.mul_1_r.
  replace (Zpos m <? 2 ^ 53) with true by (symmetry; apply Z.ltb_lt; lia).
  unfold pack. cbn [fst snd].
  replace (e + (k - 52) + 52) with (e + k) by lia.
  replace (e + k <=? 971) with true by (symmetry; apply Z.leb_le; lia).
  destruct s; reflexivity.
Qed.

Lemma shl_align_fst (m : positive) (e ez : Z) :
  ez <= e -> Zpos (fst (shl_align m e ez)) = Zpos m * 2 ^ (e - ez).
Proof.
  intros H. unfold shl_align.
  destruct (ez - e) as [|d|d] eqn:E; cbn [fst]; try lia.
  - replace (e - ez) with 0 by lia. lia.
  - rewrite iter_xO. f_equal. f_equal. lia.
Qed.

(** Adding two doubles of one scale, when the sum has at most 53 bits. *)
Lemma fadd_dyadic (N1 N2 E : Z) :
  0 < N1 -> 0 < N2 -> N1 + N2 < 2 ^ 53 -> -1000 <= E <= 900 ->
  fadd (dyadic N1 E) (dyadic N2 E) = dyadic (N1 + N2) E.
Proof.
  intros H1 H2 Hs HE.
  destruct (dyadic_digits N1 E ltac:(lia)) as (m1 & -> & D1 & M1).
  destruct (dyadic_digits N2 E ltac:(lia)) as (m2 & -> & D2 & M2).
  pose proof (digits_53 N1 ltac:(lia)) as Hd1.
  pose proof (digits_53 N2 ltac:(lia)) as Hd2.
  pose proof (digits_53 (N1 + N2) ltac:(lia)) as Hd.
  unfold fadd, SFadd. cbv zeta.
  set (e1 := E - (53 - Zdigits2 N1)). set (e2 := E - (53 - Zdigits2 N2)).
  set (ez := Z.min e1 e2).
  rewrite !shl_align_fst by (unfold ez; lia).
  cbn [cond_Zopp]. rewrite M1, M2.
  replace (N1 * 2 ^ (53 - Zdigits2 N1) * 2 ^ (e1 - ez)
           + N2 * 2 ^ (53 - Zdigits2 N2) * 2 ^ (e2 - ez))
    with ((N1 + N2) * 2 ^ (E - ez)).
  - rewrite binary_normalize_exact by (unfold ez, e1, e2 in *; lia).
    f_equal. lia.
  - rewrite <- !Z.mul_assoc, <- !Z.pow_add_r by (unfold ez, e1, e2; lia).
    replace (53 - Zdigits2 N1 + (e1 - ez)) with (E - ez) by (unfold e1; lia).
    replace (53 - Zdigits2 N2 + (e2 - ez)) with (E - ez) by (unfold e2; lia).
    ring.
Qed.

Lemma float_of_int_dyadic (z : Z) :
  0 < z < 2 ^ 53 -> float_of_int z = OK (dyadic z 0).
Proof.
  intros Hz. unfold float_of_int.
  rewrite <- (Z.mul_1_r z) at 1. change 1 with (2 ^ 0) at 1.
  pose proof (digits_53 z Hz).
  rewrite binary_normalize_exact by lia. reflexivity.
Qed.

Lemma float_of_pow2 (k : Z) :
  0 <= k <= 1000 ->
  float_of_int (2 ^ k) = OK (S754_finite false 4503599627370496 (k - 52)).
Proof.
  intros Hk. unfold float_of_int.
  rewrite <- (Z.mul_1_l (2 ^ k)).
  rewrite binary_normalize_exact by (change (Zdigits2 1) with 1; lia).
  unfold dyadic. change (Zdigits2 1) with 1. cbv zeta.
  change (Z.to_pos (1 * 2 ^ (53 - 1))) with 4503599627370496%positive.
  do 2 f_equal; lia.
Qed.

Lemma new_location_0 (nb : Z) : new_location nb 0 = loc_Exact.
Proof. unfold new_location. destruct (Z.even nb); reflexivity. Qed.

(** [int / int] for a divisor that is a power of two. *)
Lemma int_truediv_pow2 (N k : Z) :
  0 < N < 2 ^ 53 -> 0 <= k <= 900 ->
  int_truediv N (2 ^ k) = OK (dyadic N (- k)).
Proof.
  intros HN Hk. pose proof (digits_53 N HN) as Hd.
  assert (Hp : 0 < 2 ^ k) by (apply Z.pow_pos_nonneg; lia).
  unfold int_truediv.
  replace (2 ^ k =? 0) with false by (symmetry; apply Z.eqb_neq; lia).
  replace (N =? 0) with false by (symmetry; apply Z.eqb_neq; lia).
  replace (N <? 0) with false by (symmetry; apply Z.ltb_ge; lia).
  replace (2 ^ k <? 0) with false by (symmetry; apply Z.ltb_ge; lia).
  rewrite !Z.abs_eq by lia.
  unfold SFdiv_core_binary. cbv zeta.
  assert (Hdk : Zdigits2 (2 ^ k) = k + 1).
  { rewrite <- (Z.mul_1_l (2 ^ k)), Zdigits2_mul_pow2 by lia.
    change (Zdigits2 1) with 1. lia. }
  rewrite Hdk, !Z.add_0_r, fexp64. change (0 - 0) with 0.
  replace (Z.min (Z.max (Zdigits2 N - (k + 1) - 53) (-1074)) 0)
    with (Zdigits2 N - k - 54) by lia.
  replace (0 - (Zdigits2 N - k - 54)) with (k + (54 - Zdigits2 N)) by lia.
  destruct (k + (54 - Zdigits2 N)) as [|p|p] eqn:Es; try lia.
  rewrite Z.shiftl_mul_pow2 by lia. rewrite <- Es.
  rewrite div_eucl_div_mod.
  replace (N * 2 ^ (k + (54 - Zdigits2 N)))
    with (N * 2 ^ (54 - Zdigits2 N) * 2 ^ k)
    by (rewrite Z.pow_add_r by lia; ring).
  rewrite Z.div_mul, Z.mod_mul by lia.
  rewrite new_location_0. cbn [xorb].
  assert (HD : Zdigits2 (N * 2 ^ (54 - Zdigits2 N)) = 54)
    by (rewrite Zdigits2_mul_pow2; lia).
  assert (0 < 2 ^ (54 - Zdigits2 N)) by (apply Z.pow_pos_nonneg; lia).
  rewrite binary_round_aux_exact by (rewrite ?HD; nia || lia).
  unfold norm_round. cbv zeta. rewrite HD. change (54 - 53) with 1.
  rewrite rne_exact by lia.
  replace (54 - Zdigits2 N - 1) with (53 - Zdigits2 N) by lia.
  destruct (dyadic_mantissa N HN) as [[M1 M2] _].
  replace (N * 2 ^ (53 - Zdigits2 N) <? 2 ^ 53) with true
    by (symmetry; apply Z.ltb_lt; lia).
  unfold pack, dyadic. cbn [fst snd]. cbv zeta.
  replace (Zdigits2 N - k - 54 + 1 <=? 971) with true
    by (symmetry; apply Z.leb_le; lia).
  replace (Zdigits2 N - k - 54 + 1) with (- k - (53 - Zdigits2 N)) by lia.
  reflexivity.
Qed.

(** ** Evaluating expressions on exact values *)

Lemma ev_div_ii (x y : expr) (N b E' : Z) :
  x = OK (PyInt N) -> y = OK (PyInt b) -> 2 ^ Z.log2 b = b ->
  - Z.log2 b = E' -> 0 < N < 2 ^ 53 -> -900 <= E' ->
  etruediv x y = OK (PyFloat (dyadic N E')).
Proof.
  intros -> -> Hb <- HN HE.
  pose proof (Z.log2_nonneg b).
  unfold etruediv, lift2, truediv. cbn [bind].
  rewrite <- Hb at 1. rewrite int_truediv_pow2 by lia. reflexivity.
Qed.

Lemma ev_div_fi (x y : expr) (N E b E' : Z) :
  x = OK (PyFloat (dyadic N E)) -> y = OK (PyInt b) -> 2 ^ Z.log2 b = b ->
  E - Z.log2 b = E' -> 0 < N < 2 ^ 53 -> -900 <= E' <= 900 ->
  Z.log2 b <= 900 ->
  etruediv x y = OK (PyFloat (dyadic N E')).
Proof.
  intros -> -> Hb <- HN HE Hk.
  pose proof (Z.log2_nonneg b).
  pose proof (digits_53 N HN).
  destruct (dyadic_digits N E HN) as (m & Hm & Hd & _).
  unfold etruediv, lift2, truediv, as_float. cbn [bind].
  rewrite <- Hb at 1. rewrite float_of_pow2 by lia. cbn [bind].
  unfold float_truediv. cbn [is_zero bind].
  rewrite Hm, fdiv_pow2 by (assumption || lia).
  unfold dyadic. cbv zeta.
  destruct (dyadic_digits N (E - Z.log2 b) HN) as (m' & Hm' & _ & Hz').
  destruct (dyadic_digits N E HN) as (m'' & Hm'' & _ & Hz'').
  rewrite Hm in Hm''. injection Hm'' as ->.
  unfold dyadic in Hm'. cbv zeta in Hm'. rewrite Hm'.
  assert (m' = m'') by lia. subst m'.
  do 3 f_equal. lia.
Qed.

Lemma ev_mul_fi (x y : expr) (N E b E' : Z) :
  x = OK (PyFloat (dyadic N E)) -> y = OK (PyInt b) -> 2 ^ Z.log2 b = b ->
  E + Z.log2 b = E' -> 0 < N < 2 ^ 53 -> -900 <= E' <= 900 ->
  Z.log2 b <= 900 ->
  emul x y = OK (PyFloat (dyadic N E')).
Proof.
  intros -> -> Hb <- HN HE Hk.
  pose proof (Z.log2_nonneg b).
  pose proof (digits_53 N HN).
  destruct (dyadic_digits N E HN) as (m & Hm & Hd & Hz).
  unfold emul, lift2, mul, arith, as_float. cbn [bind].
  rewrite <- Hb at 1. rewrite float_of_pow2 by lia. cbn [bind].
  rewrite Hm, fmul_pow2 by (assumption || lia).
  destruct (dyadic_digits N (E + Z.log2 b) HN) as (m' & Hm' & _ & Hz').
  rewrite Hm'. assert (m' = m) by lia. subst m'.
  do 3 f_equal. lia.
Qed.

Lemma dyadic_rescale (N E E0 c : Z) :
  0 < N -> E0 <= E -> 2 ^ (E - E0) = c -> N * c < 2 ^ 53 ->
  dyadic N E = dyadic (N * c) E0.
Proof.
  intros HN HE <- Hb.
  rewrite <- (dyadic_scale N E (E - E0)) by lia.
  f_equal. lia.
Qed.

Lemma ev_add_ff (x y : expr) (N1 E1 N2 E2 E c1 c2 : Z) :
  x = OK (PyFloat (dyadic N1 E1)) -> y = OK (PyFloat (dyadic N2 E2)) ->
  Z.min E1 E2 = E -> 2 ^ (E1 - E) = c1 -> 2 ^ (E2 - E) = c2 ->
  0 < N1 -> 0 < N2 -> N1 * c1 + N2 * c2 < 2 ^ 53 -> -1000 <= E <= 900 ->
  eadd x y = OK (PyFloat (dyadic (N1 * c1 + N2 * c2) E)).
Proof.
  intros -> -> HE H1 H2 P1 P2 Hb HR.
  assert (0 < c1) by (subst c1; apply Z.pow_pos_nonneg; lia).
  assert (0 < c2) by (subst c2; apply Z.pow_pos_nonneg; lia).
  unfold eadd, lift2, add, arith, as_float. cbn [bind].
  rewrite (dyadic_rescale N1 E1 E c1) by (assumption || nia || lia).
  rewrite (dyadic_rescale N2 E2 E c2) by (assumption || nia || lia).
  rewrite fadd_dyadic by (assumption || nia || lia). reflexivity.
Qed.

Lemma ev_add_if (x y : expr) (z N E c : Z) :
  x = OK (PyInt z) -> y = OK (PyFloat (dyadic N E)) ->
  2 ^ (- E) = c -> E <= 0 ->
  0 < z -> 0 < N -> z * c + N < 2 ^ 53 -> -1000 <= E ->
  eadd x y = OK (PyFloat (dyadic (z * c + N) E)).
Proof.
  intros -> -> Hc HE Pz PN Hb HR.
  assert (0 < c) by (subst c; apply Z.pow_pos_nonneg; lia).
  unfold eadd, lift2, add, arith, as_float. cbn [bind].
  rewrite float_of_int_dyadic by nia. cbn [bind].
  rewrite (dyadic_rescale z 0 E c) by (assumption || nia || lia).
  rewrite fadd_dyadic by (assumption || nia || lia). reflexivity.
Qed.

Lemma ev_add_fi (x y : expr) (z N E c : Z) :
  x = OK (PyFloat (dyadic N E)) -> y = OK (PyInt z) ->
  2 ^ (- E) = c -> E <= 0 ->
  0 < z -> 0 < N -> N + z * c < 2 ^ 53 -> -1000 <= E ->
  eadd x y = OK (PyFloat (dyadic (N + z * c) E)).
Proof.
  intros -> -> Hc HE Pz PN Hb HR.
  assert (0 < c) by (subst c; apply Z.pow_pos_nonneg; lia).
  unfold eadd, lift2, add, arith, as_float. cbn [bind].
  rewrite float_of_int_dyadic by nia. cbn [bind].
  rewrite (dyadic_rescale z 0 E c) by (assumption || nia || lia).
  rewrite fadd_dyadic by (assumption || nia || lia). reflexivity.
Qed.

Lemma dyadic_congr (N N' E E' : Z) :
  N = N' -> E = E' -> OK (PyFloat (dyadic N E)) = OK (PyFloat (dyadic N' E')).
Proof. intros -> ->. reflexivity. Qed.

Ltac closed := cbv; reflexivity.

Ltac ev :=
  lazymatch goal with
  | |- etruediv _ _ = _ =>
      first [ eapply ev_div_fi; [ev | reflexivity | closed | closed | lia | lia | cbv; discriminate]
            | eapply ev_div_ii; [reflexivity | reflexivity | closed | closed | lia | lia] ]
  | |- emul _ _ = _ =>
      eapply ev_mul_fi; [ev | reflexivity | closed | closed | lia | lia | cbv; discriminate]
  | |- eadd _ _ = _ =>
      first [ eapply ev_add_ff; [ev | ev | closed | closed | closed | lia | lia | lia | lia]
            | eapply ev_add_fi; [ev | reflexivity | closed | lia | lia | lia | lia | lia]
            | eapply ev_add_if; [reflexivity | ev | closed | lia | lia | lia | lia | lia] ]
  | |- _ => reflexivity
  end.

Ltac step :=
  lazymatch goal with
  | |- context [bind ?c _] =>
      let H := fresh "H" in
      eassert (H : c = OK (PyFloat (dyadic _ _))); [ev | rewrite H; cbn [bind]; clear H]
  end.

Lemma dyadic_eq (N E N' E' c : Z) :
  E' <= E -> 2 ^ (E - E') = c -> N' = N * c -> 0 < N -> N' < 2 ^ 53 ->
  dyadic N E = dyadic N' E'.
Proof.
  intros HE Hc -> HN Hb. apply dyadic_rescale; assumption.
Qed.

(** Two spellings of one double. *)
Ltac same_dyadic :=
  first [ apply dyadic_congr; [lia | reflexivity]
        | apply (f_equal (fun x => OK (PyFloat x)));
          first [ eapply dyadic_eq; [lia | closed | lia | lia | lia]
                | symmetry; eapply dyadic_eq; [lia | closed | lia | lia | lia] ] ].

Ltac entry :=
  eexists; split; [reflexivity|];
  etransitivity; [ev | same_dyadic].

Ltac same_dict :=
  apply (f_equal (fun d => OK d));
  repeat (apply (f_equal2 cons);
          [ apply (f_equal2 pair); [reflexivity|];
            apply (f_equal PyFloat);
            first [ apply (f_equal2 dyadic); [lia | reflexivity]
                  | eapply dyadic_eq; [lia | closed | lia | lia | lia]
                  | symmetry; eapply dyadic_eq; [lia | closed | lia | lia | lia] ]
          | ]);
  reflexivity.

Lemma tiles_bound (q kv : Z) :
  0 < q < 2 ^ 20 -> 0 < kv < 2 ^ 20 -> 0 < q * kv < 2 ^ 40.
Proof.
  intros Hq Hkv. split; [nia|].
  replace (2 ^ 40) with (2 ^ 20 * 2 ^ 20) by reflexivity.
  apply Z.mul_lt_mono_nonneg; lia.
Qed.


(** The breakdown of [src/pa.py] on doubles that carry no rounding error,
    all at the scale [2 ^ -5]. *)
Lemma Pa_softmax_value (q kv : Z) (p : bool) :
  0 < q < 2 ^ 20 -> 0 < kv < 2 ^ 20 ->
  Pa.softmax q kv p =
  OK [ ("intra_max", PyFloat (dyadic (q * kv) (-5)));
       ("inter_max", PyFloat (dyadic (4 * (3568 + q)) (-5)));
       ("softmax_fma_exp",
        PyFloat (dyadic (if p then 9 * (q * kv) else 10 * (q * kv)) (-5)));
       ("softmax_sum",
        PyFloat (dyadic (if p then q * kv else 2 * (q * kv)) (-5)));
       ("s_quant",
        PyFloat (dyadic (if p then 3 * (q * kv) else 6 * (q * kv)) (-5)));
       ("reshape_s", PyFloat (dyadic (5 * (q * kv) + 3200) (-5)));
       ("recompute_output",
        PyFloat (dyadic (if p then 32 * q else 64 * q) (-5))) ].
Proof.
  intros Hq Hkv. pose proof (tiles_bound q kv Hq Hkv) as Hs.
  unfold Pa.softmax, Pa.EXP_ISSUE_CYCLES, Pa.HEAD_SIZE, Pa.WARP_SIZE,
    Pa.ISSUE_CYCLES. cbv zeta.
  destruct p; repeat step; same_dict.
Qed.

(** The breakdown of [src/400/pa.py], all at the scale [2 ^ -6]. *)
Lemma Pa400_softmax_value (q kv : Z) (p : bool) :
  0 < q < 2 ^ 20 -> 0 < kv < 2 ^ 20 ->
  Pa400.softmax q kv p =
  OK [ ("dequant",
        PyFloat (dyadic (if p then q * kv else 2 * (q * kv)) (-6)));
       ("intra_max", PyFloat (dyadic (q * kv) (-6)));
       ("inter_max", PyFloat (dyadic (16 * q) (-6)));
       ("softmax_fma_exp",
        PyFloat (dyadic (if p then 5 * (q * kv) else 6 * (q * kv)) (-6)));
       ("softmax_sum",
        PyFloat (dyadic (if p then q * kv else 2 * (q * kv)) (-6)));
       ("s_quant",
        PyFloat (dyadic (if p then 2 * (q * kv) else 4 * (q * kv)) (-6)));
       ("recompute_output",
        PyFloat (dyadic (if p then 256 * q else 512 * q) (-6))) ].
Proof.
  intros Hq Hkv. pose proof (tiles_bound q kv Hq Hkv) as Hs.
  unfold Pa400.softmax, Pa400.HEAD_SIZE, Pa400.WARP_SIZE, Pa400.VOP_RATE,
    Pa400.TRANS_RATE. cbv zeta.
  destruct p; repeat step; same_dict.
Qed.

Lemma fdiv_dyadic (N E k : Z) :
  0 < N < 2 ^ 53 -> -900 <= E - k <= 900 ->
  fdiv (dyadic N E) (S754_finite false 4503599627370496 (k - 52))
  = dyadic N (E - k).
Proof.
  intros HN HE. pose proof (digits_53 N HN).
  destruct (dyadic_digits N E HN) as (m & Hm & Hd & Hz).
  destruct (dyadic_digits N (E - k) HN) as (m' & Hm' & _ & Hz').
  rewrite Hm, Hm', fdiv_pow2 by (assumption || lia).
  assert (m' = m) by lia. subst m'. f_equal. lia.
Qed.

Lemma Pa_gemm_value (q kv : Z) :
  0 < q < 2 ^ 20 -> 0 < kv < 2 ^ 20 ->
  Pa.gemm q kv = OK (PyFloat (dyadic (q * kv) (-1))).
Proof.
  intros Hq Hkv. pose proof (tiles_bound q kv Hq Hkv) as Hs.
  rewrite Pa_gemm_int, float_of_int_dyadic by lia. cbn [bind].
  change (-42) with (10 - 52). rewrite fdiv_dyadic by lia.
  apply (f_equal (fun x => OK (PyFloat x))).
  symmetry. eapply dyadic_eq; [lia | closed | lia | lia | lia].
Qed.

Lemma Pa400_gemm_value (q kv : Z) :
  0 < q < 2 ^ 20 -> 0 < kv < 2 ^ 20 ->
  Pa400.gemm q kv = OK (PyFloat (dyadic (q * kv) (-4))).
Proof.
  intros Hq Hkv. pose proof (tiles_bound q kv Hq Hkv) as Hs.
  rewrite Pa400_gemm_int, float_of_int_dyadic by lia. cbn [bind].
  change (-39) with (13 - 52). rewrite fdiv_dyadic by lia.
  apply (f_equal (fun x => OK (PyFloat x))).
  symmetry. eapply dyadic_eq; [lia | closed | lia | lia | lia].
Qed.

(** The order of doubles of one scale is the order of their integers. *)
Lemma dyadic_leb (N1 N2 E : Z) :
  0 < N1 -> N1 <= N2 -> N2 < 2 ^ 53 ->
  leb (PyFloat (dyadic N1 E)) (PyFloat (dyadic N2 E)) = true.
Proof.
  intros H1 H12 H2.
  pose proof (digits_53 N1 ltac:(lia)) as D1.
  pose proof (digits_53 N2 ltac:(lia)) as D2.
  pose proof (Zdigits2_mono N1 N2 H1 H12) as Hd.
  destruct (dyadic_mantissa N1 ltac:(lia)) as [[A1 A2] _].
  destruct (dyadic_mantissa N2 ltac:(lia)) as [[B1 B2] _].
  rewrite pow2_52 in A1, B1.
  unfold dyadic. cbv zeta. apply leb_finite_pos.
  destruct (Z.eq_dec (Zdigits2 N1) (Zdigits2 N2)) as [Heq|Hne].
  - right. split; [lia|]. rewrite Heq in *.
    assert (0 < 2 ^ (53 - Zdigits2 N2)) by (apply Z.pow_pos_nonneg; lia).
    assert (N1 * 2 ^ (53 - Zdigits2 N2) <= N2 * 2 ^ (53 - Zdigits2 N2)) by nia.
    lia.
  - left. lia.
Qed.

Lemma dyadic_double (N E : Z) :
  0 < N -> 2 * N < 2 ^ 53 -> -900 <= E <= 800 ->
  mul (PyFloat (dyadic N E)) (PyInt 2) = OK (PyFloat (dyadic (2 * N) E)).
Proof.
  intros HN Hb HE.
  change (mul (PyFloat (dyadic N E)) (PyInt 2))
    with (emul (OK (PyFloat (dyadic N E))) (OK (PyInt 2))).
  etransitivity.
  - eapply ev_mul_fi; [reflexivity | reflexivity | closed | reflexivity | lia | | cbv; discriminate].
    change (Z.log2 2) with 1. lia.
  - change (Z.log2 2) with 1.
    apply (f_equal (fun x => OK (PyFloat x))).
    eapply dyadic_eq; [| reflexivity | | |]; try lia.
    replace (E + 1 - E) with 1 by lia. change (2 ^ 1) with 2. lia.
Qed.

(** X13.  The attention model of [src/pa.py] computes without rounding
    error on realistic tiles.  For tiles [0 < qtile, kv_tile < 2 ^ 20] and
    either packed flag, [gemm] returns [qtile * kv_tile / 2] and [softmax]
    returns a breakdown whose entries are the exact quotients
    [intra_max = q*kv/32], [inter_max = (3568 + q)/8],
    [softmax_fma_exp = 5*q*kv/16] (packed: [9*q*kv/32]),
    [softmax_sum = q*kv/16] (packed: [q*kv/32]),
    [s_quant = 3*q*kv/16] (packed: [3*q*kv/32]),
    [reshape_s = (5*q*kv + 3200)/32] and
    [recompute_output = 2*q] (packed: [q]); each quotient is Python's
    [int / int] by a power of two, so it is the rational number itself. *)
Theorem attention_model_is_exact_B :
  forall (qtile kv_tile : Z) (is_packed : bool),
    0 < qtile < 2 ^ 20 -> 0 < kv_tile < 2 ^ 20 ->
    Pa.gemm qtile kv_tile = (qtile * kv_tile / 2)%py /\
    exists bd,
      Pa.softmax qtile kv_tile is_packed = OK bd /\
      entry_is bd "intra_max" (qtile * kv_tile / 32)%py /\
      entry_is bd "inter_max" ((3568 + qtile) / 8)%py /\
      entry_is bd "softmax_fma_exp"
        (if is_packed then 9 * (qtile * kv_tile) / 32
         else 5 * (qtile * kv_tile) / 16)%py /\
      entry_is bd "softmax_sum"
        (if is_packed then qtile * kv_tile / 32 else qtile * kv_tile / 16)%py /\
      entry_is bd "s_quant"
        (if is_packed then 3 * (qtile * kv_tile) / 32
         else 3 * (qtile * kv_tile) / 16)%py /\
      entry_is bd "reshape_s" ((5 * (qtile * kv_tile) + 3200) / 32)%py /\
      entry_is bd "recompute_output"
        (if is_packed then qtile / 1 else 2 * qtile / 1)%py.
Proof.
  intros q kv p Hq Hkv. pose proof (tiles_bound q kv Hq Hkv) as Hs.
  split.
  - rewrite Pa_gemm_value by assumption. symmetry.
    etransitivity; [ev | same_dyadic].
  - eexists. split; [apply Pa_softmax_value; assumption|].
    destruct p; repeat split; entry.
Qed.

(** X13 on [(48, 64)], the first call of the driver of [src/pa.py]. *)
Lemma attention_model_is_exact_B_witness :
  Pa.gemm 48 64 = (48 * 64 / 2)%py /\
  exists bd,
    Pa.softmax 48 64 false = OK bd /\
    entry_is bd "intra_max" (48 * 64 / 32)%py /\
    entry_is bd "inter_max" ((3568 + 48) / 8)%py /\
    entry_is bd "softmax_fma_exp" (5 * (48 * 64) / 16)%py /\
    entry_is bd "softmax_sum" (48 * 64 / 16)%py /\
    entry_is bd "s_quant" (3 * (48 * 64) / 16)%py /\
    entry_is bd "reshape_s" ((5 * (48 * 64) + 3200) / 32)%py /\
    entry_is bd "recompute_output" (2 * 48 / 1)%py.
Proof.
  apply (attention_model_is_exact_B 48 64 false); lia.
Defined.

(** X14.  The attention model of [src/400/pa.py] computes without
    rounding error on realistic tiles.  For tiles
    [0 < qtile, kv_tile < 2 ^ 20] and either packed flag, [gemm] returns
    [qtile * kv_tile / 16] and [softmax] returns a breakdown whose entries
    are the exact quotients [dequant = q*kv/32] (packed: [q*kv/64]),
    [intra_max = q*kv/64], [inter_max = q/4],
    [softmax_fma_exp = 3*q*kv/32] (packed: [5*q*kv/64]),
    [softmax_sum = q*kv/32] (packed: [q*kv/64]),
    [s_quant = q*kv/16] (packed: [q*kv/32]) and
    [recompute_output = 8*q] (packed: [4*q]). *)
Theorem attention_model_is_exact_A :
  forall (qtile kv_tile : Z) (is_packed : bool),
    0 < qtile < 2 ^ 20 -> 0 < kv_tile < 2 ^ 20 ->
    Pa400.gemm qtile kv_tile = (qtile * kv_tile / 16)%py /\
    exists bd,
      Pa400.softmax qtile kv_tile is_packed = OK bd /\
      entry_is bd "dequant"
        (if is_packed then qtile * kv_tile / 64 else qtile * kv_tile / 32)%py /\
      entry_is bd "intra_max" (qtile * kv_tile / 64)%py /\
      entry_is bd "inter_max" (qtile / 4)%py /\
      entry_is bd "softmax_fma_exp"
        (if is_packed then 5 * (qtile * kv_tile) / 64
         else 3 * (qtile * kv_tile) / 32)%py /\
      entry_is bd "softmax_sum"
        (if is_packed then qtile * kv_tile / 64 else qtile * kv_tile / 32)%py /\
      entry_is bd "s_quant"
        (if is_packed then qtile * kv_tile / 32 else qtile * kv_tile / 16)%py /\
      entry_is bd "recompute_output"
        (if is_packed then 4 * qtile / 1 else 8 * qtile / 1)%py.
Proof.
  intros q kv p Hq Hkv. pose proof (tiles_bound q kv Hq Hkv) as Hs.
  split.
  - rewrite Pa400_gemm_value by assumption. symmetry.
    etransitivity; [ev | same_dyadic].
  - eexists. split; [apply Pa400_softmax_value; assumption|].
    destruct p; repeat split; entry.
Qed.

(** X14 on [(16, 128)] packed, the first call of the driver of
    [src/400/pa.py]. *)
Lemma attention_model_is_exact_A_witness :
  Pa400.gemm 16 128 = (16 * 128 / 16)%py /\
  exists bd,
    Pa400.softmax 16 128 true = OK bd /\
    entry_is bd "dequant" (16 * 128 / 64)%py /\
    entry_is bd "intra_max" (16 * 128 / 64)%py /\
    entry_is bd "inter_max" (16 / 4)%py /\
    entry_is bd "softmax_fma_exp" (5 * (16 * 128) / 64)%py /\
    entry_is bd "softmax_sum" (16 * 128 / 64)%py /\
    entry_is bd "s_quant" (16 * 128 / 32)%py /\
    entry_is bd "recompute_output" (4 * 16 / 1)%py.
Proof.
  apply (attention_model_is_exact_A 16 128 true); lia.
Defined.

Lemma leb_of_some (a b v v' : pynum) :
  leb a b = true -> Some a = Some v -> Some b = Some v' -> leb v v' = true.
Proof. intros H [= <-] [= <-]. exact H. Qed.

Ltac each_key :=
  cbv beta iota; cbn [get];
  repeat (lazymatch goal with
          | |- (if ?b then _ else _) = _ -> _ => destruct b
          end;
          [apply leb_of_some; apply dyadic_leb; lia|]);
  intros; discriminate.

Ltac doubled :=
  cbv beta iota; do 2 eexists; split; [reflexivity|]; split; [reflexivity|];
  etransitivity; [apply dyadic_double; lia | apply dyadic_congr; [lia|reflexivity]].

(** X15.  Packing never costs more.  For tiles
    [0 < qtile, kv_tile < 2 ^ 20], in both generations, every entry of the
    breakdown with [is_packed=True] is at most the entry of the same key
    with [is_packed=False], as Python compares the floats; and packing
    halves [softmax_sum], [s_quant] and [recompute_output] (and [dequant]
    in [src/400/pa.py]) exactly: twice the packed entry is the unpacked
    one. *)
Theorem packing_never_costs_more :
  forall qtile kv_tile : Z,
    0 < qtile < 2 ^ 20 -> 0 < kv_tile < 2 ^ 20 ->
    (exists bd bd',
       Pa.softmax qtile kv_tile true = OK bd /\
       Pa.softmax qtile kv_tile false = OK bd' /\
       (forall key v v',
          get bd key = Some v -> get bd' key = Some v' -> leb v v' = true) /\
       (forall key,
          In key ["softmax_sum"; "s_quant"; "recompute_output"] ->
          exists v v',
            get bd key = Some v /\ get bd' key = Some v' /\
            mul v (PyInt 2) = OK v')) /\
    (exists bd bd',
       Pa400.softmax qtile kv_tile true = OK bd /\
       Pa400.softmax qtile kv_tile false = OK bd' /\
       (forall key v v',
          get bd key = Some v -> get bd' key = Some v' -> leb v v' = true) /\
       (forall key,
          In key ["dequant"; "softmax_sum"; "s_quant"; "recompute_output"] ->
          exists v v',
            get bd key = Some v /\ get bd' key = Some v' /\
            mul v (PyInt 2) = OK v')).
Proof.
  intros q kv Hq Hkv. pose proof (tiles_bound q kv Hq Hkv) as Hs.
  split.
  - do 2 eexists.
    split; [apply Pa_softmax_value; assumption|].
    split; [apply Pa_softmax_value; assumption|].
    split.
    + intros key v v'. each_key.
    + intros key. cbn [In]. intros [<-|[<-|[<-|[]]]]; doubled.
  - do 2 eexists.
    split; [apply Pa400_softmax_value; assumption|].
    split; [apply Pa400_softmax_value; assumption|].
    split.
    + intros key v v'. each_key.
    + intros key. cbn [In]. intros [<-|[<-|[<-|[<-|[]]]]]; doubled.
Qed.

(** X15 on [(48, 64)] in [src/pa.py]. *)
Lemma packing_never_costs_more_witness :
  exists bd bd',
    Pa.softmax 48 64 true = OK bd /\
    Pa.softmax 48 64 false = OK bd' /\
    (forall key v v',
       get bd key = Some v -> get bd' key = Some v' -> leb v v' = true) /\
    (forall key,
       In key ["softmax_sum"; "s_quant"; "recompute_output"] ->
       exists v v',
         get bd key = Some v /\ get bd' key = Some v' /\
         mul v (PyInt 2) = OK v').
Proof.
  apply (proj1 (packing_never_costs_more 48 64 ltac:(lia) ltac:(lia))).
Defined.

(** ** Further properties: the divisibility check *)

(** X16.  [_require_divisible(x, d, what)] for every divisor: it returns
    exactly when [d] is not zero and divides [x] (for negative [x] and [d]
    too, Python's [%] taking the sign of the divisor); when [d] is not zero
    and does not divide [x] it raises a [ValueError], which for [x] and [d]
    of at most 4300 digits carries the message that names [what], [d] and
    [x] (beyond that limit the formatting of the message raises the
    [ValueError] itself); and for [d = 0] it raises the
    [ZeroDivisionError] of [x % 0]. *)
Theorem require_divisible_spec :
  forall (x d : Z) (what : string),
    (_require_divisible x d what = OK tt <-> d <> 0 /\ (d | x)) /\
    (d <> 0 -> ~ (d | x) ->
       exists msg, _require_divisible x d what = Err (ValueError msg)) /\
    (d <> 0 -> ~ (d | x) -> str_digits_ok x -> str_digits_ok d ->
       _require_divisible x d what =
       Err (ValueError
              (what ++ " must be divisible by " ++ str d ++ ", got " ++ str x))) /\
    (d = 0 -> _require_divisible x d what = Err ZeroDivisionError).
Proof.
  intros x d what.
  assert (Hfail : d <> 0 -> ~ (d | x) ->
            _require_divisible x d what =
            Err (ValueError
                   (what ++ " must be divisible by " ++ str d ++ ", got " ++ str x))).
  { intros Hd Hx. apply require_divisible_fail; [assumption|].
    intros E. apply Hx. apply Z.mod_divide; assumption. }
  split; [|split; [|split]].
  - split.
    + intros H. destruct (Z.eq_dec d 0) as [->|Hd]; [discriminate H|].
      split; [assumption|]. apply Z.mod_divide; [assumption|].
      destruct (Z.eq_dec (x mod d) 0) as [E|E]; [assumption|].
      rewrite require_divisible_fail in H by assumption. discriminate.
    + intros [Hd Hx]. apply require_divisible_ok; [assumption|].
      apply Z.mod_divide; assumption.
  - intros Hd Hx. eexists. apply Hfail; assumption.
  - intros Hd Hx _ _. apply Hfail; assumption.
  - intros ->. reflexivity.
Qed.

(** X16 on [x = 250], [d = 16]. *)
Lemma require_divisible_spec_witness :
  _require_divisible 250 16 "tile_n" =
  Err (ValueError "tile_n must be divisible by 16, got 250").
Proof.
  apply (proj1 (proj2 (proj2 (require_divisible_spec 250 16 "tile_n")))).
  - discriminate.
  - intros [z Hz]. lia.
  - vm_compute; reflexivity.
  - vm_compute; reflexivity.
Defined.

(** ** Further properties: subtraction and floor division without rounding *)

Lemma binary_normalize_exact_0 (N e : Z) :
  0 < N < 2 ^ 53 -> -1074 <= Zdigits2 N + e - 53 ->
  Zdigits2 N + e - 53 <= 971 ->
  binary_normalize 53 1024 N e false = dyadic N e.
Proof.
  intros HN Hlo Hhi.
  rewrite <- (Z.mul_1_r N) at 1. change 1 with (2 ^ 0) at 1.
  rewrite binary_normalize_exact by lia. f_equal. lia.
Qed.

(** Subtracting two doubles whose difference has at most 53 significant
    bits. *)
Lemma fsub_dyadic (N1 E1 N2 E2 K j : Z) :
  0 < N1 < 2 ^ 53 -> 0 < N2 < 2 ^ 53 ->
  -900 <= E1 <= 900 -> -900 <= E2 <= 900 ->
  N1 * 2 ^ (E1 - Z.min E1 E2) - N2 * 2 ^ (E2 - Z.min E1 E2) = K * 2 ^ j ->
  0 <= j -> Z.min E1 E2 + j <= 900 -> 0 <= K < 2 ^ 53 ->
  fsub (dyadic N1 E1) (dyadic N2 E2)
  = if K =? 0 then S754_zero false else dyadic K (Z.min E1 E2 + j).
Proof.
  intros H1 H2 R1 R2 HK Hj Hj' HKb.
  destruct (dyadic_digits N1 E1 H1) as (m1 & -> & D1 & M1).
  destruct (dyadic_digits N2 E2 H2) as (m2 & -> & D2 & M2).
  pose proof (digits_53 N1 H1) as Hd1.
  pose proof (digits_53 N2 H2) as Hd2.
  unfold fsub, SFsub. cbv zeta.
  set (e1 := E1 - (53 - Zdigits2 N1)). set (e2 := E2 - (53 - Zdigits2 N2)).
  set (ez := Z.min e1 e2). set (E := Z.min E1 E2) in *.
  rewrite !shl_align_fst by (unfold ez; lia).
  cbn [cond_Zopp]. rewrite M1, M2.
  assert (HM : N1 * 2 ^ (53 - Zdigits2 N1) * 2 ^ (e1 - ez)
               - N2 * 2 ^ (53 - Zdigits2 N2) * 2 ^ (e2 - ez)
               = K * 2 ^ (j + (E - ez))).
  { rewrite <- !Z.mul_assoc, <- !Z.pow_add_r by (unfold ez, e1, e2; lia).
    replace (53 - Zdigits2 N1 + (e1 - ez)) with ((E1 - E) + (E - ez))
      by (unfold e1; lia).
    replace (53 - Zdigits2 N2 + (e2 - ez)) with ((E2 - E) + (E - ez))
      by (unfold e2; lia).
    rewrite !Z.pow_add_r by (unfold E, ez, e1, e2; lia).
    rewrite !Z.mul_assoc, <- Z.mul_sub_distr_r, HK. ring. }
  rewrite HM.
  destruct (Z.eqb_spec K 0) as [->|HK0].
  - reflexivity.
  - pose proof (digits_53 K ltac:(lia)) as HdK.
    rewrite binary_normalize_exact
      by (unfold E, ez, e1, e2 in *; lia).
    f_equal. lia.
Qed.

Lemma ffloor_dyadic_int (K : Z) :
  0 < K < 2 ^ 53 -> ffloor (dyadic K 0) = dyadic K 0.
Proof.
  intros HK. pose proof (digits_53 K HK) as Hd.
  destruct (dyadic_digits K 0 HK) as (m & Hm & D & M).
  rewrite Hm. unfold ffloor.
  destruct (Z.leb_spec 0 (0 - (53 - Zdigits2 K))) as [Hle|Hgt]; [reflexivity|].
  rewrite M.
  replace (- (0 - (53 - Zdigits2 K))) with (53 - Zdigits2 K) by lia.
  rewrite Z.div_mul by (apply Z.pow_nonzero; lia).
  destruct K as [|p|p] eqn:EK; try lia.
  rewrite <- EK in *. rewrite binary_normalize_exact_0 by lia.
  exact Hm.
Qed.


(** C's [fmod] of a double by [2 ^ k]: zero or a double below [2 ^ k],
    and what is left is a multiple of [2 ^ k]. *)
Lemma fmod_pow2 (N E k : Z) :
  0 < N < 2 ^ 53 -> -800 <= E <= 0 -> 0 <= k <= 100 ->
  let K := N / 2 ^ (k - E) in
  let rem := ffmod (dyadic N E)
               (S754_finite false 4503599627370496 (k - 52)) in
  fltb rem fzero = false /\
  fsub (dyadic N E) rem = if K =? 0 then S754_zero false else dyadic K k.
Proof.
  intros HN HE Hk K rem. pose proof (digits_53 N HN) as Hd.
  assert (Hp : 0 < 2 ^ (k - E)) by (apply Z.pow_pos_nonneg; lia).
  assert (HK0 : 0 <= K) by (apply Z.div_pos; lia).
  assert (HKN : K <= N) by (apply Z.div_le_upper_bound; nia).
  pose proof (Z.div_mod N (2 ^ (k - E)) ltac:(lia)) as HDM. fold K in HDM.
  pose proof (Z.mod_pos_bound N (2 ^ (k - E)) Hp) as HR.
  set (R := N mod 2 ^ (k - E)) in *.
  destruct (dyadic_digits N E HN) as (m & Hm & D & M).
  unfold rem. rewrite Hm at 1 3. unfold ffmod.
  set (ex := E - (53 - Zdigits2 N)).
  set (e0 := Z.min ex (k - 52)).
  assert (He0 : e0 <= ex /\ e0 <= k - 52 /\ e0 <= E /\ -900 <= e0)
    by (unfold e0, ex; lia).
  assert (HA : Zpos m * 2 ^ (ex - e0) = N * 2 ^ (E - e0)).
  { rewrite M, <- Z.mul_assoc, <- Z.pow_add_r by lia.
    do 2 f_equal. unfold ex. lia. }
  assert (HB : 4503599627370496 * 2 ^ (k - 52 - e0)
               = 2 ^ (k - E) * 2 ^ (E - e0)).
  { rewrite <- pow2_52, <- !Z.pow_add_r by lia. f_equal. lia. }
  rewrite HA, HB.
  assert (Hq : 0 < 2 ^ (E - e0)) by (apply Z.pow_pos_nonneg; lia).
  rewrite Z.mul_mod_distr_r by lia. fold R.
  destruct (Z.eq_dec R 0) as [HR0|HR0].
  - rewrite HR0, Z.mul_0_l. split; [reflexivity|].
    rewrite Hm. cbn [fsub SFsub]. rewrite <- Hm.
    assert (HNK : N = K * 2 ^ (k - E)) by lia.
    replace (K =? 0) with false by (symmetry; apply Z.eqb_neq; nia).
    rewrite HNK at 1. replace E with (k - (k - E)) at 2 by lia.
    apply dyadic_scale; nia || lia.
  - assert (HRq : 0 < R * 2 ^ (E - e0)) by nia.
    assert (HRb : R * 2 ^ (E - e0) < 2 ^ 53).
    { destruct (Z.eq_dec e0 ex) as [Hex|Hex].
      - assert (R * 2 ^ (E - e0) <= N * 2 ^ (E - e0)) by nia.
        rewrite <- HA in *. rewrite Hex, Z.sub_diag, Z.mul_1_r in *.
        pose proof (Zdigits2_bounds (Zpos m) ltac:(lia)) as HBm.
        rewrite D in HBm. lia.
      - assert (e0 = k - 52) by lia.
        assert (R * 2 ^ (E - e0) < 2 ^ (k - E) * 2 ^ (E - e0)) by nia.
        rewrite <- HB in *.
        replace (k - 52 - e0) with 0 in * by lia.
        rewrite pow2_53. lia. }
    destruct (R * 2 ^ (E - e0)) as [|p|p] eqn:Er; try lia.
    rewrite <- Er.
    pose proof (digits_53 (R * 2 ^ (E - e0)) ltac:(lia)) as HdR.
    rewrite binary_normalize_exact_0 by lia.
    split; [reflexivity|].
    rewrite (fsub_dyadic N E (R * 2 ^ (E - e0)) e0 K (k - e0)); try lia.
    + rewrite Z.min_r by lia. replace (e0 + (k - e0)) with k by lia.
      reflexivity.
    + rewrite Z.min_r by lia. rewrite Z.sub_diag, Z.mul_1_r.
      replace (k - e0) with ((k - E) + (E - e0)) by lia.
      rewrite Z.pow_add_r by lia. nia.
Qed.

(** [float // 2 ^ k] on a double without rounding error: the floor of the
    quotient, as a double. *)
Lemma float_floordiv_pow2 (N E k : Z) :
  0 < N < 2 ^ 53 -> -800 <= E <= 0 -> 0 <= k <= 100 ->
  float_floordiv (dyadic N E) (S754_finite false 4503599627370496 (k - 52))
  = OK (zfloat (N / 2 ^ (k - E))).
Proof.
  intros HN HE Hk.
  destruct (fmod_pow2 N E k HN HE Hk) as [Hlt Hsub].
  cbv zeta in Hlt, Hsub.
  assert (Hp : 0 < 2 ^ (k - E)) by (apply Z.pow_pos_nonneg; lia).
  assert (HK0 : 0 <= N / 2 ^ (k - E)) by (apply Z.div_pos; lia).
  assert (HKN : N / 2 ^ (k - E) <= N) by (apply Z.div_le_upper_bound; nia).
  set (K := N / 2 ^ (k - E)) in *.
  unfold float_floordiv. cbn [is_zero]. cbv zeta.
  rewrite Hsub, Hlt.
  change (fltb (S754_finite false 4503599627370496 (k - 52)) fzero) with false.
  cbn [xorb]. rewrite Bool.andb_false_r.
  unfold zfloat.
  destruct (Z.eqb_spec K 0) as [HK|HK].
  - change (fdiv (S754_zero false) (S754_finite false 4503599627370496 (k - 52)))
      with (S754_zero false).
    cbn [is_zero negb].
    rewrite fdiv_dyadic by lia. reflexivity.
  - rewrite fdiv_dyadic by lia. rewrite Z.sub_diag.
    destruct (dyadic_digits K 0 ltac:(lia)) as (m & Hm & _).
    rewrite Hm at 1. cbn [is_zero negb].
    rewrite ffloor_dyadic_int by lia.
    rewrite (fsub_dyadic K 0 K 0 0 0) by lia.
    reflexivity.
Qed.

(** Multiplying two doubles whose product has at most 53 significant
    bits. *)
Lemma fmul_dyadic (N1 E1 N2 E2 : Z) :
  0 < N1 -> 0 < N2 -> N1 * N2 < 2 ^ 53 ->
  -500 <= E1 <= 400 -> -500 <= E2 <= 400 ->
  fmul (dyadic N1 E1) (dyadic N2 E2) = dyadic (N1 * N2) (E1 + E2).
Proof.
  intros H1 H2 Hb R1 R2.
  assert (B1 : 0 < N1 < 2 ^ 53) by nia.
  assert (B2 : 0 < N2 < 2 ^ 53) by nia.
  destruct (dyadic_digits N1 E1 B1) as (m1 & -> & D1 & M1).
  destruct (dyadic_digits N2 E2 B2) as (m2 & -> & D2 & M2).
  pose proof (digits_53 N1 B1) as Hd1.
  pose proof (digits_53 N2 B2) as Hd2.
  pose proof (digits_53 (N1 * N2) ltac:(nia)) as Hd.
  unfold fmul, SFmul. cbn [xorb].
  rewrite Pos2Z.inj_mul, M1, M2.
  set (j := (53 - Zdigits2 N1) + (53 - Zdigits2 N2)).
  replace (N1 * 2 ^ (53 - Zdigits2 N1) * (N2 * 2 ^ (53 - Zdigits2 N2)))
    with (N1 * N2 * 2 ^ j)
    by (unfold j; rewrite Z.pow_add_r by lia; ring).
  assert (HD : Zdigits2 (N1 * N2 * 2 ^ j) = Zdigits2 (N1 * N2) + j)
    by (apply Zdigits2_mul_pow2; unfold j; nia || lia).
  assert (Hge : 105 <= Zdigits2 (N1 * N2 * 2 ^ j)).
  { apply (Zdigits2_ge _ 104); [lia|].
    replace (N1 * N2 * 2 ^ j) with (Zpos m1 * Zpos m2)
      by (rewrite M1, M2; unfold j; rewrite Z.pow_add_r by lia; ring).
    pose proof (Zdigits2_bounds (Zpos m1) ltac:(lia)) as X1.
    pose proof (Zdigits2_bounds (Zpos m2) ltac:(lia)) as X2.
    rewrite D1 in X1. rewrite D2 in X2. change (53 - 1) with 52 in *.
    replace (2 ^ 104) with (2 ^ 52 * 2 ^ 52) by reflexivity.
    apply Z.mul_le_mono_nonneg; lia. }
  assert (0 < 2 ^ j) by (apply Z.pow_pos_nonneg; unfold j; lia).
  rewrite binary_round_aux_exact by (rewrite ?HD; unfold j in *; nia || lia).
  unfold norm_round. cbv zeta. rewrite HD.
  rewrite rne_exact by (unfold j in *; lia).
  replace (j - (Zdigits2 (N1 * N2) + j - 53)) with (53 - Zdigits2 (N1 * N2))
    by lia.
  destruct (dyadic_mantissa (N1 * N2) ltac:(nia)) as [[A1 A2] _].
  replace (N1 * N2 * 2 ^ (53 - Zdigits2 (N1 * N2)) <? 2 ^ 53) with true
    by (symmetry; apply Z.ltb_lt; lia).
  unfold pack, dyadic. cbn [fst snd]. cbv zeta.
  match goal with |- (if ?c then _ else _) = _ =>
    replace c with true by (symmetry; apply Z.leb_le; unfold j; lia) end.
  f_equal. unfold j. lia.
Qed.

Lemma ev_mul_fi_any (x y : expr) (N E z : Z) :
  x = OK (PyFloat (dyadic N E)) -> y = OK (PyInt z) ->
  0 < N -> 0 < z -> N * z < 2 ^ 53 -> -500 <= E <= 400 ->
  emul x y = OK (PyFloat (dyadic (N * z) E)).
Proof.
  intros -> -> HN Hz Hb HE.
  unfold emul, lift2, mul, arith, as_float. cbn [bind].
  rewrite float_of_int_dyadic by nia. cbn [bind].
  rewrite fmul_dyadic by lia. rewrite Z.add_0_r. reflexivity.
Qed.

Lemma ev_div_ff (x y : expr) (N E e E' : Z) :
  x = OK (PyFloat (dyadic N E)) ->
  y = OK (PyFloat (S754_finite false 4503599627370496 e)) ->
  E - (e + 52) = E' -> 0 < N < 2 ^ 53 -> -900 <= E' <= 900 ->
  etruediv x y = OK (PyFloat (dyadic N E')).
Proof.
  intros -> -> <- HN HE.
  unfold etruediv, lift2, truediv, as_float. cbn [bind].
  unfold float_truediv. cbn [is_zero bind].
  replace e with ((e + 52) - 52) at 1 by lia.
  rewrite fdiv_dyadic by lia. reflexivity.
Qed.

Lemma ev_floordiv_fi (x y : expr) (N E b c : Z) :
  x = OK (PyFloat (dyadic N E)) -> y = OK (PyInt b) -> 2 ^ Z.log2 b = b ->
  2 ^ (Z.log2 b - E) = c ->
  0 < N < 2 ^ 53 -> -800 <= E <= 0 -> Z.log2 b <= 100 ->
  efloordiv x y = OK (PyFloat (zfloat (N / c))).
Proof.
  intros -> -> Hb <- HN HE Hk.
  pose proof (Z.log2_nonneg b).
  unfold efloordiv, lift2, floordiv, as_float. cbn [bind].
  rewrite <- Hb at 1. rewrite float_of_pow2 by lia. cbn [bind].
  rewrite float_floordiv_pow2 by lia. reflexivity.
Qed.

Lemma dyadic_compare (A B E : Z) :
  0 < A < 2 ^ 53 -> 0 < B < 2 ^ 53 ->
  compare (PyFloat (dyadic A E)) (PyFloat (dyadic B E)) = Some (A ?= B).
Proof.
  intros HA HB.
  pose proof (digits_53 A HA) as DA. pose proof (digits_53 B HB) as DB.
  destruct (dyadic_mantissa A HA) as [[A1 A2] _].
  destruct (dyadic_mantissa B HB) as [[B1 B2] _].
  rewrite pow2_52 in A1, B1.
  unfold compare, dyadic, SFcompare. cbv zeta. f_equal.
  change (Pos.compare_cont Eq ?a ?b) with (a ?= b)%positive.
  rewrite <- Z2Pos.inj_compare by lia.
  destruct (Z.compare_spec A B) as [->|Hlt|Hgt].
  - rewrite !Z.compare_refl. reflexivity.
  - pose proof (Zdigits2_mono A B ltac:(lia) ltac:(lia)) as Hd.
    destruct (Z.eq_dec (Zdigits2 A) (Zdigits2 B)) as [Heq|Hne].
    + rewrite Heq, Z.compare_refl.
      assert (0 < 2 ^ (53 - Zdigits2 B)) by (apply Z.pow_pos_nonneg; lia).
      apply Z.compare_lt_iff. nia.
    + replace (E - (53 - Zdigits2 A) ?= E - (53 - Zdigits2 B)) with Lt
        by (symmetry; apply Z.compare_lt_iff; lia).
      reflexivity.
  - pose proof (Zdigits2_mono B A ltac:(lia) ltac:(lia)) as Hd.
    destruct (Z.eq_dec (Zdigits2 A) (Zdigits2 B)) as [Heq|Hne].
    + rewrite Heq, Z.compare_refl.
      assert (0 < 2 ^ (53 - Zdigits2 B)) by (apply Z.pow_pos_nonneg; lia).
      apply Z.compare_gt_iff. nia.
    + replace (E - (53 - Zdigits2 A) ?= E - (53 - Zdigits2 B)) with Gt
        by (symmetry; apply Z.compare_gt_iff; lia).
      reflexivity.
Qed.

Lemma ev_max (x y : expr) (N1 E1 N2 E2 E c1 c2 : Z) :
  x = OK (PyFloat (dyadic N1 E1)) -> y = OK (PyFloat (dyadic N2 E2)) ->
  Z.min E1 E2 = E -> 2 ^ (E1 - E) = c1 -> 2 ^ (E2 - E) = c2 ->
  0 < N1 -> 0 < N2 -> N1 * c1 < 2 ^ 53 -> N2 * c2 < 2 ^ 53 ->
  emax x y = OK (PyFloat (dyadic (Z.max (N1 * c1) (N2 * c2)) E)).
Proof.
  intros -> -> HE H1 H2 P1 P2 B1 B2.
  assert (0 < c1) by (subst c1; apply Z.pow_pos_nonneg; lia).
  assert (0 < c2) by (subst c2; apply Z.pow_pos_nonneg; lia).
  unfold emax. cbn [bind]. unfold max2, gtb, ltb.
  rewrite (dyadic_rescale N1 E1 E c1) by (assumption || lia).
  rewrite (dyadic_rescale N2 E2 E c2) by (assumption || lia).
  rewrite dyadic_compare by nia.
  destruct (Z.compare_spec (N1 * c1) (N2 * c2)) as [Heq|Hlt|Hgt].
  - rewrite Z.max_l by lia. reflexivity.
  - rewrite Z.max_r by lia. reflexivity.
  - rewrite Z.max_l by lia. reflexivity.
Qed.

Lemma int_truediv_1 (K : Z) :
  0 <= K < 2 ^ 53 -> int_truediv K 1 = OK (zfloat K).
Proof.
  intros HK. unfold zfloat. destruct (Z.eqb_spec K 0) as [->|Hn].
  - reflexivity.
  - change 1 with (2 ^ 0) at 1. rewrite int_truediv_pow2 by lia. reflexivity.
Qed.

Ltac evm :=
  lazymatch goal with
  | |- etruediv _ _ = _ =>
      first [ eapply ev_div_fi; [evm | reflexivity | closed | closed | lia | lia | cbv; discriminate]
            | eapply ev_div_ff; [evm | reflexivity | closed | lia | lia]
            | eapply ev_div_ii; [reflexivity | reflexivity | closed | closed | Z.div_mod_to_equations; lia | lia] ]
  | |- emul _ _ = _ =>
      first [ eapply ev_mul_fi; [evm | reflexivity | closed | closed | lia | lia | cbv; discriminate]
            | eapply ev_mul_fi_any; [evm | reflexivity | lia | lia | lia | lia] ]
  | |- eadd _ _ = _ =>
      first [ eapply ev_add_ff; [evm | evm | closed | closed | closed | lia | lia | lia | lia]
            | eapply ev_add_fi; [evm | reflexivity | closed | lia | lia | lia | lia | lia]
            | eapply ev_add_if; [reflexivity | evm | closed | lia | lia | lia | lia | lia] ]
  | |- emax _ _ = _ =>
      eapply ev_max; [evm | evm | closed | closed | closed | lia | lia | lia | lia]
  | |- efloordiv _ _ = _ =>
      eapply ev_floordiv_fi; [evm | reflexivity | closed | closed | lia | lia | cbv; discriminate]
  | |- _ => reflexivity
  end.

Ltac stepm :=
  lazymatch goal with
  | |- context [bind ?c _] =>
      let H := fresh "H" in
      first [ eassert (H : c = OK (PyFloat (dyadic _ _))); [evm|]
            | eassert (H : c = OK (PyFloat (zfloat _))); [evm|] ];
      rewrite H; cbn [bind]; clear H
  end.

Lemma tiles3_bound (a b c : Z) :
  0 < a < 2 ^ 16 -> 0 < b < 2 ^ 16 -> 0 < c < 2 ^ 16 ->
  0 < a * b < 2 ^ 32 /\ 0 < a * b * c < 2 ^ 48.
Proof.
  intros Ha Hb Hc.
  assert (H1 : 0 < a * b < 2 ^ 32).
  { split; [nia|]. replace (2 ^ 32) with (2 ^ 16 * 2 ^ 16) by reflexivity.
    apply Z.mul_lt_mono_nonneg; lia. }
  split; [exact H1|]. split; [nia|].
  replace (2 ^ 48) with (2 ^ 32 * 2 ^ 16) by reflexivity.
  apply Z.mul_lt_mono_nonneg; lia.
Qed.

Lemma ev_div_i1 (x : expr) (K : Z) :
  x = OK (PyInt K) -> 0 <= K < 2 ^ 53 ->
  etruediv x (OK (PyInt 1)) = OK (PyFloat (zfloat K)).
Proof.
  intros -> HK. unfold etruediv, lift2, truediv. cbn [bind].
  rewrite int_truediv_1 by assumption. reflexivity.
Qed.

Ltac entry_dyadic :=
  eexists; split; [reflexivity|];
  etransitivity; [evm | same_dyadic].

Ltac entry_floor :=
  eexists; split; [reflexivity|];
  etransitivity;
  [ eapply ev_div_i1; [reflexivity | Z.div_mod_to_equations; lia]
  | apply (f_equal (fun K => OK (PyFloat (zfloat K))));
    Z.div_mod_to_equations; lia ].

(** X17.  The float entries of the tile metrics carry no rounding error
    on realistic tiles.  For [tile_k] divisible by 32, [tile_n] divisible
    by 16 and [0 < tile_m, tile_n, tile_k < 2 ^ 16] the function returns,
    and [compute cycles = m*n*k/16384], [lds b inst = float(n*k // 2048)],
    [lds scale inst = float((4*m*k + n*k) // 16384)],
    [wave lds latency time = (m*(k+16) + k*n//4)/128],
    [acc reg = m*n/128], [a regs = m*k/128], [b regs = n*k/512] and
    [reg per msb = (2*m*n + max(4*m*k, n*k))/1024]: the two floor
    divisions on floats give the floor of the exact quotient, and every
    other entry is the exact quotient. *)
Theorem tile_metrics_are_exact :
  forall tile_m tile_n tile_k : Z,
    tile_k mod 32 = 0 -> tile_n mod 16 = 0 ->
    0 < tile_m < 2 ^ 16 -> 0 < tile_n < 2 ^ 16 -> 0 < tile_k < 2 ^ 16 ->
    exists mt,
      fp8fp8_tile_metrics tile_m tile_n tile_k = OK mt /\
      entry_is mt "compute cycles" (tile_m * tile_n * tile_k / 16384)%py /\
      entry_is mt "lds b inst" (tile_n * tile_k // 2048 / 1)%py /\
      entry_is mt "lds scale inst"
        ((4 * (tile_m * tile_k) + tile_n * tile_k) // 16384 / 1)%py /\
      entry_is mt "wave lds latency time"
        ((tile_m * (tile_k + 16) + tile_k * tile_n // 4) / 128)%py /\
      entry_is mt "acc reg" (tile_m * tile_n / 128)%py /\
      entry_is mt "a regs" (tile_m * tile_k / 128)%py /\
      entry_is mt "b regs" (tile_n * tile_k / 512)%py /\
      entry_is mt "reg per msb"
        (PyInt (2 * (tile_m * tile_n)
                + Z.max (4 * (tile_m * tile_k)) (tile_n * tile_k)) / 1024)%py.
Proof.
  intros tile_m tile_n tile_k Hk Hn Bm Bn Bk.
  destruct (tiles3_bound tile_m tile_n tile_k Bm Bn Bk) as [Bmn Bmnk].
  destruct (tiles3_bound tile_m tile_k tile_n Bm Bk Bn) as [Bmk _].
  destruct (tiles3_bound tile_n tile_k tile_m Bn Bk Bm) as [Bnk _].
  unfold fp8fp8_tile_metrics.
  rewrite !require_divisible_ok by (assumption || lia). cbn [bind].
  unfold A_LDS_PAD, BLOCK_SIZE, LDS_BYTES_PER_CYCLE.
  change F8_MFMA_THROUGHPUT
    with (OK (PyFloat (S754_finite false 4503599627370496 (-40)))).
  do 6 bind_int.
  stepm.
  cbv zeta.
  do 3 bind_int.
  do 2 stepm.
  bind_int.
  do 5 stepm.
  change LDS_CAP_BYTES with (OK (PyInt 327680)).
  unfold etruediv at 1. unfold lift2, truediv. cbn [bind pure].
  match goal with |- context [int_truediv 327680 ?t] =>
    destruct (int_truediv_returns 327680 t
                ltac:(Z.div_mod_to_equations; nia) ltac:(reflexivity))
      as (st & -> & _)
  end.
  cbn [bind]. eexists. split; [reflexivity|].
  repeat split; first [entry_dyadic | entry_floor].
Qed.

(** X17 on the tile [64 x 256 x 128]. *)
Lemma tile_metrics_are_exact_witness :
  exists mt,
    fp8fp8_tile_metrics 64 256 128 = OK mt /\
    entry_is mt "compute cycles" (64 * 256 * 128 / 16384)%py /\
    entry_is mt "lds b inst" (256 * 128 // 2048 / 1)%py /\
    entry_is mt "lds scale inst" ((4 * (64 * 128) + 256 * 128) // 16384 / 1)%py /\
    entry_is mt "wave lds latency time"
      ((64 * (128 + 16) + 128 * 256 // 4) / 128)%py /\
    entry_is mt "acc reg" (64 * 256 / 128)%py /\
    entry_is mt "a regs" (64 * 128 / 128)%py /\
    entry_is mt "b regs" (256 * 128 / 512)%py /\
    entry_is mt "reg per msb"
      (PyInt (2 * (64 * 256) + Z.max (4 * (64 * 128)) (256 * 128)) / 1024)%py.
Proof.
  apply (tile_metrics_are_exact 64 256 128); try reflexivity; lia.
Defined.

(** ** Further properties: the totals without rounding *)

Lemma ev_sub_ff (x y : expr) (N1 E1 N2 E2 E c1 c2 : Z) :
  x = OK (PyFloat (dyadic N1 E1)) -> y = OK (PyFloat (dyadic N2 E2)) ->
  Z.min E1 E2 = E -> 2 ^ (E1 - E) = c1 -> 2 ^ (E2 - E) = c2 ->
  0 < N1 < 2 ^ 53 -> 0 < N2 < 2 ^ 53 ->
  0 < N1 * c1 - N2 * c2 < 2 ^ 53 ->
  -900 <= E1 <= 900 -> -900 <= E2 <= 900 ->
  esub x y = OK (PyFloat (dyadic (N1 * c1 - N2 * c2) E)).
Proof.
  intros -> -> HE H1 H2 P1 P2 Hb R1 R2.
  unfold esub, lift2, sub, arith, as_float. cbn [bind].
  rewrite (fsub_dyadic N1 E1 N2 E2 (N1 * c1 - N2 * c2) 0);
    try (rewrite ?HE; lia).
  replace (N1 * c1 - N2 * c2 =? 0) with false
    by (symmetry; apply Z.eqb_neq; lia).
  rewrite HE, Z.add_0_r. reflexivity.
Qed.


Lemma sum_dyadic_from (Ns : list Z) (E acc : Z) :
  0 < acc -> Forall (fun N => 0 < N) Ns -> acc + zsum Ns < 2 ^ 53 ->
  -1000 <= E <= 900 ->
  fold_left (fun c x => a <- c ;; add a x)
    (map (fun N => PyFloat (dyadic N E)) Ns) (OK (PyFloat (dyadic acc E)))
  = OK (PyFloat (dyadic (acc + zsum Ns) E)).
Proof.
  intros Hacc HNs. revert acc Hacc.
  induction HNs as [|N Ns HN HNs IH]; intros acc Hacc Hb HE; cbn [map fold_left zsum] in *.
  - rewrite Z.add_0_r. reflexivity.
  - assert (Hz : 0 <= zsum Ns).
    { clear -HNs. induction HNs; cbn [zsum]; lia. }
    cbn [bind]. unfold add, arith, as_float. cbn [bind].
    rewrite fadd_dyadic by lia.
    rewrite IH by lia. do 3 f_equal. lia.
Qed.

Lemma sum_dyadic (N : Z) (Ns : list Z) (E : Z) :
  0 < N -> Forall (fun N => 0 < N) Ns -> N + zsum Ns < 2 ^ 53 ->
  -1000 <= E <= 900 ->
  sum (map (fun N => PyFloat (dyadic N E)) (N :: Ns))
  = OK (PyFloat (dyadic (N + zsum Ns) E)).
Proof.
  intros HN HNs Hb HE. unfold sum. cbn [map fold_left bind].
  change (add (PyInt 0) (PyFloat (dyadic N E))) with (OK (PyFloat (dyadic N E))).
  apply sum_dyadic_from; assumption.
Qed.

Lemma dyadic_lt (N1 E1 N2 E2 E c1 c2 : Z) :
  Z.min E1 E2 = E -> 2 ^ (E1 - E) = c1 -> 2 ^ (E2 - E) = c2 ->
  0 < N1 -> 0 < N2 -> N1 * c1 < N2 * c2 -> N2 * c2 < 2 ^ 53 ->
  ltb (PyFloat (dyadic N1 E1)) (PyFloat (dyadic N2 E2)) = true.
Proof.
  intros HE H1 H2 P1 P2 Hlt Hb.
  assert (0 < c1) by (subst c1; apply Z.pow_pos_nonneg; lia).
  assert (0 < c2) by (subst c2; apply Z.pow_pos_nonneg; lia).
  rewrite (dyadic_rescale N1 E1 E c1) by (assumption || lia).
  rewrite (dyadic_rescale N2 E2 E c2) by (assumption || lia).
  unfold ltb. rewrite dyadic_compare by nia.
  replace (N1 * c1 ?= N2 * c2) with Lt
    by (symmetry; apply Z.compare_lt_iff; assumption).
  reflexivity.
Qed.

Ltac evt :=
  lazymatch goal with
  | |- etruediv _ _ = _ =>
      first [ eapply ev_div_fi; [evt | reflexivity | closed | closed | lia | lia | cbv; discriminate]
            | eapply ev_div_ii; [reflexivity | reflexivity | closed | closed | lia | lia] ]
  | |- emul _ _ = _ =>
      first [ eapply ev_mul_fi; [evt | reflexivity | closed | closed | lia | lia | cbv; discriminate]
            | eapply ev_mul_fi_any; [evt | reflexivity | lia | lia | lia | lia] ]
  | |- eadd _ _ = _ =>
      eapply ev_add_ff; [evt | evt | closed | closed | closed | lia | lia | lia | lia]
  | |- esub _ _ = _ =>
      eapply ev_sub_ff; [evt | evt | closed | closed | closed | lia | lia | lia | lia | lia]
  | |- _ => reflexivity
  end.

Ltac stept :=
  lazymatch goal with
  | |- context [bind ?c _] =>
      let H := fresh "H" in
      eassert (H : c = OK (PyFloat (dyadic _ _))); [evt | rewrite H; cbn [bind]; clear H]
  end.

Ltac sum_step E :=
  cbv beta iota;
  lazymatch goal with
  | |- context [bind (sum ?l) _] =>
      let H := fresh "H" in
      eassert (H : sum l = OK (PyFloat (dyadic _ E)));
      [ apply (sum_dyadic _ [_; _; _; _; _; _] E);
        [lia | repeat constructor; lia | cbn [zsum]; lia | lia]
      | rewrite H; cbn [bind zsum]; clear H ]
  end.

Ltac total_is := etransitivity; [evt | same_dyadic].

Ltac below := eapply dyadic_lt; [closed | closed | closed | lia | lia | lia | lia].

(** X18.  The totals of [print_performance_table] in [src/pa.py] on
    realistic tiles.  For [0 < qtile, kv_tile < 2 ^ 20] and every flag the
    computation returns; with [s = qtile * kv_tile] and
    [t = 24*s + 68*qtile + 17472] (or [19*s + 36*qtile + 17472] when the
    effective [is_packed] is true) the softmax total is [t / 32], the
    total is [(16*s + t) / 32] and the co-execution total is
    [(20*s + t) / 64], all without rounding error; and
    [gemm_cycles < tot_cycles_coexe < tot_cycles] as Python compares the
    floats. *)
Theorem pipeline_totals_are_exact_B :
  forall (qtile kv_tile : Z) (co_exe is_packed : bool),
    0 < qtile < 2 ^ 20 -> 0 < kv_tile < 2 ^ 20 ->
    let s := qtile * kv_tile in
    let t := if (if co_exe then false else is_packed)
             then 19 * s + 36 * qtile + 17472
             else 24 * s + 68 * qtile + 17472 in
    exists r,
      Pa.print_performance_table qtile kv_tile co_exe is_packed = OK r /\
      (PyInt t / 32)%py = OK (softmax_total r) /\
      (PyInt (16 * s + t) / 32)%py = OK (tot_cycles r) /\
      (PyInt (20 * s + t) / 64)%py = OK (tot_cycles_coexe r) /\
      ltb (gemm_cycles r) (tot_cycles_coexe r) = true /\
      ltb (tot_cycles_coexe r) (tot_cycles r) = true.
Proof.
  intros q kv co p Hq Hkv s t.
  pose proof (tiles_bound q kv Hq Hkv) as Hs. fold s in Hs.
  unfold Pa.print_performance_table. cbv zeta.
  rewrite Pa_softmax_value, Pa_gemm_value by assumption. cbn [bind].
  fold s. subst t.
  destruct (if co then false else p).
  - sum_step (-5).
    repeat stept.
    eexists. split; [reflexivity|]. cbn [softmax_total tot_cycles tot_cycles_coexe gemm_cycles].
    repeat split; first [total_is | below].
  - sum_step (-5).
    repeat stept.
    eexists. split; [reflexivity|]. cbn [softmax_total tot_cycles tot_cycles_coexe gemm_cycles].
    repeat split; first [total_is | below].
Qed.

(** X18 on [(48, 32)] under co-execution, the second call of the driver
    of [src/pa.py]. *)
Lemma pipeline_totals_are_exact_B_witness :
  exists r,
    Pa.print_performance_table 48 32 true false = OK r /\
    (PyInt 57600 / 32)%py = OK (softmax_total r) /\
    (PyInt 82176 / 32)%py = OK (tot_cycles r) /\
    (PyInt 88320 / 64)%py = OK (tot_cycles_coexe r) /\
    ltb (gemm_cycles r) (tot_cycles_coexe r) = true /\
    ltb (tot_cycles_coexe r) (tot_cycles r) = true.
Proof.
  apply (pipeline_totals_are_exact_B 48 32 true false); lia.
Defined.

(** X19.  The totals of [print_performance_table] in [src/400/pa.py] on
    realistic tiles.  For [0 < qtile, kv_tile < 2 ^ 20] and every flag the
    computation returns; with [s = qtile * kv_tile] and
    [t = 15*s + 528*qtile] (or [10*s + 272*qtile] when the effective
    [is_packed] is true) the softmax total is [t / 64], the total is
    [(4*s + t) / 64] and the co-execution total is [(5*s + t) / 128], all
    without rounding error; and
    [gemm_cycles < tot_cycles_coexe < tot_cycles] as Python compares the
    floats. *)
Theorem pipeline_totals_are_exact_A :
  forall (qtile kv_tile : Z) (co_exe is_packed : bool),
    0 < qtile < 2 ^ 20 -> 0 < kv_tile < 2 ^ 20 ->
    let s := qtile * kv_tile in
    let t := if (if co_exe then false else is_packed)
             then 10 * s + 272 * qtile
             else 15 * s + 528 * qtile in
    exists r,
      Pa400.print_performance_table qtile kv_tile co_exe is_packed = OK r /\
      (PyInt t / 64)%py = OK (softmax_total r) /\
      (PyInt (4 * s + t) / 64)%py = OK (tot_cycles r) /\
      (PyInt (5 * s + t) / 128)%py = OK (tot_cycles_coexe r) /\
      ltb (gemm_cycles r) (tot_cycles_coexe r) = true /\
      ltb (tot_cycles_coexe r) (tot_cycles r) = true.
Proof.
  intros q kv co p Hq Hkv s t.
  pose proof (tiles_bound q kv Hq Hkv) as Hs. fold s in Hs.
  unfold Pa400.print_performance_table. cbv zeta.
  rewrite Pa400_softmax_value, Pa400_gemm_value by assumption. cbn [bind].
  fold s. subst t.
  destruct (if co then false else p).
  - sum_step (-6).
    repeat stept.
    eexists. split; [reflexivity|]. cbn [softmax_total tot_cycles tot_cycles_coexe gemm_cycles].
    repeat split; first [total_is | below].
  - sum_step (-6).
    repeat stept.
    eexists. split; [reflexivity|]. cbn [softmax_total tot_cycles tot_cycles_coexe gemm_cycles].
    repeat split; first [total_is | below].
Qed.

(** X19 on [(16, 128)] packed, the first call of the driver of
    [src/400/pa.py]. *)
Lemma pipeline_totals_are_exact_A_witness :
  exists r,
    Pa400.print_performance_table 16 128 false true = OK r /\
    (PyInt 24832 / 64)%py = OK (softmax_total r) /\
    (PyInt 33024 / 64)%py = OK (tot_cycles r) /\
    (PyInt 35072 / 128)%py = OK (tot_cycles_coexe r) /\
    ltb (gemm_cycles r) (tot_cycles_coexe r) = true /\
    ltb (tot_cycles_coexe r) (tot_cycles r) = true.
Proof.
  apply (pipeline_totals_are_exact_A 16 128 false true); lia.
Defined.
